(** * Idle Tribal Game: the game core of [script.js]

    A shallow embedding of the state container, the economy calculator, the
    resource accrual and the three single-slot job queues of [script.js],
    followed by the properties of the specification.

    Conventions of the embedding.
    - A JavaScript number that can be fractional (a resource quantity, a
      rate, a training end time) is an exact rational [Qc]; integer-valued
      numbers (timestamps of [Date.now()], costs after [Math.ceil], rewards
      after [Math.floor], the troop count) are [Z].  Where the rounding of
      IEEE doubles changes an integer the code stores (the construction time
      of [calculateTime], the reward of [raid]) every operation is rounded to
      binary64 by [fl]; the resource quantities, the costs (whose factors
      [1.5^n] are dyadic) and the training time are exact.
    - The global [state] is passed explicitly; each function returns the
      state it leaves behind.  A function that can dereference [undefined]
      returns a [result], whose [TypeError] stands for the exception.
    - Every [Date.now()] and [Math.random()] a function evaluates is an
      argument of its model, in the order of evaluation.
    - [saveState] and the [render...] functions do not write to [state];
      of the latter the model keeps the [disabled] flags of the buttons
      and the first [updateProgress] of each progress bar, which can throw
      ([tickCall]). *)

From Stdlib Require Import ZArith QArith Qpower Qcanon Qround List String Bool Lia Lqa.
Import ListNotations.

Local Open Scope Z_scope.

(** ** JavaScript values and primitives *)

Module Js.

(** The outcome of a function body: a normal return or a thrown
    [TypeError] (property access on [undefined]). *)
Inductive result (A : Type) : Type :=
| Ok (a : A)
| TypeError.
Arguments Ok {A} a.
Arguments TypeError {A}.

Definition bind {A B : Type} (r : result A) (k : A -> result B) : result B :=
  match r with
  | Ok a => k a
  | TypeError => TypeError
  end.

(** An integer seen as a number. *)
Definition num (z : Z) : Qc := Q2Qc (inject_Z z).

(** [x <= y] and [x < y] on numbers. *)
Definition leb (x y : Qc) : bool := Qle_bool x y.
Definition ltb (x y : Qc) : bool := negb (Qle_bool y x).

Definition Math_ceil (x : Qc) : Z := Qceiling x.
Definition Math_floor (x : Qc) : Z := Qfloor x.
Definition Math_max (x y : Qc) : Qc := if leb x y then y else x.
(** [Math.pow] at a non-negative integer exponent. *)
Definition Math_pow (x : Qc) (n : nat) : Qc := Qcpower x n.

(** *** Binary64

    The value of an arithmetic operation on doubles is the exact result
    rounded to the nearest number with a significand of 53 bits, ties to the
    even significand.  The exponent is not bounded: the model has no
    overflow to [Infinity] and no subnormal numbers, so it is the code's
    arithmetic for results of magnitude between [2^-1022] and [2^1024]. *)

Definition pow2 (k : Z) : Q := ((2 # 1) ^ k)%Q.

(** The exponent [e] with [2^e <= x < 2^(e+1)], for [x > 0]. *)
Definition ilog2 (x : Q) : Z :=
  let c := Z.log2 (Qnum x) - Z.log2 (Zpos (Qden x)) in
  if Qle_bool (pow2 c) x then c else c - 1.

(** The nearest integer, ties to even. *)
Definition rne (q : Q) : Z :=
  let f := Qfloor q in
  match Qcompare (q - inject_Z f) (1 # 2) with
  | Lt => f
  | Gt => f + 1
  | Eq => if Z.even f then f else f + 1
  end.

Definition round64pos (x : Q) : Q :=
  let p := ilog2 x - 52 in
  (inject_Z (rne (x / pow2 p)) * pow2 p)%Q.

Definition round64 (x : Q) : Q :=
  match Qcompare x 0 with
  | Eq => 0%Q
  | Gt => round64pos x
  | Lt => (- round64pos (- x))%Q
  end.

(** The double nearest to [x]. *)
Definition fl (x : Qc) : Qc := Q2Qc (round64 x).

(** What [calculateTime] returns: a number of milliseconds, or [NaN]. *)
Inductive Millis : Type :=
| Finite (ms : Z)
| NaN.

End Js.
Import Js.

Notation "x <- r ;; k" := (bind r (fun x => k))
  (at level 61, r at next level, right associativity).

(** ** Definitions table *)

Inductive Resource : Type := wood | stone | food.

Definition Resource_eqb (a b : Resource) : bool :=
  match a, b with
  | wood, wood | stone, stone | food, food => true
  | _, _ => false
  end.

(** An object literal keyed by resource kinds ([baseCost], [TRAIN_COST], a
    computed cost, a raid reward), in the order of [Object.keys]. *)
Definition Amounts : Type := list (Resource * Z).

Inductive BuildingKey : Type := woodcutter | quarry | farm | barracks.

Definition BuildingKey_eqb (a b : BuildingKey) : bool :=
  match a, b with
  | woodcutter, woodcutter | quarry, quarry | farm, farm
  | barracks, barracks => true
  | _, _ => false
  end.

Record BuildingDef : Type := mkDef {
  key : BuildingKey;
  name : string;
  resource : option Resource;  (* [null] for the barracks *)
  baseRate : Qc;               (* per second *)
  baseCost : Amounts;
  baseTime : Z                 (* seconds *)
}.

(** The entry of [BUILDING_TYPES] under each of its four keys. *)
Definition definition (k : BuildingKey) : BuildingDef :=
  match k with
  | woodcutter =>
      mkDef woodcutter "Woodcutter" (Some wood) (num 1)
            [(wood, 0); (stone, 20); (food, 10)] 5
  | quarry =>
      mkDef quarry "Quarry" (Some stone) (Q2Qc (8 # 10))
            [(wood, 20); (stone, 0); (food, 10)] 5
  | farm =>
      mkDef farm "Farm" (Some food) (Q2Qc (5 # 10))
            [(wood, 20); (stone, 10); (food, 0)] 5
  | barracks =>
      mkDef barracks "Barracks" None (num 0)
            [(wood, 100); (stone, 50); (food, 50)] 8
  end.

(** The property name of a key. *)
Definition keyString (k : BuildingKey) : string :=
  match k with
  | woodcutter => "woodcutter"
  | quarry => "quarry"
  | farm => "farm"
  | barracks => "barracks"
  end.

Definition BUILDING_TYPES : list (string * BuildingDef) :=
  map (fun k => (keyString k, definition k)) [woodcutter; quarry; farm; barracks].

(** The own properties of [BUILDING_TYPES] under an arbitrary string. *)
Fixpoint lookupType (table : list (string * BuildingDef)) (type : string)
  : option BuildingDef :=
  match table with
  | [] => None
  | (k, def) :: rest => if String.eqb k type then Some def else lookupType rest type
  end.

(** The property names every object literal inherits from
    [Object.prototype]: [BUILDING_TYPES[type]] is a function (the prototype
    itself under [__proto__]) for these, a definition for the four own keys
    and [undefined] for every other string. *)
Definition OBJECT_PROTOTYPE : list string :=
  ["constructor"; "hasOwnProperty"; "isPrototypeOf"; "propertyIsEnumerable";
   "toLocaleString"; "toString"; "valueOf"; "__proto__"; "__defineGetter__";
   "__defineSetter__"; "__lookupGetter__"; "__lookupSetter__"]%string.

Definition inherited (type : string) : bool :=
  existsb (String.eqb type) OBJECT_PROTOTYPE.

Definition COST_MULTIPLIER : Qc := Q2Qc (15 # 10).
(** The double the literal [1.6] denotes; 1.6 is not a dyadic number. *)
Definition TIME_MULTIPLIER : Qc := fl (Q2Qc (16 # 10)).

Definition TRAIN_COST : Amounts := [(wood, 15); (stone, 15); (food, 10)].
Definition BASE_TRAIN_TIME : Z := 5000.
Definition RAID_COST_TROOPS : Z := 5.
Definition RAID_TIME : Z := 30000.
Definition RAID_REWARD_RANGES : list (Resource * (Z * Z)) :=
  [(wood, (20, 40)); (stone, (20, 40)); (food, (10, 30))].

(** ** Game state *)

Record Resources : Type := mkResources {
  woodQty : Qc;
  stoneQty : Qc;
  foodQty : Qc
}.

(** [resources[res]] *)
Definition getRes (r : Resources) (res : Resource) : Qc :=
  match res with
  | wood => woodQty r
  | stone => stoneQty r
  | food => foodQty r
  end.

(** [resources[res] = v] *)
Definition setRes (r : Resources) (res : Resource) (v : Qc) : Resources :=
  match res with
  | wood => mkResources v (stoneQty r) (foodQty r)
  | stone => mkResources (woodQty r) v (foodQty r)
  | food => mkResources (woodQty r) (stoneQty r) v
  end.

(** A building instance.  Levels are created as 1 by [buildNew] and as
    [level + 1] by [upgradeBuilding]; the type is one of the four keys. *)
Record Building : Type := mkBuilding {
  type : BuildingKey;
  level : positive
}.

Module Construction.
Record Job : Type := mkJob {
  type : BuildingKey;
  targetIndex : option Z;  (* [null] for a new building *)
  level : positive;
  startTime : Z;
  endTime : Z
}.
End Construction.

Module Training.
Record Job : Type := mkJob {
  startTime : Z;
  endTime : Qc   (* [Date.now() + duration], duration possibly fractional *)
}.
End Training.

Module Raid.
Record Job : Type := mkJob {
  startTime : Z;
  endTime : Z;
  reward : Amounts
}.
End Raid.

Record GameState : Type := mkState {
  resources : Resources;
  buildings : list Building;
  queue : option Construction.Job;
  troops : Z;
  trainingQueue : option Training.Job;
  raidQueue : option Raid.Job;
  lastUpdate : Z
}.

(** [DEFAULT_STATE]; its [lastUpdate] is the [Date.now()] of script start. *)
Definition DEFAULT_STATE (scriptStart : Z) : GameState :=
  mkState (mkResources (num 50) (num 50) (num 50)) [] None 0 None None scriptStart.

(** ** Economy calculator *)

Definition getProduction (building : Building) : Qc :=
  (baseRate (definition (type building)) * num (Zpos (level building)))%Qc.

Definition costOfDef (def : BuildingDef) (lvl : positive) : Amounts :=
  let multiplier := Math_pow COST_MULTIPLIER (Pos.to_nat lvl - 1) in
  map (fun '(res, base) => (res, Math_ceil (num base * multiplier)%Qc))
      (baseCost def).

(** [def.baseCost] throws when [BUILDING_TYPES[type]] is [undefined]; under
    an inherited name [def.baseCost] is [undefined] and [Object.keys]
    throws. *)
Definition calculateCost (type : string) (lvl : positive) : result Amounts :=
  match lookupType BUILDING_TYPES type with
  | None => TypeError
  | Some def => Ok (costOfDef def lvl)
  end.

(** The time of a definition in binary64: [Math.pow] returns the double
    nearest to the power (exactly 1 at [level = 1]), and the two products
    are rounded.  No time overflows below level 1490. *)
Definition timeOfDef (def : BuildingDef) (lvl : positive) : Z :=
  let seconds :=
    fl (num (baseTime def) *
        fl (Math_pow TIME_MULTIPLIER (Pos.to_nat lvl - 1)))%Qc in
  Math_ceil (fl (seconds * num 1000)%Qc).

(** [def.baseTime] throws when [BUILDING_TYPES[type]] is [undefined]; under
    an inherited name [def.baseTime] is [undefined], the product [NaN] and
    so is the result. *)
Definition calculateTime (type : string) (lvl : positive) : result Millis :=
  match lookupType BUILDING_TYPES type with
  | Some def => Ok (Finite (timeOfDef def lvl))
  | None => if inherited type then Ok NaN else TypeError
  end.

Definition hasResources (cost : Amounts) (s : GameState) : bool :=
  forallb (fun '(res, c) => leb (num c) (getRes (resources s) res)) cost.

Definition deductFrom (r : Resources) (cost : Amounts) : Resources :=
  fold_left (fun acc '(res, c) => setRes acc res (getRes acc res - num c)%Qc)
            cost r.

Definition withResources (s : GameState) (r : Resources) : GameState :=
  mkState r (buildings s) (queue s) (troops s) (trainingQueue s)
          (raidQueue s) (lastUpdate s).

Definition deductResources (cost : Amounts) (s : GameState) : GameState :=
  withResources s (deductFrom (resources s) cost).

(** ** Resource accrual *)

(** The body of the [forEach] callback of [updateResources]. *)
Definition accrue (deltaSeconds : Qc) (r : Resources) (building : Building)
  : Resources :=
  let def := definition (type building) in
  match resource def with
  | None => r                                   (* [!def.resource] *)
  | Some res =>
      if leb (baseRate def) (num 0) then r      (* [def.baseRate <= 0] *)
      else
        let amount :=
          (baseRate def * num (Zpos (level building)) * deltaSeconds)%Qc in
        setRes r res (getRes r res + amount)%Qc
  end.

Definition updateResources (now : Z) (s : GameState) : GameState :=
  let deltaSeconds := (num (now - lastUpdate s) / num 1000)%Qc in
  if leb deltaSeconds (num 0) then s
  else
    mkState (fold_left (accrue deltaSeconds) (buildings s) (resources s))
            (buildings s) (queue s) (troops s) (trainingQueue s)
            (raidQueue s) now.

(** ** Construction queue *)

(** [buildings[index]]: [None] is [undefined]. *)
Definition buildingAt (bs : list Building) (index : Z) : option Building :=
  if index <? 0 then None else nth_error bs (Z.to_nat index).

(** [buildings[index].level = lvl]; nothing is stored out of range. *)
Fixpoint setLevelNat (bs : list Building) (n : nat) (lvl : positive)
  : list Building :=
  match bs, n with
  | [], _ => []
  | b :: rest, O => mkBuilding (type b) lvl :: rest
  | b :: rest, S n' => b :: setLevelNat rest n' lvl
  end.

Definition checkQueue (now : Z) (s : GameState) : result GameState :=
  match queue s with
  | None => Ok s
  | Some job =>
      if Construction.endTime job <=? now then
        match Construction.targetIndex job with
        | None =>
            (* new building *)
            Ok (mkState (resources s)
                        (buildings s ++
                           [mkBuilding (Construction.type job)
                                       (Construction.level job)])
                        None (troops s) (trainingQueue s) (raidQueue s)
                        (lastUpdate s))
        | Some targetIndex =>
            (* upgrade existing; assigning [.level] on [undefined] throws *)
            match buildingAt (buildings s) targetIndex with
            | None => TypeError
            | Some _ =>
                Ok (mkState (resources s)
                            (setLevelNat (buildings s) (Z.to_nat targetIndex)
                                         (Construction.level job))
                            None (troops s) (trainingQueue s) (raidQueue s)
                            (lastUpdate s))
            end
        end
      else Ok s
  end.

Definition withQueue (s : GameState) (job : Construction.Job) : GameState :=
  mkState (resources s) (buildings s) (Some job) (troops s)
          (trainingQueue s) (raidQueue s) (lastUpdate s).

(** [buildNew(type)]; [now1] and [now2] are the two [Date.now()] of the
    queue literal, in the order of its fields.  The branch of a [NaN]
    duration is never taken: [calculateCost] has thrown for every name that
    is not an own key of [BUILDING_TYPES]. *)
Definition buildNew (type : string) (now1 now2 : Z) (s : GameState)
  : result GameState :=
  match queue s with
  | Some _ => Ok s
  | None =>
      cost <- calculateCost type 1 ;;
      if negb (hasResources cost s) then Ok s
      else
        let s1 := deductResources cost s in
        duration <- calculateTime type 1 ;;
        def <- match lookupType BUILDING_TYPES type with
               | Some def => Ok def
               | None => TypeError
               end ;;
        match duration with
        | Finite ms =>
            Ok (withQueue s1
                  (Construction.mkJob (key def) None 1 now1 (now2 + ms)))
        | NaN => TypeError
        end
  end.

(** [upgradeBuilding(index)]; the type of a building is an own key, so the
    duration is never [NaN]. *)
Definition upgradeBuilding (index : Z) (now1 now2 : Z) (s : GameState)
  : result GameState :=
  match queue s with
  | Some _ => Ok s
  | None =>
      (* [building.level] throws when [buildings[index]] is [undefined] *)
      building <- match buildingAt (buildings s) index with
                  | Some b => Ok b
                  | None => TypeError
                  end ;;
      let nextLevel := (level building + 1)%positive in
      cost <- calculateCost (keyString (type building)) nextLevel ;;
      if negb (hasResources cost s) then Ok s
      else
        let s1 := deductResources cost s in
        duration <- calculateTime (keyString (type building)) nextLevel ;;
        match duration with
        | Finite ms =>
            Ok (withQueue s1
                  (Construction.mkJob (type building) (Some index) nextLevel
                                      now1 (now2 + ms)))
        | NaN => TypeError
        end
  end.

(** ** Troop training *)

Definition getTotalBarracksLevel (s : GameState) : Z :=
  fold_left (fun sum b => sum + Zpos (level b))
            (filter (fun b => BuildingKey_eqb (type b) barracks) (buildings s))
            0.

Definition calculateTrainingDuration (s : GameState) : Qc :=
  let total := getTotalBarracksLevel s in
  let multiplier := (num 1 + Q2Qc (5 # 10) * num total)%Qc in
  Math_max (num 1000) (num BASE_TRAIN_TIME / multiplier)%Qc.

Definition trainTroop (now1 now2 : Z) (s : GameState) : GameState :=
  match trainingQueue s with
  | Some _ => s
  | None =>
      if negb (hasResources TRAIN_COST s) then s
      else
        let s1 := deductResources TRAIN_COST s in
        let duration := calculateTrainingDuration s1 in
        mkState (resources s1) (buildings s1) (queue s1) (troops s1)
                (Some (Training.mkJob now1 (num now2 + duration)%Qc))
                (raidQueue s1) (lastUpdate s1)
  end.

Definition checkTrainingQueue (now : Z) (s : GameState) : GameState :=
  match trainingQueue s with
  | None => s
  | Some job =>
      if leb (Training.endTime job) (num now) then
        mkState (resources s) (buildings s) (queue s) (troops s + 1)
                None (raidQueue s) (lastUpdate s)
      else s
  end.

(** ** Raids *)

(** The [forEach] over [Object.keys(RAID_REWARD_RANGES)]: the [i]-th call of
    [Math.random()] since the start of [raid] returns [random i].  The
    product and the sum are rounded to binary64; [max - min + 1] is exact. *)
Fixpoint rollReward (ranges : list (Resource * (Z * Z))) (random : nat -> Qc)
  (i : nat) : Amounts :=
  match ranges with
  | [] => []
  | (res, (min, max)) :: rest =>
      (res, Math_floor (fl (num min + fl (random i * num (max - min + 1)))%Qc))
        :: rollReward rest random (S i)
  end.

Definition raid (random : nat -> Qc) (now1 now2 : Z) (s : GameState)
  : GameState :=
  match raidQueue s with
  | Some _ => s
  | None =>
      if troops s <? RAID_COST_TROOPS then s
      else
        let reward := rollReward RAID_REWARD_RANGES random 0 in
        mkState (resources s) (buildings s) (queue s)
                (troops s - RAID_COST_TROOPS) (trainingQueue s)
                (Some (Raid.mkJob now1 (now2 + RAID_TIME) reward))
                (lastUpdate s)
  end.

(** [resources[res] += reward[res]] over the keys of the reward. *)
Definition addTo (r : Resources) (reward : Amounts) : Resources :=
  fold_left (fun acc '(res, v) => setRes acc res (getRes acc res + num v)%Qc)
            reward r.

Definition checkRaidQueue (now : Z) (s : GameState) : GameState :=
  match raidQueue s with
  | None => s
  | Some job =>
      if Raid.endTime job <=? now then
        mkState (addTo (resources s) (Raid.reward job)) (buildings s)
                (queue s) (troops s) (trainingQueue s) None (lastUpdate s)
      else s
  end.

(** ** The update loop and the player commands *)

(** The four steps of [tick] that change the state (lines 702-705); each
    reads the clock itself.  The render calls that follow are in
    [tickCall]. *)
Definition tick (now1 now2 now3 now4 : Z) (s : GameState) : result GameState :=
  s2 <- checkQueue now2 (updateResources now1 s) ;;
  Ok (checkRaidQueue now4 (checkTrainingQueue now3 s2)).

(** The four commands the presentation layer issues, with the clock and
    random values each consumes. *)
Inductive Command : Type :=
| CmdBuildNew (type : string) (now1 now2 : Z)
| CmdUpgradeBuilding (index : Z) (now1 now2 : Z)
| CmdTrainTroop (now1 now2 : Z)
| CmdRaid (random : nat -> Qc) (now1 now2 : Z).

Definition runCommand (c : Command) (s : GameState) : result GameState :=
  match c with
  | CmdBuildNew type now1 now2 => buildNew type now1 now2 s
  | CmdUpgradeBuilding index now1 now2 => upgradeBuilding index now1 now2 s
  | CmdTrainTroop now1 now2 => Ok (trainTroop now1 now2 s)
  | CmdRaid random now1 now2 => Ok (raid random now1 now2 s)
  end.

(** Every operation of the core on the state. *)
Inductive Operation : Type :=
| OpUpdateResources (now : Z)
| OpCheckQueue (now : Z)
| OpCheckTrainingQueue (now : Z)
| OpCheckRaidQueue (now : Z)
| OpCommand (c : Command).

Definition perform (o : Operation) (s : GameState) : result GameState :=
  match o with
  | OpUpdateResources now => Ok (updateResources now s)
  | OpCheckQueue now => checkQueue now s
  | OpCheckTrainingQueue now => Ok (checkTrainingQueue now s)
  | OpCheckRaidQueue now => Ok (checkRaidQueue now s)
  | OpCommand c => runCommand c s
  end.

(** ** Quantities the specification speaks of *)

(** [(now - state.lastUpdate) / 1000] *)
Definition deltaSeconds (now : Z) (s : GameState) : Qc :=
  (num (now - lastUpdate s) / num 1000)%Qc.

(** A building instance whose type has the produced resource [res] and a
    positive base rate. *)
Definition produces (b : Building) (res : Resource) : bool :=
  match resource (definition (type b)) with
  | Some r => Resource_eqb r res && ltb (num 0) (baseRate (definition (type b)))
  | None => false
  end.

(** The sum of [baseRate * level] over the building instances producing
    [res]. *)
Fixpoint productionRate (res : Resource) (bs : list Building) : Qc :=
  match bs with
  | [] => 0%Qc
  | b :: rest =>
      ((if produces b res then getProduction b else 0) +
       productionRate res rest)%Qc
  end.

(** The ticks of an interval, one [updateResources] per clock reading. *)
Definition runTicks (ticks : list Z) (s : GameState) : GameState :=
  fold_left (fun st t => updateResources t st) ticks s.

(** [ceil(base * 1.5^(L - 1))], as the specification writes the cost of
    one resource at level [L], over plain rationals. *)
Definition costAtLevel (base : Z) (L : positive) : Z :=
  Qceiling (inject_Z base * (3 # 2) ^ (Zpos L - 1))%Q.

(** [ceil(c * 1.5)]: the cost the recurrence of the specification derives
    from the cost [c] of the level below. *)
Definition nextCostFrom (c : Z) : Z :=
  Qceiling (inject_Z c * (3 # 2))%Q.

(** The sum of [level] over the building instances of the barracks type, as
    the specification defines [totalBarracksLevel]. *)
Fixpoint totalBarracksLevel (bs : list Building) : Z :=
  match bs with
  | [] => 0
  | b :: rest =>
      (match type b with barracks => Zpos (level b) | _ => 0 end) +
      totalBarracksLevel rest
  end.

(** [baseTrainTimeMs / (1 + 0.5 * total)] *)
Definition scaledTrainTime (total : Z) : Qc :=
  (num 5000 / (1 + Q2Qc (1 # 2) * num total))%Qc.

(** A sequence of core operations, stopped by the first exception. *)
Fixpoint performAll (ops : list Operation) (s : GameState) : result GameState :=
  match ops with
  | [] => Ok s
  | o :: rest => s1 <- perform o s ;; performAll rest s1
  end.

(** The operation is a raid check at a reading from [endTime] on. *)
Definition completesRaid (job : Raid.Job) (o : Operation) : Prop :=
  match o with
  | OpCheckRaidQueue now => Raid.endTime job <= now
  | _ => False
  end.

(** [reward[res]] summed over the entries of a reward under the key [res]
    (an object has each key at most once). *)
Fixpoint amountOf (res : Resource) (reward : Amounts) : Z :=
  match reward with
  | [] => 0
  | (res', v) :: rest =>
      (if Resource_eqb res' res then v else 0) + amountOf res rest
  end.

(** [floor(min + random * (max - min + 1))], as the specification writes a
    sampled reward, over plain rationals. *)
Definition sampleInRange (min max : Z) (random : Q) : Z :=
  Qfloor (inject_Z min + random * inject_Z (max - min + 1))%Q.

(** The command has put a job in its (previously empty) queue slot. *)
Definition started (c : Command) (s s' : GameState) : Prop :=
  match c with
  | CmdBuildNew _ _ _ | CmdUpgradeBuilding _ _ _ =>
      queue s = None /\ exists job, queue s' = Some job
  | CmdTrainTroop _ _ =>
      trainingQueue s = None /\ exists job, trainingQueue s' = Some job
  | CmdRaid _ _ _ =>
      raidQueue s = None /\ exists job, raidQueue s' = Some job
  end.

(** The command names something that exists, or is issued while the
    construction queue is busy: [buildNew] with one of the four keys of
    [BUILDING_TYPES], [upgradeBuilding] with the index of a building. *)
Definition addressesExisting (c : Command) (s : GameState) : Prop :=
  match c with
  | CmdBuildNew type _ _ =>
      queue s <> None \/ exists k, type = keyString k
  | CmdUpgradeBuilding index _ _ =>
      queue s <> None \/ exists b, buildingAt (buildings s) index = Some b
  | CmdTrainTroop _ _ | CmdRaid _ _ _ => True
  end.

(** Every resource quantity and the troop count are at least 0. *)
Definition nonNegative (s : GameState) : Prop :=
  (forall res, (0 <= getRes (resources s) res)%Qc) /\ 0 <= troops s.

(** Every amount of the reward of a stored raid job is at least 0. *)
Definition rewardNonNegative (s : GameState) : Prop :=
  match raidQueue s with
  | Some job => Forall (fun '(_, v) => 0 <= v) (Raid.reward job)
  | None => True
  end.

(** Every [Math.random()] of the operation returns a value in [0, 1). *)
Definition randomInUnit (o : Operation) : Prop :=
  match o with
  | OpCommand (CmdRaid random _ _) =>
      forall n, (0 <= random n)%Qc /\ (random n < 1)%Qc
  | _ => True
  end.

(** A range of rewards is ordered, starts at 0 or above and stays within
    the integers a double holds exactly. *)
Definition rangeOrdered (range : Resource * (Z * Z)) : Prop :=
  let '(_, (min, max)) := range in 0 <= min <= max /\ max < 2 ^ 52.

(** The keys of an object are distinct. *)
Definition distinctKeys (a : Amounts) : Prop := NoDup (map fst a).

(** ** Sample states *)

(** A village last updated at reading 0: a woodcutter of level 2, a quarry
    and a barracks of level 1, the starting resources. *)
Definition village : GameState :=
  mkState (mkResources (num 50) (num 50) (num 50))
          [mkBuilding woodcutter 2; mkBuilding quarry 1; mkBuilding barracks 1]
          None 0 None None 0.

(** [village] with a job in each slot: a woodcutter under construction until
    reading 5000, a troop in training until 5000, a raid out until 30000. *)
Definition busyVillage : GameState :=
  mkState (resources village) (buildings village)
          (Some (Construction.mkJob woodcutter None 1 0 5000))
          0
          (Some (Training.mkJob 0 (num 5000)))
          (Some (Raid.mkJob 0 30000 [(wood, 25); (stone, 30); (food, 12)]))
          0.

(** [busyVillage] once its construction job has been completed. *)
Definition builtVillage : GameState :=
  mkState (resources village) (buildings village ++ [mkBuilding woodcutter 1])
          None 0 (trainingQueue busyVillage) (raidQueue busyVillage) 0.

(** [village] with its woodcutter (index 0) being upgraded to level 3 until
    reading 8000. *)
Definition upgradingVillage : GameState :=
  mkState (resources village) (buildings village)
          (Some (Construction.mkJob woodcutter (Some 0) 3 0 8000))
          0 None None 0.

(** [village] with seven trained troops. *)
Definition garrison : GameState :=
  mkState (resources village) (buildings village) None 7 None None 0.

(** A [Math.random] that always returns 0.5. *)
Definition coin : nat -> Qc := fun _ => Q2Qc (1 # 2).

(** [1 - 2^-51]: up to this value of [Math.random()] a rolled reward stays
    within its range. *)
Definition belowOne : Qc := Q2Qc (1 - (1 # 2 ^ 51)).

(** [1 - 2^-53], the largest double below 1. *)
Definition lastBelowOne : Qc := Q2Qc (1 - (1 # 2 ^ 53)).

(** A state whose stored raid reward takes 100 wood away. *)
Definition cursedVillage : GameState :=
  mkState (resources village) (buildings village) None 0 None
          (Some (Raid.mkJob 0 30000 [(wood, -100)])) 0.

(** The first minutes of a game: build a woodcutter, let it complete, train
    a troop, tick, and try a raid (refused: one troop only). *)
Definition openingMoves : list Operation :=
  [OpCommand (CmdBuildNew "woodcutter" 0 0);
   OpCheckQueue 5000;
   OpUpdateResources 60000;
   OpCommand (CmdTrainTroop 60000 60000);
   OpCheckTrainingQueue 65000;
   OpCommand (CmdRaid coin 65000 65000);
   OpCheckRaidQueue 95000].

(** ** Presentation and persistence *)

Definition Math_min (x y : Qc) : Qc := if leb x y then x else y.

(** The [ratio] that the [updateProgress] closures of [renderQueue],
    [renderTraining] and [renderRaid] compute for the width of the bar. *)
Definition progressRatio (startTime endTime : Qc) (now : Z) : Qc :=
  let total := (endTime - startTime)%Qc in
  let elapsed := Math_min (num now - startTime)%Qc total in
  Math_max 0%Qc (Math_min 1%Qc (elapsed / total)%Qc).

(** [!!slot] *)
Definition isBusy {A : Type} (slot : option A) : bool :=
  match slot with
  | Some _ => true
  | None => false
  end.

(** [btn.disabled] of the Build button of [renderConstructionOptions];
    [type] ranges over [Object.keys(BUILDING_TYPES)]. *)
Definition buildDisabled (k : BuildingKey) (s : GameState) : result bool :=
  costObj <- calculateCost (keyString k) 1 ;;
  Ok (isBusy (queue s) || negb (hasResources costObj s)).

(** [btn.disabled] of the Upgrade button of [renderBuildings]. *)
Definition upgradeDisabled (building : Building) (s : GameState) : result bool :=
  let nextLevel := (level building + 1)%positive in
  costObj <- calculateCost (keyString (type building)) nextLevel ;;
  Ok (isBusy (queue s) || negb (hasResources costObj s)).

(** [btn.disabled] of the Train Troop button of [renderTroops]. *)
Definition trainDisabled (s : GameState) : bool :=
  isBusy (trainingQueue s) || negb (hasResources TRAIN_COST s).

(** [btn.disabled] of the Raid button of [renderRaid]. *)
Definition raidDisabled (s : GameState) : bool :=
  (troops s <? RAID_COST_TROOPS) || isBusy (raidQueue s).

(** [ratio >= 1] in an [updateProgress] closure.  Each render function
    calls the closure once before [const interval] is initialised, so that
    [clearInterval(interval)] on this branch throws a [ReferenceError].
    (For [endTime = startTime] the quotient of the code is [NaN] or
    [-Infinity] and the test fails, as it does on the 0 of the model.) *)
Definition reachesEnd (startTime endTime : Qc) (now : Z) : bool :=
  leb 1%Qc (progressRatio startTime endTime now).

(** How a render function with a progress bar ends. *)
Inductive Rendering : Type :=
| Rendered
| ReferenceError.

(** [renderQueue], [renderTraining] and [renderRaid], each with the
    [Date.now()] of its first [updateProgress]; the elements they look up
    are taken to be in the page. *)
Definition renderQueue (now : Z) (s : GameState) : Rendering :=
  match queue s with
  | None => Rendered
  | Some job =>
      if reachesEnd (num (Construction.startTime job))
                    (num (Construction.endTime job)) now
      then ReferenceError else Rendered
  end.

Definition renderTraining (now : Z) (s : GameState) : Rendering :=
  match trainingQueue s with
  | None => Rendered
  | Some job =>
      if reachesEnd (num (Training.startTime job)) (Training.endTime job) now
      then ReferenceError else Rendered
  end.

Definition renderRaid (now : Z) (s : GameState) : Rendering :=
  match raidQueue s with
  | None => Rendered
  | Some job =>
      if reachesEnd (num (Raid.startTime job)) (num (Raid.endTime job)) now
      then ReferenceError else Rendered
  end.

(** How a call of [tick] ends, with the state it leaves. *)
Inductive Completion : Type :=
| Returns (s : GameState)
| ThrowsTypeError (s : GameState)
| ThrowsReferenceError (s : GameState).

(** The whole of [tick]: the four steps of [tick] above, then the seven
    render calls, of which [renderResources], [renderBuildings],
    [renderConstructionOptions] and [renderTroops] always return.  [now5],
    [now6] and [now7] are the readings of the three progress bars. *)
Definition tickCall (now1 now2 now3 now4 now5 now6 now7 : Z) (s : GameState)
  : Completion :=
  match tick now1 now2 now3 now4 s with
  | TypeError => ThrowsTypeError (updateResources now1 s)
  | Ok s' =>
      match renderQueue now5 s' with
      | ReferenceError => ThrowsReferenceError s'
      | Rendered =>
          match renderTraining now6 s' with
          | ReferenceError => ThrowsReferenceError s'
          | Rendered =>
              match renderRaid now7 s' with
              | ReferenceError => ThrowsReferenceError s'
              | Rendered => Returns s'
              end
          end
      end
  end.

(** The bar of a job is full at the reading [now]: the job has reached its
    end, or its end lies before its start. *)
Definition barFull (startTime endTime : Qc) (now : Z) : Prop :=
  ((startTime < endTime)%Qc /\ (endTime <= num now)%Qc) \/
  (endTime < startTime)%Qc.

(** A job stored in the state has a full bar at the reading of its render
    function. *)
Definition someBarFull (now5 now6 now7 : Z) (s : GameState) : Prop :=
  (exists job, queue s = Some job /\
               barFull (num (Construction.startTime job))
                       (num (Construction.endTime job)) now5) \/
  (exists job, trainingQueue s = Some job /\
               barFull (num (Training.startTime job))
                       (Training.endTime job) now6) \/
  (exists job, raidQueue s = Some job /\
               barFull (num (Raid.startTime job))
                       (num (Raid.endTime job)) now7).

(** No stored job ends before it starts. *)
Definition jobsTimed (s : GameState) : Prop :=
  match queue s with
  | Some job => Construction.startTime job <= Construction.endTime job
  | None => True
  end /\
  match trainingQueue s with
  | Some job => (num (Training.startTime job) <= Training.endTime job)%Qc
  | None => True
  end /\
  match raidQueue s with
  | Some job => Raid.startTime job <= Raid.endTime job
  | None => True
  end.

(** The object [JSON.parse] returns for a saved state: the four fields that
    [loadState] backfills may be absent ([None] is [undefined]); the stored
    value of a queue may itself be [null]. *)
Record PersistedState : Type := mkPersisted {
  savedResources : Resources;
  savedBuildings : list Building;
  savedQueue : option Construction.Job;
  savedTroops : option Z;
  savedTrainingQueue : option (option Training.Job);
  savedRaidQueue : option (option Raid.Job);
  savedLastUpdate : option Z
}.

(** What [localStorage.getItem] and [JSON.parse] yield in [loadState]: no
    item (or an empty string), a string [JSON.parse] throws on, or an
    object. *)
Inductive StoredItem : Type :=
| NoItem
| Malformed
| Parsed (p : PersistedState).

(** The object with every field present that [JSON.parse] returns on the
    [JSON.stringify] of a state. *)
Definition toPersisted (s : GameState) : PersistedState :=
  mkPersisted (resources s) (buildings s) (queue s) (Some (troops s))
              (Some (trainingQueue s)) (Some (raidQueue s))
              (Some (lastUpdate s)).

(** [loadState]; [scriptStart] is the [lastUpdate] of [DEFAULT_STATE] and
    [now] the [Date.now()] of the backfill. *)
Definition loadState (item : StoredItem) (scriptStart now : Z) : GameState :=
  let state :=
    match item with
    | Parsed p => p
    | NoItem | Malformed => toPersisted (DEFAULT_STATE scriptStart)
    end in
  mkState (savedResources state) (savedBuildings state) (savedQueue state)
          (match savedTroops state with
           | None => 0                    (* [=== undefined] *)
           | Some t => t
           end)
          (match savedTrainingQueue state with
           | None => None
           | Some q => q
           end)
          (match savedRaidQueue state with
           | None => None
           | Some q => q
           end)
          (match savedLastUpdate state with
           | None => now                  (* [!state.lastUpdate] *)
           | Some t => if t =? 0 then now else t
           end).

(** ** Conditions on states *)

(** The construction slot is empty or its job ends after [now]. *)
Definition constructionPending (now : Z) (s : GameState) : Prop :=
  match queue s with
  | Some job => now < Construction.endTime job
  | None => True
  end.

Definition trainingPending (now : Z) (s : GameState) : Prop :=
  match trainingQueue s with
  | Some job => (num now < Training.endTime job)%Qc
  | None => True
  end.

Definition raidPending (now : Z) (s : GameState) : Prop :=
  match raidQueue s with
  | Some job => now < Raid.endTime job
  | None => True
  end.

(** A stored construction job is one [buildNew] or [upgradeBuilding] can
    have stored for the present building list: a new building of level 1,
    or the upgrade of an existing building to the level above its own. *)
Definition queueWellFormed (s : GameState) : Prop :=
  match queue s with
  | None => True
  | Some job =>
      match Construction.targetIndex job with
      | None => Construction.level job = 1%positive
      | Some index =>
          exists b,
            buildingAt (buildings s) index = Some b /\
            Construction.type job = type b /\
            Construction.level job = (level b + 1)%positive
      end
  end.

(** The operation is a construction check at a reading from [endTime] on. *)
Definition completesConstruction (job : Construction.Job) (o : Operation)
  : Prop :=
  match o with
  | OpCheckQueue now => Construction.endTime job <= now
  | _ => False
  end.

(** The operation is a training check at a reading from [endTime] on. *)
Definition completesTraining (job : Training.Job) (o : Operation) : Prop :=
  match o with
  | OpCheckTrainingQueue now => (Training.endTime job <= num now)%Qc
  | _ => False
  end.


(** The default state left alone for 100 seconds with a woodcutter under
    construction until reading 5000. *)
Definition awayVillage : GameState :=
  mkState (mkResources (num 50) (num 50) (num 50)) []
          (Some (Construction.mkJob woodcutter None 1 0 5000))
          0 None None 0.

(** * Properties *)

(** ** Numbers *)

Section Numbers.

Lemma leb_iff (x y : Qc) : leb x y = true <-> (x <= y)%Qc.
Proof. unfold leb, Qcle. apply Qle_bool_iff. Qed.

Lemma leb_false_iff (x y : Qc) : leb x y = false <-> (y < x)%Qc.
Proof.
  split; intro H.
  - destruct (Qclt_le_dec y x) as [Hlt | Hle]; [exact Hlt |].
    apply (proj2 (leb_iff _ _)) in Hle. congruence.
  - destruct (leb x y) eqn:E; [| reflexivity].
    apply (proj1 (leb_iff _ _)) in E. exfalso. exact (Qcle_not_lt _ _ E H).
Qed.

Lemma num_this (z : Z) : (this (num z) == inject_Z z)%Q.
Proof. unfold num, Q2Qc, this. apply Qred_correct. Qed.

Lemma num_le (a b : Z) : (num a <= num b)%Qc <-> a <= b.
Proof. unfold Qcle. rewrite !num_this. now rewrite <- Zle_Qle. Qed.

Lemma num_lt (a b : Z) : (num a < num b)%Qc <-> a < b.
Proof. unfold Qclt. rewrite !num_this. now rewrite <- Zlt_Qlt. Qed.

Lemma num_plus (a b : Z) : num (a + b) = (num a + num b)%Qc.
Proof.
  apply Qc_is_canon. unfold Qcplus, num, Q2Qc, this.
  rewrite !Qred_correct. now rewrite inject_Z_plus.
Qed.

Lemma num_opp (a : Z) : num (- a) = (- num a)%Qc.
Proof.
  apply Qc_is_canon. unfold Qcopp, num, Q2Qc, this.
  rewrite !Qred_correct. now rewrite inject_Z_opp.
Qed.

Lemma num_minus (a b : Z) : num (a - b) = (num a - num b)%Qc.
Proof. unfold Z.sub, Qcminus. now rewrite num_plus, num_opp. Qed.

Lemma num_0 : num 0 = 0%Qc.
Proof. now apply Qc_is_canon. Qed.

Lemma num_1 : num 1 = 1%Qc.
Proof. now apply Qc_is_canon. Qed.

Lemma num_1000_pos : (0 < num 1000)%Qc.
Proof. rewrite <- num_0. apply (proj2 (num_lt _ _)). lia. Qed.

Lemma Resources_ext (r1 r2 : Resources) :
  (forall res, getRes r1 res = getRes r2 res) -> r1 = r2.
Proof.
  intro H. destruct r1 as [a b c], r2 as [a' b' c'].
  pose proof (H wood) as Hw. pose proof (H stone) as Hs.
  pose proof (H food) as Hf. simpl in *. now subst.
Qed.

Lemma getRes_setRes (r : Resources) (res res' : Resource) (v : Qc) :
  getRes (setRes r res v) res' =
  if Resource_eqb res res' then v else getRes r res'.
Proof. now destruct res, res'. Qed.

Lemma Qc_nonneg_plus (x y : Qc) : (0 <= x)%Qc -> (0 <= y)%Qc -> (0 <= x + y)%Qc.
Proof.
  intros Hx Hy. replace 0%Qc with (0 + 0)%Qc by ring.
  now apply Qcplus_le_compat.
Qed.

Lemma Qc_nonneg_mult (x y : Qc) : (0 <= x)%Qc -> (0 <= y)%Qc -> (0 <= x * y)%Qc.
Proof.
  intros Hx Hy. replace 0%Qc with (0 * y)%Qc by ring.
  now apply Qcmult_le_compat_r.
Qed.

Lemma num_nonneg (z : Z) : 0 <= z -> (0 <= num z)%Qc.
Proof. intro H. rewrite <- num_0. now apply (proj2 (num_le _ _)). Qed.

End Numbers.

(** ** Binary64 rounding *)

Section Binary64.

Lemma two_neq_0 : ~ (2 # 1 == 0)%Q.
Proof. discriminate. Qed.

Lemma pow2_pos (k : Z) : (0 < pow2 k)%Q.
Proof. apply Qpower_0_lt. reflexivity. Qed.

Lemma pow2_succ (k : Z) : (pow2 (k + 1) == pow2 k * (2 # 1))%Q.
Proof. unfold pow2. rewrite Qpower_plus by exact two_neq_0. reflexivity. Qed.

Lemma pow2_le (k k' : Z) : k <= k' -> (pow2 k <= pow2 k')%Q.
Proof. intro H. apply Qpower_le_compat_l; [exact H | discriminate]. Qed.

Lemma pow2_lt (k k' : Z) : k < k' -> (pow2 k < pow2 k')%Q.
Proof. intro H. apply Qpower_lt_compat_l; [exact H | reflexivity]. Qed.

Lemma pow2_inject (k : Z) : 0 <= k -> (pow2 k == inject_Z (2 ^ k))%Q.
Proof. intro H. unfold pow2. now rewrite Zpower_Qpower. Qed.

Lemma pow2_minus (a b : Z) : (pow2 (a - b) == pow2 a / pow2 b)%Q.
Proof. unfold pow2. apply Qpower_minus. exact two_neq_0. Qed.

Lemma Qpos_neq_0 (B : Q) : (0 < B)%Q -> ~ (B == 0)%Q.
Proof. intros H E. rewrite E in H. discriminate H. Qed.

Lemma Qdiv_mult_cancel (A B : Q) : ~ (B == 0)%Q -> (A / B * B == A)%Q.
Proof. intro H. field. exact H. Qed.

Lemma Qdiv_pos (A B : Q) : (0 < A)%Q -> (0 < B)%Q -> (0 < A / B)%Q.
Proof.
  intros HA HB. apply Qlt_shift_div_l; [exact HB |]. now rewrite Qmult_0_l.
Qed.

Lemma Qdiv_lt_cross (n d A B : Q) :
  (0 <= n)%Q -> (n < A)%Q -> (0 < B)%Q -> (B <= d)%Q -> (n / d < A / B)%Q.
Proof.
  intros Hn HnA HB HBd.
  assert (Hd : (0 < d)%Q) by exact (Qlt_le_trans _ _ _ HB HBd).
  assert (HA : (0 < A)%Q) by exact (Qle_lt_trans _ _ _ Hn HnA).
  apply Qlt_shift_div_r; [exact Hd |].
  eapply Qlt_le_trans; [exact HnA |].
  rewrite <- (Qdiv_mult_cancel A B (Qpos_neq_0 B HB)) at 1.
  apply Qmult_le_l; [now apply Qdiv_pos | exact HBd].
Qed.

Lemma Qdiv_le_cross (n d A B : Q) :
  (0 < A)%Q -> (A <= n)%Q -> (0 < d)%Q -> (d <= B)%Q -> (A / B <= n / d)%Q.
Proof.
  intros HA HAn Hd HdB.
  assert (HB : (0 < B)%Q) by exact (Qlt_le_trans _ _ _ Hd HdB).
  assert (Hn : (0 < n)%Q) by exact (Qlt_le_trans _ _ _ HA HAn).
  apply Qle_shift_div_r; [exact HB |].
  eapply Qle_trans; [exact HAn |].
  rewrite <- (Qdiv_mult_cancel n d (Qpos_neq_0 d Hd)) at 1.
  apply Qmult_le_l; [now apply Qdiv_pos | exact HdB].
Qed.

Lemma ilog2_spec (x : Q) :
  (0 < x)%Q -> (pow2 (ilog2 x) <= x)%Q /\ (x < pow2 (ilog2 x + 1))%Q.
Proof.
  intro Hx. destruct x as [n d]. unfold ilog2. cbn [Qnum Qden].
  assert (Hn : 0 < n) by (unfold Qlt in Hx; simpl in Hx; lia).
  set (a := Z.log2 n). set (b := Z.log2 (Zpos d)).
  destruct (Z.log2_spec n Hn) as [Ha1 Ha2].
  destruct (Z.log2_spec (Zpos d) (Pos2Z.is_pos d)) as [Hb1 Hb2].
  fold a in Ha1, Ha2. fold b in Hb1, Hb2.
  assert (Ha0 : 0 <= a) by apply Z.log2_nonneg.
  assert (Hb0 : 0 <= b) by apply Z.log2_nonneg.
  assert (Qa1 : (pow2 a <= inject_Z n)%Q)
    by (rewrite pow2_inject by lia; now rewrite <- Zle_Qle).
  assert (Qa2 : (inject_Z n < pow2 (a + 1))%Q)
    by (rewrite pow2_inject by lia; rewrite <- Zlt_Qlt;
        replace (a + 1) with (Z.succ a) by lia; exact Ha2).
  assert (Qb1 : (pow2 b <= inject_Z (Zpos d))%Q)
    by (rewrite pow2_inject by lia; now rewrite <- Zle_Qle).
  assert (Qb2 : (inject_Z (Zpos d) <= pow2 (b + 1))%Q)
    by (rewrite pow2_inject by lia; rewrite <- Zle_Qle;
        replace (b + 1) with (Z.succ b) by lia; lia).
  assert (Hd : (0 < inject_Z (Zpos d))%Q) by reflexivity.
  assert (Hn0 : (0 <= inject_Z n)%Q)
    by (change 0%Q with (inject_Z 0); rewrite <- Zle_Qle; lia).
  assert (Ex : (n # d == inject_Z n / inject_Z (Zpos d))%Q) by apply Qmake_Qdiv.
  assert (Hup : (n # d < pow2 (a - b + 1))%Q).
  { rewrite Ex. replace (a - b + 1) with ((a + 1) - b) by lia.
    rewrite pow2_minus.
    apply Qdiv_lt_cross; [exact Hn0 | exact Qa2 | apply pow2_pos | exact Qb1]. }
  assert (Hlo : (pow2 (a - b - 1) <= n # d)%Q).
  { rewrite Ex. replace (a - b - 1) with (a - (b + 1)) by lia.
    rewrite pow2_minus.
    apply Qdiv_le_cross; [apply pow2_pos | exact Qa1 | exact Hd | exact Qb2]. }
  destruct (Qle_bool (pow2 (a - b)) (n # d)) eqn:E.
  - apply Qle_bool_iff in E. split; [exact E | exact Hup].
  - split; [exact Hlo |].
    replace (a - b - 1 + 1) with (a - b) by lia.
    apply Qnot_le_lt. intro H. apply Qle_bool_iff in H. congruence.
Qed.

Lemma ilog2_unique (x : Q) (e : Z) :
  (pow2 e <= x)%Q -> (x < pow2 (e + 1))%Q -> ilog2 x = e.
Proof.
  intros H1 H2.
  assert (Hx : (0 < x)%Q) by (eapply Qlt_le_trans; [apply pow2_pos | exact H1]).
  destruct (ilog2_spec x Hx) as [G1 G2].
  assert (A : ilog2 x < e + 1).
  { apply (Qpower_lt_compat_l_inv (2 # 1)); [| reflexivity].
    eapply Qle_lt_trans; [exact G1 | exact H2]. }
  assert (B : e < ilog2 x + 1).
  { apply (Qpower_lt_compat_l_inv (2 # 1)); [| reflexivity].
    eapply Qle_lt_trans; [exact H1 | exact G2]. }
  lia.
Qed.

Lemma ilog2_mono (x y : Q) : (0 < x)%Q -> (x <= y)%Q -> ilog2 x <= ilog2 y.
Proof.
  intros Hx Hxy.
  assert (Hy : (0 < y)%Q) by (eapply Qlt_le_trans; eassumption).
  destruct (ilog2_spec x Hx) as [G1 _]. destruct (ilog2_spec y Hy) as [_ G2].
  assert (A : ilog2 x < ilog2 y + 1).
  { apply (Qpower_lt_compat_l_inv (2 # 1)); [| reflexivity].
    eapply Qle_lt_trans; [exact G1 |]. eapply Qle_lt_trans; eassumption. }
  lia.
Qed.

Lemma ilog2_comp (x y : Q) : (0 < x)%Q -> (x == y)%Q -> ilog2 x = ilog2 y.
Proof.
  intros Hx E. destruct (ilog2_spec x Hx) as [G1 G2]. symmetry.
  apply ilog2_unique; now rewrite <- E.
Qed.

(** The nearest integer. *)

#[global] Instance rne_comp : Proper (Qeq ==> eq) rne.
Proof.
  intros x y E. unfold rne. rewrite (Qfloor_comp _ _ E).
  assert (E' : (x - inject_Z (Qfloor y) == y - inject_Z (Qfloor y))%Q)
    by now rewrite E.
  now rewrite (Qcompare_comp _ _ E' _ _ (Qeq_refl (1 # 2))).
Qed.

Lemma rne_int (z : Z) : rne (inject_Z z) = z.
Proof.
  unfold rne. rewrite Qfloor_Z.
  assert (E : (inject_Z z - inject_Z z == 0)%Q) by ring.
  now rewrite (Qcompare_comp _ _ E _ _ (Qeq_refl (1 # 2))).
Qed.

Lemma rne_bounds (q : Q) : Qfloor q <= rne q <= Qfloor q + 1.
Proof.
  unfold rne. destruct (Qcompare _ _); [destruct (Z.even _) | |]; lia.
Qed.

Lemma rne_mono (q q' : Q) : (q <= q')%Q -> rne q <= rne q'.
Proof.
  intro H. pose proof (Qfloor_resp_le _ _ H) as Hf.
  destruct (Z.eq_dec (Qfloor q) (Qfloor q')) as [E | N].
  - unfold rne. rewrite <- E. set (f := Qfloor q).
    assert (Hr : (q - inject_Z f <= q' - inject_Z f)%Q).
    { apply Qplus_le_l with (z := inject_Z f). ring_simplify. exact H. }
    destruct (Qcompare_spec (q - inject_Z f) (1 # 2)) as [A | A | A];
      destruct (Qcompare_spec (q' - inject_Z f) (1 # 2)) as [B | B | B];
      try destruct (Z.even f); try lia; exfalso; lra.
  - pose proof (rne_bounds q). pose proof (rne_bounds q'). lia.
Qed.

(** The scaled significand and the rounded value. *)

Lemma scaled_bounds (x : Q) :
  (0 < x)%Q ->
  (inject_Z (2 ^ 52) <= x / pow2 (ilog2 x - 52))%Q /\
  (x / pow2 (ilog2 x - 52) <= inject_Z (2 ^ 53))%Q.
Proof.
  intro Hx. destruct (ilog2_spec x Hx) as [G1 G2].
  set (e := ilog2 x) in *.
  assert (P : (0 < pow2 (e - 52))%Q) by apply pow2_pos.
  assert (E1 : (inject_Z (2 ^ 52) * pow2 (e - 52) == pow2 e)%Q).
  { rewrite <- pow2_inject by lia. unfold pow2.
    rewrite <- Qpower_plus by exact two_neq_0.
    replace (52 + (e - 52)) with e by lia. reflexivity. }
  assert (E2 : (inject_Z (2 ^ 53) * pow2 (e - 52) == pow2 (e + 1))%Q).
  { rewrite <- pow2_inject by lia. unfold pow2.
    rewrite <- Qpower_plus by exact two_neq_0.
    replace (53 + (e - 52)) with (e + 1) by lia. reflexivity. }
  split.
  - apply Qle_shift_div_l; [exact P |]. now rewrite E1.
  - apply Qle_shift_div_r; [exact P |]. rewrite E2. now apply Qlt_le_weak.
Qed.

Lemma round64pos_bounds (x : Q) :
  (0 < x)%Q ->
  (pow2 (ilog2 x) <= round64pos x)%Q /\ (round64pos x <= pow2 (ilog2 x + 1))%Q.
Proof.
  intro Hx. destruct (scaled_bounds x Hx) as [S1 S2].
  unfold round64pos. set (e := ilog2 x) in *.
  set (m := (x / pow2 (e - 52))%Q) in *.
  assert (P : (0 < pow2 (e - 52))%Q) by apply pow2_pos.
  assert (R1 : 2 ^ 52 <= rne m)
    by (rewrite <- (rne_int (2 ^ 52)); now apply rne_mono).
  assert (R2 : rne m <= 2 ^ 53)
    by (rewrite <- (rne_int (2 ^ 53)); now apply rne_mono).
  assert (E1 : (inject_Z (2 ^ 52) * pow2 (e - 52) == pow2 e)%Q).
  { rewrite <- pow2_inject by lia. unfold pow2.
    rewrite <- Qpower_plus by exact two_neq_0.
    replace (52 + (e - 52)) with e by lia. reflexivity. }
  assert (E2 : (inject_Z (2 ^ 53) * pow2 (e - 52) == pow2 (e + 1))%Q).
  { rewrite <- pow2_inject by lia. unfold pow2.
    rewrite <- Qpower_plus by exact two_neq_0.
    replace (53 + (e - 52)) with (e + 1) by lia. reflexivity. }
  split.
  - rewrite <- E1. apply Qmult_le_r; [exact P |]. now rewrite <- Zle_Qle.
  - rewrite <- E2. apply Qmult_le_r; [exact P |]. now rewrite <- Zle_Qle.
Qed.

Lemma round64pos_mono (x y : Q) :
  (0 < x)%Q -> (x <= y)%Q -> (round64pos x <= round64pos y)%Q.
Proof.
  intros Hx Hxy.
  assert (Hy : (0 < y)%Q) by exact (Qlt_le_trans _ _ _ Hx Hxy).
  pose proof (ilog2_mono x y Hx Hxy) as He.
  destruct (Z.eq_dec (ilog2 x) (ilog2 y)) as [E | N].
  - unfold round64pos. rewrite <- E.
    apply Qmult_le_r; [apply pow2_pos |]. rewrite <- Zle_Qle.
    apply rne_mono. unfold Qdiv. apply Qmult_le_r; [| exact Hxy].
    apply Qinv_lt_0_compat. apply pow2_pos.
  - destruct (round64pos_bounds x Hx) as [_ U].
    destruct (round64pos_bounds y Hy) as [L _].
    eapply Qle_trans; [exact U |]. eapply Qle_trans; [| exact L].
    apply pow2_le. lia.
Qed.

Lemma round64pos_comp (x y : Q) :
  (0 < x)%Q -> (x == y)%Q -> (round64pos x == round64pos y)%Q.
Proof.
  intros Hx E. unfold round64pos. rewrite <- (ilog2_comp x y Hx E).
  assert (R : rne (x / pow2 (ilog2 x - 52)) = rne (y / pow2 (ilog2 x - 52))).
  { apply rne_comp. apply Qdiv_comp; [exact E | reflexivity]. }
  rewrite R. reflexivity.
Qed.

Lemma round64pos_pos (x : Q) : (0 < x)%Q -> (0 < round64pos x)%Q.
Proof.
  intro Hx. destruct (round64pos_bounds x Hx) as [L _].
  eapply Qlt_le_trans; [apply pow2_pos | exact L].
Qed.

#[global] Instance round64_comp : Proper (Qeq ==> Qeq) round64.
Proof.
  intros x y E. unfold round64.
  rewrite <- (Qcompare_comp _ _ E _ _ (Qeq_refl 0)).
  destruct (Qcompare_spec x 0) as [A | A | A].
  - reflexivity.
  - apply Qopp_comp. apply round64pos_comp.
    + apply (Qplus_lt_l _ _ x). ring_simplify. exact A.
    + now rewrite E.
  - now apply round64pos_comp.
Qed.

Lemma round64_nonneg (x : Q) : (0 <= x)%Q -> (0 <= round64 x)%Q.
Proof.
  intro H. unfold round64. destruct (Qcompare_spec x 0) as [A | A | A].
  - apply Qle_refl.
  - exfalso. exact (Qle_not_lt _ _ H A).
  - apply Qlt_le_weak. now apply round64pos_pos.
Qed.

Lemma round64_mono (x y : Q) :
  (0 <= x)%Q -> (x <= y)%Q -> (round64 x <= round64 y)%Q.
Proof.
  intros Hx Hxy. unfold round64 at 1.
  destruct (Qcompare_spec x 0) as [A | A | A].
  - apply round64_nonneg. now rewrite <- A.
  - exfalso. exact (Qle_not_lt _ _ Hx A).
  - unfold round64. destruct (Qcompare_spec y 0) as [B | B | B].
    + exfalso. rewrite B in Hxy. exact (Qle_not_lt _ _ Hxy A).
    + exfalso. exact (Qle_not_lt _ _ Hxy (Qlt_trans _ _ _ B A)).
    + now apply round64pos_mono.
Qed.

Lemma round64_int (z : Z) :
  0 <= z < 2 ^ 53 -> (round64 (inject_Z z) == inject_Z z)%Q.
Proof.
  intros [H0 H1]. unfold round64.
  destruct (Qcompare_spec (inject_Z z) 0) as [A | A | A].
  - now rewrite A.
  - exfalso. change 0%Q with (inject_Z 0) in A. rewrite <- Zlt_Qlt in A. lia.
  - change 0%Q with (inject_Z 0) in A. rewrite <- Zlt_Qlt in A.
    destruct (Z.log2_spec z A) as [L1 L2].
    assert (L0 : 0 <= Z.log2 z) by apply Z.log2_nonneg.
    assert (L52 : Z.log2 z <= 52).
    { apply Z.lt_succ_r. apply (Z.pow_lt_mono_r_iff 2); lia. }
    assert (El : ilog2 (inject_Z z) = Z.log2 z).
    { apply ilog2_unique.
      - rewrite pow2_inject by lia. now rewrite <- Zle_Qle.
      - rewrite pow2_inject by lia. rewrite <- Zlt_Qlt.
        replace (Z.log2 z + 1) with (Z.succ (Z.log2 z)) by lia. exact L2. }
    unfold round64pos. rewrite El. set (e := Z.log2 z) in *.
    assert (Hp : (pow2 (52 - e) * pow2 (e - 52) == 1)%Q).
    { unfold pow2. rewrite <- Qpower_plus by exact two_neq_0.
      replace (52 - e + (e - 52)) with 0 by lia. reflexivity. }
    assert (Hb : ~ (pow2 (e - 52) == 0)%Q)
      by (apply Qpos_neq_0; apply pow2_pos).
    assert (Es : (inject_Z z / pow2 (e - 52) == inject_Z (z * 2 ^ (52 - e)))%Q).
    { rewrite inject_Z_mult, <- pow2_inject by lia.
      apply (Qmult_inj_r _ _ _ Hb).
      rewrite (Qmult_comm (inject_Z z / pow2 (e - 52))), Qmult_div_r by exact Hb.
      rewrite <- Qmult_assoc, Hp. ring. }
    rewrite (rne_comp _ _ Es), rne_int, inject_Z_mult, <- pow2_inject by lia.
    rewrite <- Qmult_assoc, Hp. ring.
Qed.

Lemma fl_this (x : Qc) : (this (fl x) == round64 x)%Q.
Proof. unfold fl, Q2Qc, this at 1. apply Qred_correct. Qed.

Lemma fl_nonneg (x : Qc) : (0 <= x)%Qc -> (0 <= fl x)%Qc.
Proof.
  intro H. unfold Qcle. rewrite fl_this. apply round64_nonneg. exact H.
Qed.

Lemma fl_mono (x y : Qc) : (0 <= x)%Qc -> (x <= y)%Qc -> (fl x <= fl y)%Qc.
Proof.
  intros Hx Hxy. unfold Qcle. rewrite !fl_this.
  apply round64_mono; [exact Hx | exact Hxy].
Qed.

(** An integer below [2^53] is a double. *)
Lemma fl_num (z : Z) : 0 <= z < 2 ^ 53 -> fl (num z) = num z.
Proof.
  intro Hz. apply Qc_is_canon.
  rewrite fl_this, (round64_comp _ _ (num_this z)), round64_int by exact Hz.
  symmetry. apply num_this.
Qed.

End Binary64.

(** ** Resource accrual *)

Section Accrual.

Lemma num_1000_neq : num 1000 <> 0%Qc.
Proof.
  intro H. pose proof num_1000_pos as Hp. rewrite H in Hp.
  exact (Qclt_not_eq _ _ Hp eq_refl).
Qed.

Lemma div_mult_1000 (x : Qc) : (x / num 1000 * num 1000)%Qc = x.
Proof. field. exact num_1000_neq. Qed.

Lemma deltaSeconds_nonpos (now : Z) (s : GameState) :
  (deltaSeconds now s <= num 0)%Qc <-> now <= lastUpdate s.
Proof.
  unfold deltaSeconds. rewrite num_0.
  pose proof num_1000_pos as Hk.
  split; intro H.
  - apply (Qcmult_le_compat_r _ _ (num 1000)) in H;
      [| now apply Qclt_le_weak].
    rewrite div_mult_1000, Qcmult_0_l, <- num_0 in H.
    apply (proj1 (num_le _ _)) in H. lia.
  - apply (Qcmult_lt_0_le_reg_r _ _ (num 1000)); [exact Hk |].
    rewrite div_mult_1000, Qcmult_0_l, <- num_0.
    apply (proj2 (num_le _ _)). lia.
Qed.

Lemma updateResources_noop (now : Z) (s : GameState) :
  now <= lastUpdate s -> updateResources now s = s.
Proof.
  intro H. unfold updateResources. fold (deltaSeconds now s).
  apply (proj2 (deltaSeconds_nonpos _ _)) in H.
  apply (proj2 (leb_iff _ _)) in H. now rewrite H.
Qed.

Lemma updateResources_step (now : Z) (s : GameState) :
  lastUpdate s < now ->
  updateResources now s =
  mkState (fold_left (accrue (deltaSeconds now s)) (buildings s) (resources s))
          (buildings s) (queue s) (troops s) (trainingQueue s)
          (raidQueue s) now.
Proof.
  intro H. unfold updateResources. fold (deltaSeconds now s).
  destruct (leb (deltaSeconds now s) (num 0)) eqn:E; [| reflexivity].
  apply (proj1 (leb_iff _ _)) in E.
  apply (proj1 (deltaSeconds_nonpos _ _)) in E. lia.
Qed.

(** One callback adds [baseRate * level * deltaSeconds] to the produced
    resource of a producing building and nothing elsewhere. *)
Lemma accrue_getRes (d : Qc) (r : Resources) (b : Building) (res : Resource) :
  getRes (accrue d r b) res =
  (getRes r res + (if produces b res then getProduction b else 0) * d)%Qc.
Proof.
  unfold accrue, produces, getProduction, ltb, leb.
  destruct (resource (definition (type b))) as [r0 |]; [| ring].
  destruct (Qle_bool (baseRate (definition (type b))) (num 0)); simpl.
  - rewrite andb_false_r. ring.
  - rewrite andb_true_r, getRes_setRes.
    destruct r0, res; simpl; ring.
Qed.

Lemma accrue_all_getRes (d : Qc) (bs : list Building) (r : Resources)
  (res : Resource) :
  getRes (fold_left (accrue d) bs r) res =
  (getRes r res + productionRate res bs * d)%Qc.
Proof.
  revert r. induction bs as [| b bs IH]; intro r; simpl.
  - ring.
  - rewrite IH, accrue_getRes. ring.
Qed.

Lemma accrue_twice (d1 d2 : Qc) (bs : list Building) (r : Resources) :
  fold_left (accrue d2) bs (fold_left (accrue d1) bs r) =
  fold_left (accrue (d1 + d2)) bs r.
Proof.
  apply Resources_ext. intro res. rewrite !accrue_all_getRes. ring.
Qed.

Lemma deltaSeconds_split (l t now : Z) :
  (num (t - l) / num 1000 + num (now - t) / num 1000)%Qc =
  (num (now - l) / num 1000)%Qc.
Proof.
  rewrite !num_minus. field. exact num_1000_neq.
Qed.

(** An intermediate tick at or before [now] does not change what the
    tick at [now] leaves. *)
Lemma updateResources_absorb (t now : Z) (s : GameState) :
  t <= now -> updateResources now (updateResources t s) = updateResources now s.
Proof.
  intro Hle.
  destruct (Z_le_gt_dec t (lastUpdate s)) as [H1 | H1].
  - now rewrite (updateResources_noop t s H1).
  - rewrite (updateResources_step t s) by lia.
    destruct (Z.eq_dec t now) as [-> | Hne].
    + rewrite <- (updateResources_step now s) by lia.
      apply updateResources_noop.
      rewrite (updateResources_step now s) by lia. simpl. lia.
    + rewrite updateResources_step by (simpl; lia).
      rewrite (updateResources_step now s) by lia.
      unfold deltaSeconds at 1. simpl.
      rewrite accrue_twice. unfold deltaSeconds.
      now rewrite deltaSeconds_split.
Qed.

Lemma runTicks_absorb (ticks : list Z) (now : Z) (s : GameState) :
  Forall (fun t => t <= now) ticks ->
  updateResources now (runTicks ticks s) = updateResources now s.
Proof.
  unfold runTicks. revert s.
  induction ticks as [| t ticks IH]; intros s H; simpl; [reflexivity |].
  inversion H as [| ? ? Ht Hrest]; subst.
  rewrite IH by assumption. now apply updateResources_absorb.
Qed.

End Accrual.

Section AccrualSpec.

Lemma deltaSeconds_pos (now : Z) (s : GameState) :
  (num 0 < deltaSeconds now s)%Qc <-> lastUpdate s < now.
Proof.
  split; intro H.
  - destruct (Z_lt_le_dec (lastUpdate s) now) as [Hlt | Hle]; [exact Hlt |].
    apply (proj2 (deltaSeconds_nonpos _ _)) in Hle.
    exfalso. exact (Qcle_not_lt _ _ Hle H).
  - apply Qcnot_le_lt. intro Hle.
    apply (proj1 (deltaSeconds_nonpos _ _)) in Hle. lia.
Qed.

(** C1.  [updateResources] at clock reading [now]:
    - when [(now - lastUpdate) / 1000 <= 0] the whole state, [lastUpdate]
      included, is left as it is;
    - otherwise [lastUpdate] becomes [now], every resource grows by
      exactly [deltaSeconds] times the sum of [baseRate * level] over the
      building instances that produce it with a positive base rate
      (the others, such as barracks, add nothing), and no other field
      changes;
    - further calls in between, at whatever readings up to [now], change
      neither the state the call at [now] leaves nor, therefore, the
      amount accrued over the whole interval. *)
Theorem updateResources_accrual (s : GameState) (now : Z) :
  ((deltaSeconds now s <= num 0)%Qc -> updateResources now s = s) /\
  ((num 0 < deltaSeconds now s)%Qc ->
     lastUpdate (updateResources now s) = now /\
     (forall res,
         getRes (resources (updateResources now s)) res =
         (getRes (resources s) res +
          productionRate res (buildings s) * deltaSeconds now s)%Qc) /\
     buildings (updateResources now s) = buildings s /\
     queue (updateResources now s) = queue s /\
     troops (updateResources now s) = troops s /\
     trainingQueue (updateResources now s) = trainingQueue s /\
     raidQueue (updateResources now s) = raidQueue s) /\
  (forall ticks,
      Forall (fun t => t <= now) ticks ->
      updateResources now (runTicks ticks s) = updateResources now s) /\
  (forall ticks res,
      Forall (fun t => t <= now) ticks ->
      (num 0 < deltaSeconds now s)%Qc ->
      getRes (resources (updateResources now (runTicks ticks s))) res =
      (getRes (resources s) res +
       productionRate res (buildings s) * deltaSeconds now s)%Qc).
Proof.
  assert (Hstep : (num 0 < deltaSeconds now s)%Qc ->
            forall res,
              getRes (resources (updateResources now s)) res =
              (getRes (resources s) res +
               productionRate res (buildings s) * deltaSeconds now s)%Qc).
  { intros Hpos res. apply (proj1 (deltaSeconds_pos _ _)) in Hpos.
    rewrite (updateResources_step now s Hpos). simpl.
    apply accrue_all_getRes. }
  repeat split.
  - intro H. apply updateResources_noop.
    now apply (proj1 (deltaSeconds_nonpos _ _)).
  - apply (proj1 (deltaSeconds_pos _ _)) in H.
    now rewrite (updateResources_step now s H).
  - now apply Hstep.
  - apply (proj1 (deltaSeconds_pos _ _)) in H.
    now rewrite (updateResources_step now s H).
  - apply (proj1 (deltaSeconds_pos _ _)) in H.
    now rewrite (updateResources_step now s H).
  - apply (proj1 (deltaSeconds_pos _ _)) in H.
    now rewrite (updateResources_step now s H).
  - apply (proj1 (deltaSeconds_pos _ _)) in H.
    now rewrite (updateResources_step now s H).
  - apply (proj1 (deltaSeconds_pos _ _)) in H.
    now rewrite (updateResources_step now s H).
  - intros ticks H. now apply runTicks_absorb.
  - intros ticks res H Hpos.
    rewrite (runTicks_absorb ticks now s H). now apply Hstep.
Qed.

End AccrualSpec.

(** Closed goals on numbers, decided by evaluation. *)
Ltac qc_eval := apply Qc_is_canon; vm_compute; reflexivity.
Ltac qc_le_eval := apply (proj1 (leb_iff _ _)); vm_compute; reflexivity.
Ltac qc_lt_eval := apply (proj1 (leb_false_iff _ _)); vm_compute; reflexivity.

(** C1 at [village]: a tick at the reading of the last update changes
    nothing; after 100000 seconds, split into four ticks, the woodcutter of
    level 2 has added 1 * 2 * 100000 wood. *)
Lemma updateResources_accrual_witness :
  updateResources 0 village = village /\
  getRes (resources
            (updateResources 100000000
               (runTicks [1000; 2500; 99999000] village))) wood =
  num 200050.
Proof.
  destruct (updateResources_accrual village 0) as [Hnoop _].
  destruct (updateResources_accrual village 100000000) as [_ [_ [_ Hsplit]]].
  split.
  - apply Hnoop. qc_le_eval.
  - rewrite Hsplit.
    + qc_eval.
    + repeat constructor; lia.
    + qc_lt_eval.
Defined.

(** ** Economy calculator *)

Section Economy.

Lemma this_mult (x y : Qc) : (this (x * y)%Qc == this x * this y)%Q.
Proof. unfold Qcmult, Q2Qc, this at 1. apply Qred_correct. Qed.

Lemma this_COST_MULTIPLIER : (this COST_MULTIPLIER == 3 # 2)%Q.
Proof. reflexivity. Qed.

Lemma Qpower_succ (a : Q) (n : nat) :
  (a ^ Z.of_nat (S n) == a * a ^ Z.of_nat n)%Q.
Proof.
  rewrite Nat2Z.inj_succ. unfold Z.succ.
  rewrite Z.add_comm, Qpower_plus' by lia.
  now rewrite Qpower_1_r.
Qed.

Lemma this_pow (q : Qc) (n : nat) :
  (this (Math_pow q n) == this q ^ Z.of_nat n)%Q.
Proof.
  unfold Math_pow. induction n as [| n IH].
  - reflexivity.
  - rewrite Qpower_succ. cbn [Qcpower]. now rewrite this_mult, IH.
Qed.

(** The cost entry the code computes is the formula of the
    specification. *)
Lemma cost_entry (base : Z) (L : positive) :
  Math_ceil (num base * Math_pow COST_MULTIPLIER (Pos.to_nat L - 1))%Qc =
  costAtLevel base L.
Proof.
  unfold Math_ceil, costAtLevel. apply Qceiling_comp.
  rewrite this_mult, num_this, this_pow, this_COST_MULTIPLIER.
  replace (Z.of_nat (Pos.to_nat L - 1)) with (Zpos L - 1) by lia.
  reflexivity.
Qed.

Lemma lookupType_keyString (k : BuildingKey) :
  lookupType BUILDING_TYPES (keyString k) = Some (definition k).
Proof. now destruct k. Qed.

Lemma costOfDef_formula (def : BuildingDef) (L : positive) :
  costOfDef def L =
  map (fun '(res, base) => (res, costAtLevel base L)) (baseCost def).
Proof.
  unfold costOfDef. apply map_ext. intros [res base]. now rewrite cost_entry.
Qed.

Lemma costAtLevel_1 (base : Z) : costAtLevel base 1 = base.
Proof.
  unfold costAtLevel. rewrite <- (Qceiling_Z base) at 2.
  apply Qceiling_comp. simpl. ring.
Qed.





(** The recurrence is not exact: the food cost of a woodcutter is 23 at
    level 3 and 34 at level 4, while [ceil(23 * 1.5)] is 35. *)
Example recurrence_rounds :
  calculateCost "woodcutter" 3 = Ok [(wood, 0); (stone, 45); (food, 23)] /\
  calculateCost "woodcutter" 4 = Ok [(wood, 0); (stone, 68); (food, 34)] /\
  nextCostFrom 23 = 35.
Proof. repeat split; vm_compute; reflexivity. Qed.

End Economy.

(** ** Reconciling the three queues *)

Section Reconcile.

Lemma checkQueue_idle (now : Z) (s : GameState) :
  queue s = None -> checkQueue now s = Ok s.
Proof. intro H. unfold checkQueue. now rewrite H. Qed.

Lemma checkTrainingQueue_idle (now : Z) (s : GameState) :
  trainingQueue s = None -> checkTrainingQueue now s = s.
Proof. intro H. unfold checkTrainingQueue. now rewrite H. Qed.

Lemma checkRaidQueue_idle (now : Z) (s : GameState) :
  raidQueue s = None -> checkRaidQueue now s = s.
Proof. intro H. unfold checkRaidQueue. now rewrite H. Qed.

(** Whatever [checkQueue] returns, checking again at the same reading
    returns the same. *)
Lemma checkQueue_stable (now : Z) (s s' : GameState) :
  checkQueue now s = Ok s' -> checkQueue now s' = Ok s'.
Proof.
  unfold checkQueue at 1.
  destruct (queue s) as [job |] eqn:Eq.
  - destruct (Construction.endTime job <=? now) eqn:Edue.
    + destruct (Construction.targetIndex job) as [i |].
      * destruct (buildingAt (buildings s) i); intro H; inversion H.
        now apply checkQueue_idle.
      * intro H; inversion H. now apply checkQueue_idle.
    + intro H; inversion H; subst s'.
      unfold checkQueue. now rewrite Eq, Edue.
  - intro H; inversion H; subst s'. now apply checkQueue_idle.
Qed.

Lemma checkQueue_twice (now : Z) (s : GameState) :
  (s1 <- checkQueue now s ;; checkQueue now s1) = checkQueue now s.
Proof.
  destruct (checkQueue now s) as [s' |] eqn:E; simpl; [| reflexivity].
  exact (checkQueue_stable now s s' E).
Qed.

Lemma checkTrainingQueue_twice (now : Z) (s : GameState) :
  checkTrainingQueue now (checkTrainingQueue now s) = checkTrainingQueue now s.
Proof.
  unfold checkTrainingQueue at 2 3.
  destruct (trainingQueue s) as [job |] eqn:Eq.
  - destruct (leb (Training.endTime job) (num now)) eqn:Edue.
    + now apply checkTrainingQueue_idle.
    + unfold checkTrainingQueue. now rewrite Eq, Edue.
  - now apply checkTrainingQueue_idle.
Qed.

Lemma checkRaidQueue_twice (now : Z) (s : GameState) :
  checkRaidQueue now (checkRaidQueue now s) = checkRaidQueue now s.
Proof.
  unfold checkRaidQueue at 2 3.
  destruct (raidQueue s) as [job |] eqn:Eq.
  - destruct (Raid.endTime job <=? now) eqn:Edue.
    + now apply checkRaidQueue_idle.
    + unfold checkRaidQueue. now rewrite Eq, Edue.
  - now apply checkRaidQueue_idle.
Qed.

Lemma checkQueue_due_clears (now : Z) (s s' : GameState)
  (job : Construction.Job) :
  queue s = Some job -> Construction.endTime job <= now ->
  checkQueue now s = Ok s' -> queue s' = None.
Proof.
  intros Hq Hdue. unfold checkQueue. rewrite Hq.
  apply Z.leb_le in Hdue. rewrite Hdue.
  destruct (Construction.targetIndex job) as [i |].
  - destruct (buildingAt (buildings s) i); intro H; now inversion H.
  - intro H; now inversion H.
Qed.

Lemma checkTrainingQueue_due_clears (now : Z) (s : GameState)
  (job : Training.Job) :
  trainingQueue s = Some job -> (Training.endTime job <= num now)%Qc ->
  trainingQueue (checkTrainingQueue now s) = None.
Proof.
  intros Hq Hdue. unfold checkTrainingQueue. rewrite Hq.
  apply (proj2 (leb_iff _ _)) in Hdue. now rewrite Hdue.
Qed.

Lemma checkRaidQueue_due_clears (now : Z) (s : GameState) (job : Raid.Job) :
  raidQueue s = Some job -> Raid.endTime job <= now ->
  raidQueue (checkRaidQueue now s) = None.
Proof.
  intros Hq Hdue. unfold checkRaidQueue. rewrite Hq.
  apply Z.leb_le in Hdue. now rewrite Hdue.
Qed.

(** C3.  Each of [checkQueue], [checkTrainingQueue] and [checkRaidQueue],
    run twice in sequence at the same reading, leaves the state (or the
    exception) that one run leaves.  In particular a due job is applied
    once: the run that applies it clears the slot, and a run on a cleared
    slot returns the state as it is. *)
Theorem reconcile_idempotent (s : GameState) (now : Z) :
  ((s1 <- checkQueue now s ;; checkQueue now s1) = checkQueue now s /\
   checkTrainingQueue now (checkTrainingQueue now s) =
     checkTrainingQueue now s /\
   checkRaidQueue now (checkRaidQueue now s) = checkRaidQueue now s) /\
  (forall job s',
      queue s = Some job -> Construction.endTime job <= now ->
      checkQueue now s = Ok s' ->
      queue s' = None /\ checkQueue now s' = Ok s') /\
  (forall job,
      trainingQueue s = Some job -> (Training.endTime job <= num now)%Qc ->
      trainingQueue (checkTrainingQueue now s) = None /\
      troops (checkTrainingQueue now (checkTrainingQueue now s)) =
        troops s + 1) /\
  (forall job,
      raidQueue s = Some job -> Raid.endTime job <= now ->
      raidQueue (checkRaidQueue now s) = None /\
      resources (checkRaidQueue now (checkRaidQueue now s)) =
        addTo (resources s) (Raid.reward job)).
Proof.
  split; [| split; [| split]].
  - split; [apply checkQueue_twice |].
    split; [apply checkTrainingQueue_twice | apply checkRaidQueue_twice].
  - intros job s' Hq Hdue H. split.
    + exact (checkQueue_due_clears now s s' job Hq Hdue H).
    + exact (checkQueue_stable now s s' H).
  - intros job Hq Hdue. split.
    + exact (checkTrainingQueue_due_clears now s job Hq Hdue).
    + rewrite checkTrainingQueue_twice. unfold checkTrainingQueue.
      rewrite Hq. apply (proj2 (leb_iff _ _)) in Hdue. now rewrite Hdue.
  - intros job Hq Hdue. split.
    + exact (checkRaidQueue_due_clears now s job Hq Hdue).
    + rewrite checkRaidQueue_twice. unfold checkRaidQueue.
      rewrite Hq. apply Z.leb_le in Hdue. now rewrite Hdue.
Qed.

End Reconcile.

(** C3 at [busyVillage], reading 30000, where all three jobs are due. *)
Lemma reconcile_idempotent_witness :
  (queue builtVillage = None /\
   checkQueue 30000 builtVillage = Ok builtVillage) /\
  (trainingQueue (checkTrainingQueue 30000 busyVillage) = None /\
   troops (checkTrainingQueue 30000 (checkTrainingQueue 30000 busyVillage)) =
     troops busyVillage + 1) /\
  (raidQueue (checkRaidQueue 30000 busyVillage) = None /\
   resources (checkRaidQueue 30000 (checkRaidQueue 30000 busyVillage)) =
     addTo (resources busyVillage) [(wood, 25); (stone, 30); (food, 12)]).
Proof.
  destruct (reconcile_idempotent busyVillage 30000) as [_ [Hc [Ht Hr]]].
  split; [| split].
  - apply (Hc (Construction.mkJob woodcutter None 1 0 5000) builtVillage).
    + reflexivity.
    + simpl. lia.
    + reflexivity.
  - apply (Ht (Training.mkJob 0 (num 5000))).
    + reflexivity.
    + qc_le_eval.
  - apply (Hr (Raid.mkJob 0 30000 [(wood, 25); (stone, 30); (food, 12)])).
    + reflexivity.
    + simpl. lia.
Defined.

(** ** Construction *)

Section ConstructionQueue.

Lemma setLevelNat_length (bs : list Building) (n : nat) (lvl : positive) :
  List.length (setLevelNat bs n lvl) = List.length bs.
Proof.
  revert n. induction bs as [| b bs IH]; intros [| n]; simpl; auto.
Qed.

Lemma setLevelNat_same (bs : list Building) (n : nat) (lvl : positive)
  (b : Building) :
  nth_error bs n = Some b ->
  nth_error (setLevelNat bs n lvl) n = Some (mkBuilding (type b) lvl).
Proof.
  revert n. induction bs as [| b0 bs IH]; intros [| n]; simpl;
    try discriminate.
  - intro H. now inversion H.
  - apply IH.
Qed.

Lemma setLevelNat_other (bs : list Building) (n m : nat) (lvl : positive) :
  n <> m -> nth_error (setLevelNat bs n lvl) m = nth_error bs m.
Proof.
  revert n m. induction bs as [| b0 bs IH]; intros [| n] [| m] H; simpl;
    try reflexivity.
  - congruence.
  - apply IH. congruence.
Qed.

Lemma calculateCost_woodcutter_1 :
  calculateCost "woodcutter" 1 = Ok [(wood, 0); (stone, 20); (food, 10)].
Proof. vm_compute. reflexivity. Qed.

Lemma calculateTime_woodcutter_1 :
  calculateTime "woodcutter" 1 = Ok (Finite 5000).
Proof. vm_compute. reflexivity. Qed.

Lemma buildNew_woodcutter_default (scriptStart now1 now2 : Z) :
  buildNew "woodcutter" now1 now2 (DEFAULT_STATE scriptStart) =
  Ok (mkState (mkResources (num 50) (num 30) (num 40)) []
              (Some (Construction.mkJob woodcutter None 1 now1 (now2 + 5000)))
              0 None None scriptStart).
Proof.
  unfold buildNew. cbn [queue DEFAULT_STATE].
  rewrite calculateCost_woodcutter_1. cbn [bind].
  replace (hasResources [(wood, 0); (stone, 20); (food, 10)]
             (DEFAULT_STATE scriptStart)) with true
    by (vm_compute; reflexivity).
  cbn [negb]. rewrite calculateTime_woodcutter_1. cbn [bind].
  replace (lookupType BUILDING_TYPES "woodcutter")
    with (Some (definition woodcutter)) by (vm_compute; reflexivity).
  cbn [bind]. unfold withQueue, deductResources, withResources.
  cbn [resources buildings queue troops trainingQueue raidQueue lastUpdate
       DEFAULT_STATE key definition].
  assert (E : deductFrom (mkResources (num 50) (num 50) (num 50))
                         [(wood, 0); (stone, 20); (food, 10)] =
              mkResources (num 50) (num 30) (num 40))
    by (apply Resources_ext; intros []; qc_eval).
  now rewrite E.
Qed.

End ConstructionQueue.

Section ConstructionSpec.

Lemma buildingAt_Some_nonneg (bs : list Building) (i : Z) (b : Building) :
  buildingAt bs i = Some b -> 0 <= i /\ nth_error bs (Z.to_nat i) = Some b.
Proof.
  unfold buildingAt. destruct (i <? 0) eqn:E; [discriminate |].
  apply Z.ltb_ge in E. auto.
Qed.

Lemma checkQueue_upgrade (later : Z) (s : GameState)
  (job : Construction.Job) (index : Z) (b : Building) :
  queue s = Some job -> Construction.targetIndex job = Some index ->
  buildingAt (buildings s) index = Some b ->
  Construction.endTime job <= later ->
  checkQueue later s =
  Ok (mkState (resources s)
              (setLevelNat (buildings s) (Z.to_nat index)
                           (Construction.level job))
              None (troops s) (trainingQueue s) (raidQueue s) (lastUpdate s)).
Proof.
  intros Hq Hi Hb Hdue. unfold checkQueue. rewrite Hq, Hi, Hb.
  apply Z.leb_le in Hdue. now rewrite Hdue.
Qed.

(** C4.  In the default state [buildNew('woodcutter')] costs
    [{wood: 0, stone: 20, food: 10}], leaves the resources
    [{wood: 50, stone: 30, food: 40}] and occupies the construction queue
    with a job that starts at the first clock reading of the call and ends
    5000 ms after the second: at [startTime + 5000] when the two readings
    coincide, not before [startTime + 5000] when the clock has not gone
    back between them.  [checkQueue] before [endTime] leaves the state as
    it is; at any reading from [endTime] on it makes the building list
    [[{type: 'woodcutter', level: 1}]] and clears the slot.  For an upgrade
    job (its target index is present and addresses a building) [checkQueue]
    from [endTime] on sets the level of that building to the level recorded
    in the job, leaves its type and all other buildings as they are, and
    clears the slot. *)
Theorem construction_scenario (scriptStart now1 now2 : Z) :
  calculateCost "woodcutter" 1 = Ok [(wood, 0); (stone, 20); (food, 10)] /\
  (exists s1 job,
      buildNew "woodcutter" now1 now2 (DEFAULT_STATE scriptStart) = Ok s1 /\
      resources s1 = mkResources (num 50) (num 30) (num 40) /\
      queue s1 = Some job /\
      Construction.startTime job = now1 /\
      Construction.endTime job = now2 + 5000 /\
      (now1 = now2 ->
       Construction.endTime job = Construction.startTime job + 5000) /\
      (now1 <= now2 ->
       Construction.startTime job + 5000 <= Construction.endTime job) /\
      (forall earlier,
          earlier < Construction.endTime job -> checkQueue earlier s1 = Ok s1) /\
      (forall later,
          Construction.endTime job <= later ->
          exists s2,
            checkQueue later s1 = Ok s2 /\
            buildings s2 = [mkBuilding woodcutter 1] /\
            queue s2 = None /\
            resources s2 = resources s1)) /\
  (forall s job index b later,
      queue s = Some job ->
      Construction.targetIndex job = Some index ->
      buildingAt (buildings s) index = Some b ->
      Construction.endTime job <= later ->
      exists s2,
        checkQueue later s = Ok s2 /\
        queue s2 = None /\
        buildingAt (buildings s2) index =
          Some (mkBuilding (type b) (Construction.level job)) /\
        (forall j, j <> index ->
                   buildingAt (buildings s2) j = buildingAt (buildings s) j) /\
        List.length (buildings s2) = List.length (buildings s) /\
        resources s2 = resources s /\ troops s2 = troops s /\
        trainingQueue s2 = trainingQueue s /\ raidQueue s2 = raidQueue s /\
        lastUpdate s2 = lastUpdate s).
Proof.
  split; [exact calculateCost_woodcutter_1 | split].
  - eexists. eexists.
    split; [apply buildNew_woodcutter_default |].
    cbn [resources queue Construction.startTime Construction.endTime].
    do 4 (split; [reflexivity |]).
    split; [| split; [| split]].
    + intros ->. reflexivity.
    + intro Hle. cbn [Construction.startTime Construction.endTime]. lia.
    + intros earlier Hearly. cbn [Construction.endTime] in Hearly.
      unfold checkQueue.
      cbn [queue Construction.endTime].
      destruct (now2 + 5000 <=? earlier) eqn:E; [| reflexivity].
      apply Z.leb_le in E. lia.
    + intros later Hdue. cbn [Construction.endTime] in Hdue.
      apply Z.leb_le in Hdue. eexists. split.
      * unfold checkQueue.
        cbn [queue Construction.endTime Construction.targetIndex].
        rewrite Hdue. reflexivity.
      * repeat split.
  - intros s job index b later Hq Hi Hb Hdue.
    eexists. split; [exact (checkQueue_upgrade later s job index b Hq Hi Hb Hdue) |].
    destruct (buildingAt_Some_nonneg _ _ _ Hb) as [Hnn Hnth].
    cbn [resources buildings queue troops trainingQueue raidQueue lastUpdate].
    repeat split.
    + unfold buildingAt. destruct (index <? 0) eqn:E;
        [apply Z.ltb_lt in E; lia |].
      now apply setLevelNat_same.
    + intros j Hj. unfold buildingAt.
      destruct (j <? 0) eqn:E; [reflexivity |].
      apply Z.ltb_ge in E. apply setLevelNat_other. lia.
    + apply setLevelNat_length.
Qed.

(** C4 with the call read at 100 and 103: the job starts at 100 and ends at
    5103, three milliseconds after [startTime + 5000]; the check at 5102
    changes nothing and the check at 5103 completes the woodcutter.  And at
    [upgradingVillage], whose woodcutter reaches level 3 at 8000. *)
Lemma construction_scenario_witness :
  (exists s1 s2 job,
      buildNew "woodcutter" 100 103 (DEFAULT_STATE 0) = Ok s1 /\
      queue s1 = Some job /\
      Construction.startTime job = 100 /\
      Construction.endTime job = 5103 /\
      checkQueue 5102 s1 = Ok s1 /\
      checkQueue 5103 s1 = Ok s2 /\
      buildings s2 = [mkBuilding woodcutter 1] /\ queue s2 = None) /\
  (exists s2,
      checkQueue 8000 upgradingVillage = Ok s2 /\
      buildingAt (buildings s2) 0 = Some (mkBuilding woodcutter 3)).
Proof.
  destruct (construction_scenario 0 100 103)
    as [_ [[s1 [job [Hb [_ [Hj [Hs [He [_ [Hlate [Hearly Hcheck]]]]]]]]]] Hup]].
  split.
  - pose proof (Hlate ltac:(lia)) as Hend.
    destruct (Hcheck 5103) as [s2 [H2 [Hbs [Hq _]]]].
    { rewrite He. lia. }
    exists s1, s2, job.
    split; [exact Hb |]. split; [exact Hj |]. split; [exact Hs |].
    split; [rewrite He; reflexivity |].
    split; [apply Hearly; rewrite He; lia |]. auto.
  - destruct (Hup upgradingVillage
                  (Construction.mkJob woodcutter (Some 0) 3 0 8000)
                  0 (mkBuilding woodcutter 2) 8000)
      as [s2 [H2 [_ [Hb2 _]]]].
    + reflexivity.
    + reflexivity.
    + reflexivity.
    + simpl. lia.
    + exists s2. auto.
Defined.

(** The two clock readings of one call can differ: read at 100 and 103
    the job starts at 100 and ends at 5103, not at [startTime + 5000]. *)
Lemma construction_end_drifts :
  (exists s1 job,
      buildNew "woodcutter" 100 103 (DEFAULT_STATE 0) = Ok s1 /\
      queue s1 = Some job /\
      Construction.startTime job = 100 /\
      Construction.endTime job = 5103) /\
  ~ (forall now1 now2 s1 job,
        buildNew "woodcutter" now1 now2 (DEFAULT_STATE 0) = Ok s1 ->
        queue s1 = Some job ->
        Construction.endTime job = Construction.startTime job + 5000).
Proof.
  pose proof (buildNew_woodcutter_default 0 100 103) as E.
  split.
  - eexists. eexists. split; [exact E |]. repeat split.
  - intro H. specialize (H 100 103 _ _ E eq_refl). discriminate H.
Qed.

End ConstructionSpec.

(** ** Troop training *)

Section TrainingDuration.

Lemma sum_levels_from (bs : list Building) (acc : Z) :
  fold_left (fun sum b => sum + Zpos (level b))
            (filter (fun b => BuildingKey_eqb (type b) barracks) bs) acc =
  acc + totalBarracksLevel bs.
Proof.
  revert acc. induction bs as [| b bs IH]; intro acc; simpl.
  - lia.
  - cbn [filter totalBarracksLevel].
    destruct (type b); cbn [BuildingKey_eqb fold_left]; rewrite IH; lia.
Qed.

Lemma getTotalBarracksLevel_sum (s : GameState) :
  getTotalBarracksLevel s = totalBarracksLevel (buildings s).
Proof. unfold getTotalBarracksLevel. now rewrite sum_levels_from. Qed.

Lemma calculateTrainingDuration_max (s : GameState) :
  calculateTrainingDuration s =
  Math_max (num 1000) (scaledTrainTime (totalBarracksLevel (buildings s))).
Proof.
  unfold calculateTrainingDuration, scaledTrainTime, BASE_TRAIN_TIME.
  rewrite getTotalBarracksLevel_sum, num_1.
  replace (Q2Qc (5 # 10)) with (Q2Qc (1 # 2)) by qc_eval.
  reflexivity.
Qed.

Lemma Math_max_spec (x y : Qc) :
  (x <= Math_max x y)%Qc /\ (y <= Math_max x y)%Qc /\
  (Math_max x y = x \/ Math_max x y = y).
Proof.
  unfold Math_max. destruct (leb x y) eqn:E.
  - apply (proj1 (leb_iff _ _)) in E.
    split; [exact E | split; [apply Qcle_refl | now right]].
  - apply (proj1 (leb_false_iff _ _)) in E.
    split; [apply Qcle_refl | split; [now apply Qclt_le_weak | now left]].
Qed.

(** C6.  The total the code folds over the filtered building list is the
    sum of the levels of the barracks instances, and the training duration
    is the larger of 1000 and [5000 / (1 + 0.5 * total)]: it is at least
    both and equal to one of them.  With no barracks level it is 5000 ms,
    with a total of 2 it is 2500 ms. *)
Theorem calculateTrainingDuration_formula (s : GameState) :
  let total := totalBarracksLevel (buildings s) in
  getTotalBarracksLevel s = total /\
  (num 1000 <= calculateTrainingDuration s)%Qc /\
  (scaledTrainTime total <= calculateTrainingDuration s)%Qc /\
  (calculateTrainingDuration s = num 1000 \/
   calculateTrainingDuration s = scaledTrainTime total) /\
  (total = 0 -> calculateTrainingDuration s = num 5000) /\
  (total = 2 -> calculateTrainingDuration s = num 2500).
Proof.
  intro total. subst total.
  rewrite calculateTrainingDuration_max.
  destruct (Math_max_spec (num 1000)
              (scaledTrainTime (totalBarracksLevel (buildings s))))
    as [H1 [H2 H3]].
  split; [apply getTotalBarracksLevel_sum |].
  split; [exact H1 |]. split; [exact H2 |]. split; [exact H3 |].
  split; intros ->; qc_eval.
Qed.

(** C6 at the default state (no building) and at a single barracks of
    level 2. *)
Lemma calculateTrainingDuration_formula_witness :
  calculateTrainingDuration (DEFAULT_STATE 0) = num 5000 /\
  calculateTrainingDuration
    (mkState (resources village) [mkBuilding barracks 2] None 0 None None 0) =
  num 2500.
Proof.
  split.
  - apply (calculateTrainingDuration_formula (DEFAULT_STATE 0)).
    reflexivity.
  - apply (calculateTrainingDuration_formula
             (mkState (resources village) [mkBuilding barracks 2]
                      None 0 None None 0)).
    reflexivity.
Defined.

End TrainingDuration.

(** ** Raids *)

Section RaidLaunch.

Lemma this_plus (x y : Qc) : (this (x + y)%Qc == this x + this y)%Q.
Proof. unfold Qcplus, Q2Qc, this at 1. apply Qred_correct. Qed.

Lemma sampleInRange_bounds (min max : Z) (r : Qc) :
  min <= max -> (0 <= r)%Qc -> (r < 1)%Qc ->
  min <= sampleInRange min max r <= max.
Proof.
  intros Hmm H0 H1. unfold sampleInRange.
  set (k := max - min + 1).
  assert (Hk : (0 < inject_Z k)%Q).
  { change 0%Q with (inject_Z 0). rewrite <- Zlt_Qlt. subst k. lia. }
  assert (Hr0 : (0 <= this r)%Q) by exact H0.
  assert (Hr1 : (this r < 1)%Q) by exact H1.
  split.
  - rewrite <- (Qfloor_Z min) at 1. apply Qfloor_resp_le.
    rewrite <- (Qplus_0_r (inject_Z min)) at 1.
    apply Qplus_le_r. apply Qmult_le_0_compat; [exact Hr0 |].
    now apply Qlt_le_weak.
  - assert (Hlt : (inject_Z min + this r * inject_Z k < inject_Z (max + 1))%Q).
    { replace (max + 1) with (min + k) by (subst k; lia).
      rewrite inject_Z_plus. apply Qplus_lt_r.
      rewrite <- (Qmult_1_l (inject_Z k)) at 2.
      apply Qmult_lt_compat_r; assumption. }
    pose proof (Qfloor_le (inject_Z min + this r * inject_Z k)) as Hf.
    pose proof (Qle_lt_trans _ _ _ Hf Hlt) as Hz.
    rewrite <- Zlt_Qlt in Hz. lia.
Qed.

(** Rounding to binary64 does not cross an integer below [2^53]. *)
Lemma fl_lower (z : Z) (x : Qc) :
  0 <= z < 2 ^ 53 -> (num z <= x)%Qc -> (num z <= fl x)%Qc.
Proof.
  intros Hz H. rewrite <- (fl_num z Hz) at 1.
  apply fl_mono; [| exact H]. rewrite <- num_0. apply (proj2 (num_le _ _)). lia.
Qed.

Lemma fl_upper (z : Z) (x : Qc) :
  0 <= z < 2 ^ 53 -> (0 <= x)%Qc -> (x <= num z)%Qc -> (fl x <= num z)%Qc.
Proof.
  intros Hz H0 H. rewrite <- (fl_num z Hz). now apply fl_mono.
Qed.

Lemma Math_floor_lower (z : Z) (x : Qc) : (num z <= x)%Qc -> z <= Math_floor x.
Proof.
  intro H. unfold Math_floor. rewrite <- (Qfloor_Z z). apply Qfloor_resp_le.
  unfold Qcle in H. now rewrite num_this in H.
Qed.

Lemma Math_floor_upper (z : Z) (x : Qc) : (x <= num z)%Qc -> Math_floor x <= z.
Proof.
  intro H. unfold Math_floor. rewrite <- (Qfloor_Z z). apply Qfloor_resp_le.
  unfold Qcle in H. now rewrite num_this in H.
Qed.

(** The rolled amount the code stores is the sample of the specification
    or the integer above it: the two roundings can lift the sum onto the
    next integer, and never take it below one it has reached. *)
Lemma roll_entry (min max : Z) (r : Qc) :
  0 <= min <= max -> max < 2 ^ 52 -> (0 <= r)%Qc -> (r < 1)%Qc ->
  sampleInRange min max r <=
  Math_floor (fl (num min + fl (r * num (max - min + 1)))%Qc) <=
  sampleInRange min max r + 1.
Proof.
  intros Hmin Hmax H0 H1.
  pose proof (sampleInRange_bounds min max r (proj2 Hmin) H0 H1) as Hs.
  set (s := sampleInRange min max r) in *.
  set (k := max - min + 1).
  assert (P52 : 2 ^ 52 < 2 ^ 53) by (apply Z.pow_lt_mono_r; lia).
  assert (Hk : (0 <= num k)%Qc).
  { rewrite <- num_0. apply (proj2 (num_le _ _)). subst k. lia. }
  assert (Hrk : (0 <= r * num k)%Qc).
  { unfold Qcle. rewrite this_mult. apply Qmult_le_0_compat; assumption. }
  assert (Hlo : (num (s - min) <= r * num k)%Qc).
  { unfold Qcle. rewrite this_mult, !num_this.
    assert (Hf : (inject_Z s <= inject_Z min + this r * inject_Z k)%Q)
      by apply Qfloor_le.
    unfold Zminus. rewrite inject_Z_plus, inject_Z_opp. lra. }
  assert (Hhi : (r * num k <= num (s + 1 - min))%Qc).
  { unfold Qcle. rewrite this_mult, !num_this.
    assert (Hf : (inject_Z min + this r * inject_Z k < inject_Z (s + 1))%Q)
      by apply Qlt_floor.
    unfold Zminus. rewrite !inject_Z_plus, inject_Z_opp in *. lra. }
  assert (Hflo : (num (s - min) <= fl (r * num k))%Qc)
    by (apply fl_lower; [lia | exact Hlo]).
  assert (Hfhi : (fl (r * num k) <= num (s + 1 - min))%Qc)
    by (apply fl_upper; [lia | exact Hrk | exact Hhi]).
  assert (Hmin0 : (0 <= num min)%Qc).
  { rewrite <- num_0. apply (proj2 (num_le _ _)). lia. }
  split.
  - apply Math_floor_lower. apply fl_lower; [lia |].
    replace s with (min + (s - min)) at 1 by lia. rewrite num_plus.
    apply Qcplus_le_compat; [apply Qcle_refl | exact Hflo].
  - apply Math_floor_upper. apply fl_upper; [lia | |].
    + apply Qc_nonneg_plus; [exact Hmin0 | now apply fl_nonneg].
    + replace (s + 1) with (min + (s + 1 - min)) by lia. rewrite num_plus.
      apply Qcplus_le_compat; [apply Qcle_refl | exact Hfhi].
Qed.

Lemma rollReward_spec (ranges : list (Resource * (Z * Z)))
  (random : nat -> Qc) (i : nat) :
  Forall rangeOrdered ranges ->
  (forall n, (0 <= random n)%Qc /\ (random n < 1)%Qc) ->
  Forall2 (fun '(res, v) '(res', (min, max)) =>
             res = res' /\ min <= v <= max + 1)
          (rollReward ranges random i) ranges.
Proof.
  intros Hr Hrand. revert i.
  induction Hr as [| [res [min max]] rest [Hmm Hmax] Hrest IH]; intro i; simpl.
  - constructor.
  - constructor; [| apply IH].
    split; [reflexivity |]. destruct (Hrand i) as [H0 H1].
    pose proof (roll_entry min max (random i) Hmm Hmax H0 H1) as He.
    pose proof (sampleInRange_bounds min max (random i) (proj2 Hmm) H0 H1).
    lia.
Qed.

Lemma RAID_REWARD_RANGES_ordered : Forall rangeOrdered RAID_REWARD_RANGES.
Proof.
  repeat (apply Forall_cons; [split; [lia | reflexivity] |]). apply Forall_nil.
Qed.

Lemma raid_launch (random : nat -> Qc) (now1 now2 : Z) (s : GameState) :
  RAID_COST_TROOPS <= troops s -> raidQueue s = None ->
  raid random now1 now2 s =
  mkState (resources s) (buildings s) (queue s)
          (troops s - RAID_COST_TROOPS) (trainingQueue s)
          (Some (Raid.mkJob now1 (now2 + RAID_TIME)
                            (rollReward RAID_REWARD_RANGES random 0)))
          (lastUpdate s).
Proof.
  intros Ht Hq. unfold raid. rewrite Hq.
  destruct (troops s <? RAID_COST_TROOPS) eqn:E; [| reflexivity].
  apply Z.ltb_lt in E. lia.
Qed.

End RaidLaunch.

(** ** What each operation leaves alone *)

Section Frames.

Lemma updateResources_raidQueue (now : Z) (s : GameState) :
  raidQueue (updateResources now s) = raidQueue s.
Proof.
  unfold updateResources.
  now destruct (leb (num (now - lastUpdate s) / num 1000)%Qc (num 0)).
Qed.

Lemma checkQueue_frame (now : Z) (s s' : GameState) :
  checkQueue now s = Ok s' ->
  resources s' = resources s /\ troops s' = troops s /\
  trainingQueue s' = trainingQueue s /\ raidQueue s' = raidQueue s /\
  lastUpdate s' = lastUpdate s.
Proof.
  unfold checkQueue. destruct (queue s) as [job |].
  - destruct (Construction.endTime job <=? now).
    + destruct (Construction.targetIndex job) as [i |].
      * destruct (buildingAt (buildings s) i); intro H; inversion H.
        now simpl.
      * intro H; inversion H. now simpl.
    + intro H; inversion H. auto.
  - intro H; inversion H. auto.
Qed.

Lemma checkTrainingQueue_frame (now : Z) (s : GameState) :
  resources (checkTrainingQueue now s) = resources s /\
  buildings (checkTrainingQueue now s) = buildings s /\
  queue (checkTrainingQueue now s) = queue s /\
  raidQueue (checkTrainingQueue now s) = raidQueue s /\
  lastUpdate (checkTrainingQueue now s) = lastUpdate s.
Proof.
  unfold checkTrainingQueue. destruct (trainingQueue s) as [job |]; auto.
  destruct (leb (Training.endTime job) (num now)); simpl; auto.
Qed.

Lemma checkRaidQueue_frame (now : Z) (s : GameState) :
  buildings (checkRaidQueue now s) = buildings s /\
  queue (checkRaidQueue now s) = queue s /\
  troops (checkRaidQueue now s) = troops s /\
  trainingQueue (checkRaidQueue now s) = trainingQueue s /\
  lastUpdate (checkRaidQueue now s) = lastUpdate s.
Proof.
  unfold checkRaidQueue. destruct (raidQueue s) as [job |]; auto.
  destruct (Raid.endTime job <=? now); simpl; auto.
Qed.

Lemma checkRaidQueue_pending (now : Z) (s : GameState) (job : Raid.Job) :
  raidQueue s = Some job -> now < Raid.endTime job ->
  checkRaidQueue now s = s.
Proof.
  intros Hq Hlt. unfold checkRaidQueue. rewrite Hq.
  destruct (Raid.endTime job <=? now) eqn:E; [| reflexivity].
  apply Z.leb_le in E. lia.
Qed.

Lemma checkRaidQueue_due (now : Z) (s : GameState) (job : Raid.Job) :
  raidQueue s = Some job -> Raid.endTime job <= now ->
  checkRaidQueue now s =
  mkState (addTo (resources s) (Raid.reward job)) (buildings s)
          (queue s) (troops s) (trainingQueue s) None (lastUpdate s).
Proof.
  intros Hq Hdue. unfold checkRaidQueue. rewrite Hq.
  apply Z.leb_le in Hdue. now rewrite Hdue.
Qed.

Lemma buildNew_frame (type : string) (now1 now2 : Z) (s s' : GameState) :
  buildNew type now1 now2 s = Ok s' ->
  buildings s' = buildings s /\ troops s' = troops s /\
  trainingQueue s' = trainingQueue s /\ raidQueue s' = raidQueue s /\
  lastUpdate s' = lastUpdate s.
Proof.
  unfold buildNew. destruct (queue s).
  - intro H; inversion H. auto.
  - unfold calculateCost, calculateTime.
    destruct (lookupType BUILDING_TYPES type) as [def |]; cbn [bind];
      [| discriminate].
    destruct (hasResources (costOfDef def 1) s); cbn [negb].
    + intro H; inversion H. now simpl.
    + intro H; inversion H. auto.
Qed.

Lemma upgradeBuilding_frame (index now1 now2 : Z) (s s' : GameState) :
  upgradeBuilding index now1 now2 s = Ok s' ->
  buildings s' = buildings s /\ troops s' = troops s /\
  trainingQueue s' = trainingQueue s /\ raidQueue s' = raidQueue s /\
  lastUpdate s' = lastUpdate s.
Proof.
  unfold upgradeBuilding. destruct (queue s).
  - intro H; inversion H. auto.
  - destruct (buildingAt (buildings s) index) as [b |]; cbn [bind];
      [| discriminate].
    unfold calculateCost, calculateTime. rewrite lookupType_keyString.
    cbn [bind].
    destruct (hasResources (costOfDef (definition (type b)) (level b + 1)) s);
      cbn [negb].
    + intro H; inversion H. now simpl.
    + intro H; inversion H. auto.
Qed.

Lemma trainTroop_frame (now1 now2 : Z) (s : GameState) :
  buildings (trainTroop now1 now2 s) = buildings s /\
  queue (trainTroop now1 now2 s) = queue s /\
  troops (trainTroop now1 now2 s) = troops s /\
  raidQueue (trainTroop now1 now2 s) = raidQueue s /\
  lastUpdate (trainTroop now1 now2 s) = lastUpdate s.
Proof.
  unfold trainTroop. destruct (trainingQueue s); auto.
  destruct (hasResources TRAIN_COST s); simpl; auto.
Qed.

Lemma raid_busy (random : nat -> Qc) (now1 now2 : Z) (s : GameState)
  (job : Raid.Job) :
  raidQueue s = Some job -> raid random now1 now2 s = s.
Proof. intro H. unfold raid. now rewrite H. Qed.

(** Only a raid check from [endTime] on touches a stored raid job. *)
Lemma perform_keeps_raid (o : Operation) (s s' : GameState) (job : Raid.Job) :
  raidQueue s = Some job -> ~ completesRaid job o ->
  perform o s = Ok s' -> raidQueue s' = Some job.
Proof.
  intros Hq Hn. destruct o as [now | now | now | now | c]; simpl.
  - intro H; inversion H. now rewrite updateResources_raidQueue.
  - intro H. apply checkQueue_frame in H.
    destruct H as [_ [_ [_ [H _]]]]. congruence.
  - intro H; inversion H.
    destruct (checkTrainingQueue_frame now s) as [_ [_ [_ [H' _]]]].
    congruence.
  - intro H; inversion H. simpl in Hn.
    rewrite (checkRaidQueue_pending now s job Hq); [assumption | lia].
  - destruct c as [type n1 n2 | index n1 n2 | n1 n2 | random n1 n2]; simpl.
    + intro H. apply buildNew_frame in H.
      destruct H as [_ [_ [_ [H _]]]]. congruence.
    + intro H. apply upgradeBuilding_frame in H.
      destruct H as [_ [_ [_ [H _]]]]. congruence.
    + intro H; inversion H.
      destruct (trainTroop_frame n1 n2 s) as [_ [_ [_ [H' _]]]].
      congruence.
    + intro H; inversion H. now rewrite (raid_busy random n1 n2 s job Hq).
Qed.

Lemma performAll_keeps_raid (ops : list Operation) (s s' : GameState)
  (job : Raid.Job) :
  raidQueue s = Some job -> Forall (fun o => ~ completesRaid job o) ops ->
  performAll ops s = Ok s' -> raidQueue s' = Some job.
Proof.
  intros Hq Hops. revert s Hq.
  induction Hops as [| o ops Ho Hrest IH]; intros s Hq; simpl.
  - intro H; inversion H. congruence.
  - destruct (perform o s) as [s1 |] eqn:E; simpl; [| discriminate].
    apply IH. exact (perform_keeps_raid o s s1 job Hq Ho E).
Qed.

Lemma addTo_getRes (reward : Amounts) (r : Resources) (res : Resource) :
  getRes (addTo r reward) res = (getRes r res + num (amountOf res reward))%Qc.
Proof.
  unfold addTo. revert r.
  induction reward as [| [res' v] rest IH]; intro r; simpl.
  - rewrite num_0. ring.
  - rewrite IH, getRes_setRes, num_plus.
    destruct (Resource_eqb res' res) eqn:E.
    + assert (res' = res) by (destruct res', res; congruence || discriminate).
      subst. ring.
    + rewrite num_0. ring.
Qed.

End Frames.

Section RaidSpec.

(** The roll grows with the value of [Math.random]. *)
Lemma roll_monotone (min max : Z) (r r' : Qc) :
  0 <= min <= max -> (0 <= r)%Qc -> (r <= r')%Qc ->
  Math_floor (fl (num min + fl (r * num (max - min + 1)))%Qc) <=
  Math_floor (fl (num min + fl (r' * num (max - min + 1)))%Qc).
Proof.
  intros Hmin H0 Hr. unfold Math_floor. apply Qfloor_resp_le.
  assert (Hk : (0 <= num (max - min + 1))%Qc) by (apply num_nonneg; lia).
  assert (Hm : (0 <= num min)%Qc) by (apply num_nonneg; lia).
  assert (Hrk : (0 <= r * num (max - min + 1))%Qc)
    by now apply Qc_nonneg_mult.
  apply fl_mono.
  - apply Qc_nonneg_plus; [exact Hm | now apply fl_nonneg].
  - apply Qcplus_le_compat; [apply Qcle_refl |].
    apply fl_mono; [exact Hrk |]. now apply Qcmult_le_compat_r.
Qed.

(** C5.  With at least 5 troops and an empty raid slot, [raid] takes 5
    troops at once and stores a job whose reward was rolled during the
    call: one entry per resource of [RAID_REWARD_RANGES], in its order,
    the [i]-th computed as [floor(min + random_i * (max - min + 1))] in
    binary64 from the [i]-th value of [Math.random].  With each value in
    [0, 1) the stored amount is the sample of the specification or the
    integer above it, hence an integer between [min] and [max + 1]; it is
    between [min] and [max] when no value exceeds [1 - 2^-51]; at the
    largest double below 1 the reward is 41 wood, 41 stone and 30 food, the
    first two above their maximum of 40.  No sequence of core
    operations that contains no raid check from [endTime] on changes the
    stored job, reward included.  A raid check from [endTime] on adds to
    each resource exactly the amount stored for it and clears the slot. *)
Theorem raid_reward_fixed (s : GameState) (random : nat -> Qc)
  (now1 now2 : Z) :
  5 <= troops s ->
  raidQueue s = None ->
  (forall n, (0 <= random n)%Qc /\ (random n < 1)%Qc) ->
  exists job,
    raidQueue (raid random now1 now2 s) = Some job /\
    troops (raid random now1 now2 s) = troops s - 5 /\
    resources (raid random now1 now2 s) = resources s /\
    (exists w st f,
        Raid.reward job = [(wood, w); (stone, st); (food, f)] /\
        sampleInRange 20 40 (random 0%nat) <= w <=
          sampleInRange 20 40 (random 0%nat) + 1 /\
        sampleInRange 20 40 (random 1%nat) <= st <=
          sampleInRange 20 40 (random 1%nat) + 1 /\
        sampleInRange 10 30 (random 2%nat) <= f <=
          sampleInRange 10 30 (random 2%nat) + 1) /\
    Forall2 (fun '(res, v) '(res', (min, max)) =>
               res = res' /\ min <= v <= max + 1)
            (Raid.reward job) RAID_REWARD_RANGES /\
    ((forall n, (random n <= belowOne)%Qc) ->
     Forall2 (fun '(res, v) '(res', (min, max)) =>
                res = res' /\ min <= v <= max)
             (Raid.reward job) RAID_REWARD_RANGES) /\
    ((forall n, random n = lastBelowOne) ->
     Raid.reward job = [(wood, 41); (stone, 41); (food, 30)]) /\
    (forall ops s',
        Forall (fun o => ~ completesRaid job o) ops ->
        performAll ops (raid random now1 now2 s) = Ok s' ->
        raidQueue s' = Some job) /\
    (forall s' now,
        raidQueue s' = Some job -> Raid.endTime job <= now ->
        raidQueue (checkRaidQueue now s') = None /\
        forall res,
          getRes (resources (checkRaidQueue now s')) res =
          (getRes (resources s') res +
           num (amountOf res (Raid.reward job)))%Qc).
Proof.
  intros Ht Hq Hrand.
  rewrite (raid_launch random now1 now2 s Ht Hq).
  eexists. split; [reflexivity |].
  cbn [troops resources Raid.reward].
  split; [reflexivity |]. split; [reflexivity |].
  assert (P : 40 < 2 ^ 52) by reflexivity.
  assert (P' : 30 < 2 ^ 52) by reflexivity.
  split; [| split; [| split; [| split; [| split]]]].
  - cbn [rollReward RAID_REWARD_RANGES].
    do 3 eexists. split; [reflexivity |].
    destruct (Hrand 0%nat) as [A0 A1], (Hrand 1%nat) as [B0 B1],
      (Hrand 2%nat) as [C0 C1].
    split; [| split].
    + apply (roll_entry 20 40); [lia | exact P | exact A0 | exact A1].
    + apply (roll_entry 20 40); [lia | exact P | exact B0 | exact B1].
    + apply (roll_entry 10 30); [lia | exact P' | exact C0 | exact C1].
  - apply rollReward_spec; [exact RAID_REWARD_RANGES_ordered | exact Hrand].
  - intro Hsafe. cbn [rollReward RAID_REWARD_RANGES].
    destruct (Hrand 0%nat) as [A0 A1], (Hrand 1%nat) as [B0 B1],
      (Hrand 2%nat) as [C0 C1].
    pose proof (roll_entry 20 40 _ ltac:(lia) P A0 A1) as Ea.
    pose proof (roll_entry 20 40 _ ltac:(lia) P B0 B1) as Eb.
    pose proof (roll_entry 10 30 _ ltac:(lia) P' C0 C1) as Ec.
    pose proof (sampleInRange_bounds 20 40 _ ltac:(lia) A0 A1) as Sa.
    pose proof (sampleInRange_bounds 20 40 _ ltac:(lia) B0 B1) as Sb.
    pose proof (sampleInRange_bounds 10 30 _ ltac:(lia) C0 C1) as Sc.
    pose proof (roll_monotone 20 40 _ belowOne ltac:(lia) A0 (Hsafe 0%nat))
      as Ma.
    pose proof (roll_monotone 20 40 _ belowOne ltac:(lia) B0 (Hsafe 1%nat))
      as Mb.
    pose proof (roll_monotone 10 30 _ belowOne ltac:(lia) C0 (Hsafe 2%nat))
      as Mc.
    assert (Ta : Math_floor
                   (fl (num 20 + fl (belowOne * num (40 - 20 + 1)))%Qc) = 40)
      by (vm_compute; reflexivity).
    assert (Tc : Math_floor
                   (fl (num 10 + fl (belowOne * num (30 - 10 + 1)))%Qc) = 30)
      by (vm_compute; reflexivity).
    rewrite Ta in Ma, Mb. rewrite Tc in Mc.
    repeat (apply Forall2_cons; [split; [reflexivity | lia] |]).
    apply Forall2_nil.
  - intro Htop. cbn [rollReward RAID_REWARD_RANGES]. rewrite !Htop.
    vm_compute. reflexivity.
  - intros ops s' Hops H.
    eapply performAll_keeps_raid; [| exact Hops | exact H]. reflexivity.
  - intros s' now Hq' Hdue.
    rewrite (checkRaidQueue_due now s' _ Hq' Hdue).
    cbn [raidQueue resources Raid.reward].
    split; [reflexivity |]. intro res. apply addTo_getRes.
Qed.

(** C5 at [garrison] when every [Math.random()] returns the largest double
    below 1: the stored reward is 41 wood, 41 stone and 30 food, the wood
    and the stone one above their maximum; a tick and a second raid command
    before the
    return change nothing of it; the check at the return pays the 41 wood
    on top of the 50 in store. *)
Lemma raid_reward_fixed_witness :
  exists job,
    raidQueue (raid (fun _ => lastBelowOne) 0 0 garrison) = Some job /\
    troops (raid (fun _ => lastBelowOne) 0 0 garrison) = 2 /\
    Raid.reward job = [(wood, 41); (stone, 41); (food, 30)] /\
    (forall s',
        performAll [OpUpdateResources 1000; OpCheckQueue 1001;
                    OpCheckTrainingQueue 1001; OpCheckRaidQueue 29999;
                    OpCommand (CmdRaid coin 1002 1002)]
                   (raid (fun _ => lastBelowOne) 0 0 garrison) = Ok s' ->
        raidQueue s' = Some job) /\
    getRes (resources
              (checkRaidQueue 30000 (raid (fun _ => lastBelowOne) 0 0 garrison)))
           wood = num 91.
Proof.
  destruct (raid_reward_fixed garrison (fun _ => lastBelowOne) 0 0)
    as [job [Hq [Ht [Hres [_ [_ [_ [Hrew [Hkeep Hpay]]]]]]]]].
  - vm_compute. discriminate.
  - reflexivity.
  - intro n. split; [qc_le_eval | qc_lt_eval].
  - assert (Hend : Raid.endTime job = 30000).
    { unfold raid in Hq. simpl in Hq. inversion Hq. reflexivity. }
    specialize (Hrew (fun _ => eq_refl)).
    exists job. split; [exact Hq |]. split; [exact Ht |].
    split; [exact Hrew |].
    split.
    + intros s'. apply Hkeep.
      repeat constructor; simpl; try tauto. rewrite Hend. lia.
    + destruct (Hpay (raid (fun _ => lastBelowOne) 0 0 garrison) 30000 Hq)
        as [_ Hamount].
      { rewrite Hend. lia. }
      rewrite Hamount, Hres, Hrew. qc_eval.
Defined.

(** C8.  With fewer than 5 troops [raid] returns the state as it is:
    the troop count, the empty or occupied raid slot, the resources, the
    buildings and the other queues are all unchanged. *)
Theorem raid_troop_floor (s : GameState) (random : nat -> Qc)
  (now1 now2 : Z) :
  troops s < 5 -> raid random now1 now2 s = s.
Proof.
  intro Ht. unfold raid. destruct (raidQueue s); [reflexivity |].
  destruct (troops s <? RAID_COST_TROOPS) eqn:E; [reflexivity |].
  apply Z.ltb_ge in E. unfold RAID_COST_TROOPS in E. lia.
Qed.

(** C8 at the default state, which has no troops. *)
Lemma raid_troop_floor_witness :
  raid coin 10 10 (DEFAULT_STATE 0) = DEFAULT_STATE 0.
Proof. apply raid_troop_floor. simpl. lia. Defined.

(** C10.  A raid check from [endTime] on adds the stored reward to the
    resources and clears the raid slot; the troop count, the building
    list, the construction queue, the training queue and [lastUpdate] are
    as before.  The 5 troops taken at launch stay taken: after a launch
    and a check at any reading the troop count is 5 below the count
    before the launch. *)
Theorem raid_completion_frame (s : GameState) (job : Raid.Job) (now : Z) :
  raidQueue s = Some job -> Raid.endTime job <= now ->
  raidQueue (checkRaidQueue now s) = None /\
  (forall res,
      getRes (resources (checkRaidQueue now s)) res =
      (getRes (resources s) res + num (amountOf res (Raid.reward job)))%Qc) /\
  troops (checkRaidQueue now s) = troops s /\
  buildings (checkRaidQueue now s) = buildings s /\
  queue (checkRaidQueue now s) = queue s /\
  trainingQueue (checkRaidQueue now s) = trainingQueue s /\
  lastUpdate (checkRaidQueue now s) = lastUpdate s /\
  (forall s0 random now1 now2,
      5 <= troops s0 -> raidQueue s0 = None ->
      raid random now1 now2 s0 = s ->
      troops (checkRaidQueue now s) = troops s0 - 5).
Proof.
  intros Hq Hdue.
  destruct (checkRaidQueue_frame now s) as [Hb [Hc [Ht [Htr Hl]]]].
  split; [exact (checkRaidQueue_due_clears now s job Hq Hdue) |].
  split.
  { intro res. rewrite (checkRaidQueue_due now s job Hq Hdue).
    apply addTo_getRes. }
  repeat (split; [assumption |]).
  intros s0 random now1 now2 Ht0 Hq0 Hs.
  rewrite Ht, <- Hs, (raid_launch random now1 now2 s0 Ht0 Hq0).
  reflexivity.
Qed.

(** C10 at the raid launched from [garrison], checked at its return. *)
Lemma raid_completion_frame_witness :
  raidQueue (checkRaidQueue 30000 (raid coin 0 0 garrison)) = None /\
  troops (checkRaidQueue 30000 (raid coin 0 0 garrison)) = 2 /\
  buildings (checkRaidQueue 30000 (raid coin 0 0 garrison)) =
    buildings garrison.
Proof.
  destruct (raid_completion_frame (raid coin 0 0 garrison)
              (Raid.mkJob 0 30000 (rollReward RAID_REWARD_RANGES coin 0))
              30000)
    as [Hq [_ [_ [Hb [_ [_ [_ Hlaunch]]]]]]].
  - reflexivity.
  - simpl. lia.
  - split; [exact Hq |]. split.
    + rewrite (Hlaunch garrison coin 0 0).
      * reflexivity.
      * vm_compute. discriminate.
      * reflexivity.
      * reflexivity.
    + rewrite Hb. reflexivity.
Defined.

End RaidSpec.

(** ** Player commands *)

Section Commands.

Lemma lookupType_known (type : string) (def : BuildingDef) :
  lookupType BUILDING_TYPES type = Some def ->
  exists k, type = keyString k /\ def = definition k.
Proof.
  unfold BUILDING_TYPES. cbn [map lookupType].
  destruct (String.eqb_spec (keyString woodcutter) type) as [<- | _];
    [intro H; inversion H; now exists woodcutter |].
  destruct (String.eqb_spec (keyString quarry) type) as [<- | _];
    [intro H; inversion H; now exists quarry |].
  destruct (String.eqb_spec (keyString farm) type) as [<- | _];
    [intro H; inversion H; now exists farm |].
  destruct (String.eqb_spec (keyString barracks) type) as [<- | _];
    [intro H; inversion H; now exists barracks |].
  discriminate.
Qed.

(** The branch of a [NaN] duration in [buildNew] and [upgradeBuilding] is
    not reached: where [calculateCost] returns, [calculateTime] returns a
    number of milliseconds. *)
Lemma calculateTime_after_cost (type : string) (L L' : positive)
  (cost : Amounts) :
  calculateCost type L = Ok cost ->
  exists ms, calculateTime type L' = Ok (Finite ms).
Proof.
  unfold calculateCost, calculateTime.
  destruct (lookupType BUILDING_TYPES type) as [def |]; [| discriminate].
  intros _. now eexists.
Qed.

(** What a returning [buildNew] has done. *)
Lemma buildNew_cases (type : string) (now1 now2 : Z) (s s' : GameState) :
  buildNew type now1 now2 s = Ok s' ->
  s' = s \/
  exists k,
    type = keyString k /\ queue s = None /\
    hasResources (costOfDef (definition k) 1) s = true /\
    s' = withQueue (deductResources (costOfDef (definition k) 1) s)
           (Construction.mkJob k None 1 now1
                               (now2 + timeOfDef (definition k) 1)).
Proof.
  unfold buildNew. destruct (queue s) eqn:Eq.
  - intro H; inversion H. now left.
  - unfold calculateCost, calculateTime.
    destruct (lookupType BUILDING_TYPES type) as [def |] eqn:El;
      cbn [bind]; [| discriminate].
    destruct (lookupType_known type def El) as [k [-> ->]].
    destruct (hasResources (costOfDef (definition k) 1) s) eqn:Eh;
      cbn [negb].
    + intro H; inversion H. right. exists k.
      repeat split; try assumption. now destruct k.
    + intro H; inversion H. now left.
Qed.

(** What a returning [upgradeBuilding] has done. *)
Lemma upgradeBuilding_cases (index now1 now2 : Z) (s s' : GameState) :
  upgradeBuilding index now1 now2 s = Ok s' ->
  s' = s \/
  exists b,
    buildingAt (buildings s) index = Some b /\ queue s = None /\
    hasResources (costOfDef (definition (type b)) (level b + 1)) s = true /\
    s' = withQueue
           (deductResources (costOfDef (definition (type b)) (level b + 1)) s)
           (Construction.mkJob (type b) (Some index) (level b + 1) now1
              (now2 + timeOfDef (definition (type b)) (level b + 1))).
Proof.
  unfold upgradeBuilding. destruct (queue s) eqn:Eq.
  - intro H; inversion H. now left.
  - destruct (buildingAt (buildings s) index) as [b |] eqn:Eb; cbn [bind];
      [| discriminate].
    unfold calculateCost, calculateTime. rewrite lookupType_keyString.
    cbn [bind].
    destruct (hasResources (costOfDef (definition (type b)) (level b + 1)) s)
      eqn:Eh; cbn [negb].
    + intro H; inversion H. right. exists b. auto.
    + intro H; inversion H. now left.
Qed.

Lemma buildNew_returns (type : string) (now1 now2 : Z) (s : GameState) :
  queue s <> None \/ (exists k, type = keyString k) ->
  exists s', buildNew type now1 now2 s = Ok s'.
Proof.
  intro H. unfold buildNew. destruct (queue s) eqn:Eq; [eauto |].
  destruct H as [H | [k ->]]; [congruence |].
  unfold calculateCost, calculateTime. rewrite lookupType_keyString.
  cbn [bind].
  destruct (hasResources (costOfDef (definition k) 1) s); cbn [negb]; eauto.
Qed.

Lemma upgradeBuilding_returns (index now1 now2 : Z) (s : GameState) :
  queue s <> None \/ (exists b, buildingAt (buildings s) index = Some b) ->
  exists s', upgradeBuilding index now1 now2 s = Ok s'.
Proof.
  intro H. unfold upgradeBuilding. destruct (queue s) eqn:Eq; [eauto |].
  destruct H as [H | [b Hb]]; [congruence |].
  rewrite Hb. cbn [bind].
  unfold calculateCost, calculateTime. rewrite lookupType_keyString.
  cbn [bind].
  destruct (hasResources (costOfDef (definition (type b)) (level b + 1)) s);
    cbn [negb]; eauto.
Qed.


Lemma runCommand_effect (c : Command) (s s' : GameState) :
  runCommand c s = Ok s' -> s' = s \/ started c s s'.
Proof.
  destruct c as [type n1 n2 | index n1 n2 | n1 n2 | random n1 n2]; simpl.
  - intro H. destruct (buildNew_cases _ _ _ _ _ H)
      as [-> | [k [_ [Hq [_ ->]]]]]; [now left | right].
    split; [exact Hq | now eexists].
  - intro H. destruct (upgradeBuilding_cases _ _ _ _ _ H)
      as [-> | [b [_ [Hq [_ ->]]]]]; [now left | right].
    split; [exact Hq | now eexists].
  - intro H; inversion H. unfold trainTroop.
    destruct (trainingQueue s) eqn:Eq; [now left |].
    destruct (hasResources TRAIN_COST s); cbn [negb]; [right | now left].
    split; [auto | now eexists].
  - intro H; inversion H. unfold raid.
    destruct (raidQueue s) eqn:Eq; [now left |].
    destruct (troops s <? RAID_COST_TROOPS); [now left | right].
    split; [auto | now eexists].
Qed.




End Commands.

(** ** Non-negative resources and troops *)

Section NonNegativity.

Lemma getProduction_nonneg (b : Building) (res : Resource) :
  (0 <= (if produces b res then getProduction b else 0))%Qc.
Proof.
  unfold produces, getProduction.
  destruct (resource (definition (type b))); [| apply Qcle_refl].
  destruct (Resource_eqb r res); [| apply Qcle_refl]. cbn [andb].
  destruct (ltb (num 0) (baseRate (definition (type b)))) eqn:E;
    [| apply Qcle_refl].
  apply Qc_nonneg_mult; [| apply num_nonneg; lia].
  unfold ltb in E. apply negb_true_iff in E.
  apply (proj1 (leb_false_iff _ _)) in E. rewrite num_0 in E.
  now apply Qclt_le_weak.
Qed.

Lemma productionRate_nonneg (res : Resource) (bs : list Building) :
  (0 <= productionRate res bs)%Qc.
Proof.
  induction bs as [| b bs IH]; simpl; [apply Qcle_refl |].
  apply Qc_nonneg_plus; [apply getProduction_nonneg | exact IH].
Qed.

Lemma updateResources_nonNegative (now : Z) (s : GameState) :
  nonNegative s -> nonNegative (updateResources now s).
Proof.
  intros [Hres Ht].
  destruct (Z_le_gt_dec now (lastUpdate s)) as [H | H].
  - rewrite (updateResources_noop now s H). now split.
  - rewrite (updateResources_step now s) by lia. split; [| exact Ht].
    intro res. cbn [resources]. rewrite accrue_all_getRes.
    apply Qc_nonneg_plus; [apply Hres |].
    apply Qc_nonneg_mult; [apply productionRate_nonneg |].
    apply Qclt_le_weak. rewrite <- num_0.
    apply (proj2 (deltaSeconds_pos _ _)). lia.
Qed.

Lemma Resource_eqb_eq (a b : Resource) : Resource_eqb a b = true <-> a = b.
Proof. destruct a, b; simpl; split; congruence. Qed.

Lemma deductFrom_nonneg (cost : Amounts) (r : Resources) :
  distinctKeys cost ->
  (forall res, (0 <= getRes r res)%Qc) ->
  forallb (fun '(res, c) => leb (num c) (getRes r res)) cost = true ->
  forall res, (0 <= getRes (deductFrom r cost) res)%Qc.
Proof.
  unfold distinctKeys, deductFrom. revert r.
  induction cost as [| [k c] rest IH]; intros r Hnd Hr Hall; simpl.
  - exact Hr.
  - simpl in Hnd, Hall. inversion Hnd as [| ? ? Hnotin Hnd']; subst.
    apply andb_true_iff in Hall. destruct Hall as [Hk Hrest].
    apply (proj1 (leb_iff _ _)) in Hk.
    apply IH; [exact Hnd' | |].
    + intro res. rewrite getRes_setRes.
      destruct (Resource_eqb k res); [| apply Hr].
      apply (proj1 (Qcle_minus_iff _ _)) in Hk. exact Hk.
    + rewrite forallb_forall in Hrest |- *.
      intros [k' c'] Hin. rewrite getRes_setRes.
      destruct (Resource_eqb k k') eqn:E.
      * apply Resource_eqb_eq in E. subst k'. exfalso. apply Hnotin.
        change k with (fst (k, c')). now apply in_map.
      * exact (Hrest (k', c') Hin).
Qed.

Lemma costOfDef_keys (def : BuildingDef) (L : positive) :
  map fst (costOfDef def L) = map fst (baseCost def).
Proof.
  unfold costOfDef. rewrite map_map. apply map_ext. now intros [res base].
Qed.

Lemma costOfDef_distinct (k : BuildingKey) (L : positive) :
  distinctKeys (costOfDef (definition k) L).
Proof.
  unfold distinctKeys. rewrite costOfDef_keys.
  destruct k; simpl; repeat constructor; simpl; intuition discriminate.
Qed.

Lemma TRAIN_COST_distinct : distinctKeys TRAIN_COST.
Proof.
  unfold distinctKeys. simpl. repeat constructor; simpl; intuition discriminate.
Qed.

Lemma deductResources_nonNegative (cost : Amounts) (s : GameState) :
  distinctKeys cost -> hasResources cost s = true ->
  nonNegative s -> nonNegative (deductResources cost s).
Proof.
  intros Hd Hh [Hres Ht]. split; [| exact Ht].
  now apply deductFrom_nonneg.
Qed.

Lemma amountOf_nonneg (res : Resource) (reward : Amounts) :
  Forall (fun '(_, v) => 0 <= v) reward -> 0 <= amountOf res reward.
Proof.
  induction 1 as [| [k v] rest Hv _ IH]; simpl; [lia |].
  destruct (Resource_eqb k res); lia.
Qed.

End NonNegativity.

Section NonNegativitySteps.

Lemma within_ranges_nonneg (reward : Amounts)
  (ranges : list (Resource * (Z * Z))) :
  Forall2 (fun '(res, v) '(res', (min, max)) =>
             res = res' /\ min <= v <= max + 1) reward ranges ->
  Forall (fun '(_, (min, _)) => 0 <= min) ranges ->
  Forall (fun '(_, v) => 0 <= v) reward.
Proof.
  induction 1 as [| [res v] [res' [min max]] reward ranges [_ Hv] _ IH];
    intro Hmin; constructor.
  - inversion Hmin as [| ? ? H0 _]; subst. simpl in H0. lia.
  - apply IH. now inversion Hmin.
Qed.

Lemma perform_nonNegative (o : Operation) (s s' : GameState) :
  nonNegative s -> rewardNonNegative s ->
  perform o s = Ok s' -> nonNegative s'.
Proof.
  intros Hnn Hrw.
  destruct o as [now | now | now | now | c]; simpl.
  - intro H; inversion H. now apply updateResources_nonNegative.
  - intro H. destruct (checkQueue_frame now s s' H) as [Hr [Ht _]].
    destruct Hnn as [Hres Htr]. split; [| lia].
    intro res. rewrite Hr. apply Hres.
  - intro H; inversion H.
    destruct (checkTrainingQueue_frame now s) as [Hr _].
    destruct Hnn as [Hres Htr]. split.
    + intro res. rewrite Hr. apply Hres.
    + unfold checkTrainingQueue. destruct (trainingQueue s) as [job |];
        [| exact Htr].
      destruct (leb (Training.endTime job) (num now)); simpl; lia.
  - intro H; inversion H.
    destruct (checkRaidQueue_frame now s) as [_ [_ [Ht _]]].
    destruct Hnn as [Hres Htr]. split; [| lia].
    intro res. unfold checkRaidQueue, rewardNonNegative in *.
    destruct (raidQueue s) as [job |]; [| apply Hres].
    destruct (Raid.endTime job <=? now); [| apply Hres].
    cbn [resources]. rewrite addTo_getRes.
    apply Qc_nonneg_plus; [apply Hres |].
    apply num_nonneg. now apply amountOf_nonneg.
  - destruct c as [type n1 n2 | index n1 n2 | n1 n2 | random n1 n2]; simpl.
    + intro H. destruct (buildNew_cases _ _ _ _ _ H)
        as [-> | [k [_ [_ [Hh ->]]]]]; [exact Hnn |].
      apply (deductResources_nonNegative _ s (costOfDef_distinct k 1) Hh Hnn).
    + intro H. destruct (upgradeBuilding_cases _ _ _ _ _ H)
        as [-> | [b [_ [_ [Hh ->]]]]]; [exact Hnn |].
      apply (deductResources_nonNegative _ s
               (costOfDef_distinct (type b) (level b + 1)) Hh Hnn).
    + intro H; inversion H. unfold trainTroop.
      destruct (trainingQueue s); [exact Hnn |].
      destruct (hasResources TRAIN_COST s) eqn:Hh; cbn [negb];
        [| exact Hnn].
      apply (deductResources_nonNegative _ s TRAIN_COST_distinct Hh Hnn).
    + intro H; inversion H. unfold raid.
      destruct (raidQueue s); [exact Hnn |].
      destruct (troops s <? RAID_COST_TROOPS) eqn:E; [exact Hnn |].
      apply Z.ltb_ge in E. destruct Hnn as [Hres Htr].
      split; [exact Hres |]. cbn [troops]. lia.
Qed.

Lemma perform_rewardNonNegative (o : Operation) (s s' : GameState) :
  rewardNonNegative s -> randomInUnit o ->
  perform o s = Ok s' -> rewardNonNegative s'.
Proof.
  intros Hrw Hrand H.
  destruct (raidQueue s) as [job |] eqn:Eq.
  - (* a stored job is kept or cleared *)
    assert (Hkeep : ~ completesRaid job o -> rewardNonNegative s').
    { intro Hn. unfold rewardNonNegative in *.
      rewrite (perform_keeps_raid o s s' job Eq Hn H).
      now rewrite Eq in Hrw. }
    destruct o as [now | now | now | now | c];
      try (apply Hkeep; simpl; tauto).
    simpl in H. inversion H. unfold checkRaidQueue, rewardNonNegative in *.
    rewrite Eq in *. destruct (Raid.endTime job <=? now); simpl;
      [exact I | now rewrite Eq].
  - (* only a launched raid fills the slot *)
    unfold rewardNonNegative.
    destruct o as [now | now | now | now | c]; simpl in H.
    + inversion H. now rewrite updateResources_raidQueue, Eq.
    + destruct (checkQueue_frame _ _ _ H) as [_ [_ [_ [Hq _]]]].
      now rewrite Hq, Eq.
    + inversion H.
      destruct (checkTrainingQueue_frame now s) as [_ [_ [_ [Hq _]]]].
      now rewrite Hq, Eq.
    + inversion H. now rewrite (checkRaidQueue_idle now s Eq), Eq.
    + destruct c as [type n1 n2 | index n1 n2 | n1 n2 | random n1 n2];
        simpl in H.
      * destruct (buildNew_frame _ _ _ _ _ H) as [_ [_ [_ [Hq _]]]].
        now rewrite Hq, Eq.
      * destruct (upgradeBuilding_frame _ _ _ _ _ H) as [_ [_ [_ [Hq _]]]].
        now rewrite Hq, Eq.
      * inversion H.
        destruct (trainTroop_frame n1 n2 s) as [_ [_ [_ [Hq _]]]].
        now rewrite Hq, Eq.
      * inversion H. unfold raid. rewrite Eq.
        destruct (troops s <? RAID_COST_TROOPS); [now rewrite Eq |].
        cbn [raidQueue Raid.reward].
        apply (within_ranges_nonneg _ RAID_REWARD_RANGES).
        -- apply rollReward_spec;
             [exact RAID_REWARD_RANGES_ordered | exact Hrand].
        -- repeat constructor; discriminate.
Qed.

End NonNegativitySteps.

Section NonNegativityInvariant.

Lemma DEFAULT_STATE_nonNegative (scriptStart : Z) :
  nonNegative (DEFAULT_STATE scriptStart) /\
  rewardNonNegative (DEFAULT_STATE scriptStart).
Proof.
  split; [split |].
  - intros []; simpl; apply num_nonneg; lia.
  - simpl. lia.
  - exact I.
Qed.

Lemma performAll_nonNegative (ops : list Operation) (s s' : GameState) :
  nonNegative s -> rewardNonNegative s -> Forall randomInUnit ops ->
  performAll ops s = Ok s' -> nonNegative s' /\ rewardNonNegative s'.
Proof.
  intros Hnn Hrw Hops. revert s Hnn Hrw.
  induction Hops as [| o ops Ho _ IH]; intros s Hnn Hrw; simpl.
  - intro H; inversion H; subst. now split.
  - destruct (perform o s) as [s1 |] eqn:E; cbn [bind]; [| discriminate].
    apply IH.
    + exact (perform_nonNegative o s s1 Hnn Hrw E).
    + exact (perform_rewardNonNegative o s s1 Hrw Ho E).
Qed.

(** C9, amended.  From a state in which every resource quantity and the
    troop count are at least 0 and every amount of a stored raid reward
    is at least 0, each core operation ([updateResources], the three
    checks, [buildNew], [upgradeBuilding], [trainTroop], [raid]) that
    returns leaves every resource quantity and the troop count at least
    0.  The condition on the stored reward holds in the default state and,
    with [Math.random] in [0, 1), after every operation; hence the bounds
    hold after every sequence of operations from the default state. *)
Theorem nonNegative_invariant :
  (forall o s s',
      nonNegative s -> rewardNonNegative s ->
      perform o s = Ok s' ->
      nonNegative s' /\ (randomInUnit o -> rewardNonNegative s')) /\
  (forall scriptStart,
      nonNegative (DEFAULT_STATE scriptStart) /\
      rewardNonNegative (DEFAULT_STATE scriptStart)) /\
  (forall ops s s',
      nonNegative s -> rewardNonNegative s -> Forall randomInUnit ops ->
      performAll ops s = Ok s' ->
      nonNegative s' /\ rewardNonNegative s').
Proof.
  split; [| split].
  - intros o s s' Hnn Hrw H. split.
    + exact (perform_nonNegative o s s' Hnn Hrw H).
    + intro Hr. exact (perform_rewardNonNegative o s s' Hrw Hr H).
  - exact DEFAULT_STATE_nonNegative.
  - exact performAll_nonNegative.
Qed.

(** C9 as stated fails: [cursedVillage] has 50 of each resource and no
    troops, and its due raid check leaves -50 wood. *)
Lemma stored_reward_can_take :
  nonNegative cursedVillage /\
  getRes (resources (checkRaidQueue 30000 cursedVillage)) wood = num (-50) /\
  ~ (forall o s s',
        nonNegative s -> perform o s = Ok s' -> nonNegative s').
Proof.
  assert (Hnn : nonNegative cursedVillage).
  { split; [intros []; simpl; apply num_nonneg; lia | simpl; lia]. }
  assert (Hw : getRes (resources (checkRaidQueue 30000 cursedVillage)) wood =
               num (-50)) by qc_eval.
  split; [exact Hnn | split; [exact Hw |]].
  intro H.
  destruct (H (OpCheckRaidQueue 30000) cursedVillage
              (checkRaidQueue 30000 cursedVillage) Hnn eq_refl) as [Hres _].
  specialize (Hres wood). rewrite Hw, <- num_0 in Hres.
  apply (proj1 (num_le _ _)) in Hres. lia.
Qed.

(** C9 amended, along [openingMoves] from the default state. *)
Lemma nonNegative_invariant_witness :
  exists s',
    performAll openingMoves (DEFAULT_STATE 0) = Ok s' /\
    nonNegative s' /\ rewardNonNegative s'.
Proof.
  destruct nonNegative_invariant as [_ [Hdef Hall]].
  destruct (performAll openingMoves (DEFAULT_STATE 0)) as [s' |] eqn:E.
  - exists s'. split; [reflexivity |].
    destruct (Hdef 0) as [Hnn Hrw].
    apply (Hall openingMoves (DEFAULT_STATE 0) s' Hnn Hrw); [| exact E].
    unfold openingMoves.
    repeat (apply Forall_cons; [try exact I |]); [| apply Forall_nil].
    intro n. split; [qc_le_eval | qc_lt_eval].
  - vm_compute in E. discriminate E.
Defined.

End NonNegativityInvariant.

(** * Further properties of the code *)

(** ** Growth of costs and times *)

Section Growth.














(** At level 1 the power is 1 and both products are integers. *)
Lemma timeOfDef_1 (k : BuildingKey) :
  timeOfDef (definition k) 1 = baseTime (definition k) * 1000.
Proof. destruct k; vm_compute; reflexivity. Qed.







End Growth.

(** ** Paying a cost *)

Section Paying.

Lemma hasResources_iff (cost : Amounts) (s : GameState) :
  hasResources cost s = true <->
  Forall (fun '(res, c) => (num c <= getRes (resources s) res)%Qc) cost.
Proof.
  unfold hasResources. rewrite forallb_forall, Forall_forall.
  split; intros H [res c] Hin.
  - apply (proj1 (leb_iff _ _)). exact (H (res, c) Hin).
  - apply (proj2 (leb_iff _ _)). exact (H (res, c) Hin).
Qed.

Lemma deductFrom_getRes (cost : Amounts) (r : Resources) (res : Resource) :
  getRes (deductFrom r cost) res = (getRes r res - num (amountOf res cost))%Qc.
Proof.
  unfold deductFrom. revert r.
  induction cost as [| [res' v] rest IH]; intro r; simpl.
  - rewrite num_0. ring.
  - rewrite IH, getRes_setRes, num_plus.
    destruct (Resource_eqb res' res) eqn:E.
    + apply Resource_eqb_eq in E. subst. ring.
    + rewrite num_0. ring.
Qed.

Lemma costOfDef_1 (def : BuildingDef) : costOfDef def 1 = baseCost def.
Proof.
  rewrite costOfDef_formula.
  rewrite <- (map_id (baseCost def)) at 2.
  apply map_ext. intros [res base]. now rewrite costAtLevel_1.
Qed.

(** X3.  [hasResources] holds exactly when every entry of the cost is
    covered by the stock of its resource.  [deductResources] lowers each
    resource by exactly the amount the cost holds for it and changes no
    other field; paying a cost and receiving the same amounts back (as a
    raid reward is received) restores the resources, in either order. *)
Theorem deductResources_exact (cost : Amounts) (s : GameState) :
  (hasResources cost s = true <->
   Forall (fun '(res, c) => (num c <= getRes (resources s) res)%Qc) cost) /\
  (forall res,
      getRes (resources (deductResources cost s)) res =
      (getRes (resources s) res - num (amountOf res cost))%Qc) /\
  deductResources cost s =
    mkState (deductFrom (resources s) cost) (buildings s) (queue s)
            (troops s) (trainingQueue s) (raidQueue s) (lastUpdate s) /\
  addTo (deductFrom (resources s) cost) cost = resources s /\
  deductFrom (addTo (resources s) cost) cost = resources s.
Proof.
  split; [apply hasResources_iff |].
  split; [intro res; apply deductFrom_getRes |].
  split; [reflexivity |].
  split; apply Resources_ext; intro res.
  - rewrite addTo_getRes, deductFrom_getRes. ring.
  - rewrite deductFrom_getRes, addTo_getRes. ring.
Qed.

End Paying.

(** ** Starting and refusing jobs *)

Section Starting.

Lemma key_definition (k : BuildingKey) : key (definition k) = k.
Proof. now destruct k. Qed.

Lemma buildNew_start (k : BuildingKey) (now1 now2 : Z) (s : GameState) :
  queue s = None -> hasResources (baseCost (definition k)) s = true ->
  buildNew (keyString k) now1 now2 s =
  Ok (withQueue (deductResources (baseCost (definition k)) s)
        (Construction.mkJob k None 1 now1
                            (now2 + baseTime (definition k) * 1000))).
Proof.
  intros Hq Hh. unfold buildNew. rewrite Hq.
  unfold calculateCost, calculateTime. rewrite lookupType_keyString.
  cbn [bind]. rewrite costOfDef_1, Hh. cbn [negb bind].
  now rewrite key_definition, timeOfDef_1.
Qed.

Lemma buildNew_refuse (type : string) (k : BuildingKey) (now1 now2 : Z)
  (s : GameState) :
  type = keyString k ->
  isBusy (queue s) || negb (hasResources (baseCost (definition k)) s) = true ->
  buildNew type now1 now2 s = Ok s.
Proof.
  intros -> H. unfold buildNew. destruct (queue s); [reflexivity |].
  unfold calculateCost. rewrite lookupType_keyString. cbn [bind].
  rewrite costOfDef_1. cbn [isBusy orb] in H. now rewrite H.
Qed.

Lemma upgradeBuilding_start (index now1 now2 : Z) (b : Building)
  (s : GameState) :
  queue s = None -> buildingAt (buildings s) index = Some b ->
  hasResources (costOfDef (definition (type b)) (level b + 1)) s = true ->
  upgradeBuilding index now1 now2 s =
  Ok (withQueue
        (deductResources (costOfDef (definition (type b)) (level b + 1)) s)
        (Construction.mkJob (type b) (Some index) (level b + 1) now1
           (now2 + timeOfDef (definition (type b)) (level b + 1)))).
Proof.
  intros Hq Hb Hh. unfold upgradeBuilding. rewrite Hq, Hb. cbn [bind].
  unfold calculateCost, calculateTime. rewrite lookupType_keyString.
  cbn [bind]. now rewrite Hh.
Qed.

Lemma upgradeBuilding_refuse (index now1 now2 : Z) (b : Building)
  (s : GameState) :
  buildingAt (buildings s) index = Some b ->
  isBusy (queue s) ||
    negb (hasResources (costOfDef (definition (type b)) (level b + 1)) s) =
    true ->
  upgradeBuilding index now1 now2 s = Ok s.
Proof.
  intros Hb H. unfold upgradeBuilding. destruct (queue s); [reflexivity |].
  rewrite Hb. cbn [bind]. unfold calculateCost.
  rewrite lookupType_keyString. cbn [bind isBusy orb] in *. now rewrite H.
Qed.

Lemma trainTroop_start (now1 now2 : Z) (s : GameState) :
  trainingQueue s = None -> hasResources TRAIN_COST s = true ->
  trainTroop now1 now2 s =
  mkState (deductFrom (resources s) TRAIN_COST) (buildings s) (queue s)
          (troops s)
          (Some (Training.mkJob now1
                   (num now2 + calculateTrainingDuration s)%Qc))
          (raidQueue s) (lastUpdate s).
Proof.
  intros Hq Hh. unfold trainTroop. rewrite Hq, Hh. reflexivity.
Qed.

Lemma trainTroop_refuse (now1 now2 : Z) (s : GameState) :
  trainDisabled s = true -> trainTroop now1 now2 s = s.
Proof.
  unfold trainDisabled, trainTroop.
  destruct (trainingQueue s); [reflexivity |]. cbn [isBusy orb].
  now intros ->.
Qed.

Lemma withQueue_neq (s s1 : GameState) (job : Construction.Job) :
  queue s = None -> withQueue s1 job <> s.
Proof. intros Hq E. rewrite <- E in Hq. discriminate Hq. Qed.

Lemma busy_commands_noop (type : string) (index n1 n2 : Z) (s : GameState) :
  queue s <> None ->
  buildNew type n1 n2 s = Ok s /\ upgradeBuilding index n1 n2 s = Ok s.
Proof.
  intro H. unfold buildNew, upgradeBuilding.
  destruct (queue s); [now split | congruence].
Qed.

(** X4.  The [disabled] flag a render function computes from a state is
    true exactly when the command of the button, run on that state, returns
    leaving it unchanged, and when the flag is false the command starts its
    job: Build for each of the four types, Upgrade for each building of the
    list, Train Troop and Raid.  The flag a button shows dates from its last
    rendering: once [buildNew] or [upgradeBuilding] has started a job,
    every Build and Upgrade command returns without effect, whatever the
    buttons still show ([buildNew] renders the Build buttons anew, not the
    Upgrade buttons; [upgradeBuilding] the Upgrade buttons, not the Build
    buttons). *)
Theorem disabled_iff_noop (s : GameState) (now1 now2 : Z) :
  (forall k,
      exists d, buildDisabled k s = Ok d /\
                (d = true <-> buildNew (keyString k) now1 now2 s = Ok s) /\
                (d = false ->
                 exists s',
                   buildNew (keyString k) now1 now2 s = Ok s' /\
                   started (CmdBuildNew (keyString k) now1 now2) s s')) /\
  (forall index b,
      buildingAt (buildings s) index = Some b ->
      exists d, upgradeDisabled b s = Ok d /\
                (d = true <-> upgradeBuilding index now1 now2 s = Ok s) /\
                (d = false ->
                 exists s',
                   upgradeBuilding index now1 now2 s = Ok s' /\
                   started (CmdUpgradeBuilding index now1 now2) s s')) /\
  (trainDisabled s = true <-> trainTroop now1 now2 s = s) /\
  (trainDisabled s = false ->
   started (CmdTrainTroop now1 now2) s (trainTroop now1 now2 s)) /\
  (forall random,
      (raidDisabled s = true <-> raid random now1 now2 s = s) /\
      (raidDisabled s = false ->
       started (CmdRaid random now1 now2) s (raid random now1 now2 s))) /\
  (forall c s1,
      (exists type, c = CmdBuildNew type now1 now2) \/
      (exists index, c = CmdUpgradeBuilding index now1 now2) ->
      runCommand c s = Ok s1 -> s1 <> s ->
      forall type index n1 n2,
        buildNew type n1 n2 s1 = Ok s1 /\
        upgradeBuilding index n1 n2 s1 = Ok s1).
Proof.
  split; [| split; [| split; [| split; [| split]]]].
  - intro k. unfold buildDisabled, calculateCost.
    rewrite lookupType_keyString. cbn [bind]. rewrite costOfDef_1.
    eexists. split; [reflexivity |]. split; [split |].
    + now apply buildNew_refuse.
    + intro H.
      destruct (isBusy (queue s) ||
                negb (hasResources (baseCost (definition k)) s)) eqn:E;
        [reflexivity | exfalso].
      apply orb_false_iff in E. destruct E as [Eq Eh].
      apply negb_false_iff in Eh.
      assert (Hq : queue s = None) by (destruct (queue s); [discriminate | auto]).
      rewrite (buildNew_start k now1 now2 s Hq Eh) in H. inversion H as [H1].
      now apply (withQueue_neq s _ _ Hq) in H1.
    + intro E. apply orb_false_iff in E. destruct E as [Eq Eh].
      apply negb_false_iff in Eh.
      assert (Hq : queue s = None) by (destruct (queue s); [discriminate | auto]).
      eexists. split; [exact (buildNew_start k now1 now2 s Hq Eh) |].
      split; [exact Hq | now eexists].
  - intros index b Hb. unfold upgradeDisabled, calculateCost.
    rewrite lookupType_keyString. cbn [bind].
    eexists. split; [reflexivity |]. split; [split |].
    + now apply upgradeBuilding_refuse.
    + intro H.
      destruct (isBusy (queue s) ||
                negb (hasResources
                        (costOfDef (definition (type b)) (level b + 1)) s))
        eqn:E; [reflexivity | exfalso].
      apply orb_false_iff in E. destruct E as [Eq Eh].
      apply negb_false_iff in Eh.
      assert (Hq : queue s = None) by (destruct (queue s); [discriminate | auto]).
      rewrite (upgradeBuilding_start index now1 now2 b s Hq Hb Eh) in H.
      inversion H as [H1]. now apply (withQueue_neq s _ _ Hq) in H1.
    + intro E. apply orb_false_iff in E. destruct E as [Eq Eh].
      apply negb_false_iff in Eh.
      assert (Hq : queue s = None) by (destruct (queue s); [discriminate | auto]).
      eexists.
      split; [exact (upgradeBuilding_start index now1 now2 b s Hq Hb Eh) |].
      split; [exact Hq | now eexists].
  - split; [apply trainTroop_refuse |].
    intro H. destruct (trainDisabled s) eqn:E; [reflexivity | exfalso].
    unfold trainDisabled in E. apply orb_false_iff in E.
    destruct E as [Eq Eh]. apply negb_false_iff in Eh.
    assert (Hq : trainingQueue s = None)
      by (destruct (trainingQueue s); [discriminate | auto]).
    rewrite (trainTroop_start now1 now2 s Hq Eh) in H.
    apply (f_equal trainingQueue) in H. rewrite Hq in H. discriminate H.
  - intro E. unfold trainDisabled in E. apply orb_false_iff in E.
    destruct E as [Eq Eh]. apply negb_false_iff in Eh.
    assert (Hq : trainingQueue s = None)
      by (destruct (trainingQueue s); [discriminate | auto]).
    rewrite (trainTroop_start now1 now2 s Hq Eh).
    split; [exact Hq | now eexists].
  - intro random. unfold raidDisabled, raid. split; [split |].
    + destruct (raidQueue s); [reflexivity |].
      cbn [isBusy]. rewrite orb_false_r. now intros ->.
    + destruct (raidQueue s) eqn:Eq; [intros _; apply orb_true_r |].
      destruct (troops s <? RAID_COST_TROOPS); [reflexivity |].
      intro H. apply (f_equal raidQueue) in H. rewrite Eq in H.
      discriminate H.
    + intro E. apply orb_false_iff in E. destruct E as [Et Eq].
      destruct (raidQueue s) eqn:Er; [discriminate Eq |].
      rewrite Et. split; [exact Er | now eexists].
  - intros c s1 Hc Hrun Hne type index n1 n2.
    apply busy_commands_noop.
    destruct (runCommand_effect c s s1 Hrun) as [-> | Hst]; [congruence |].
    destruct Hc as [[ty ->] | [ix ->]]; destruct Hst as [_ [job Hj]];
      congruence.
Qed.

(** X4 at [village].  The Upgrade button of its woodcutter is enabled and
    so is the Build button of the farm; building the farm starts a job,
    after which the upgrade of the woodcutter, whose button [buildNew] has
    not rendered anew, returns without effect.  And at the default state,
    whose Raid button is disabled for lack of troops. *)
Lemma disabled_iff_noop_witness :
  upgradeDisabled (mkBuilding woodcutter 2) village = Ok false /\
  buildDisabled farm village = Ok false /\
  (exists s1,
      buildNew "farm" 10 10 village = Ok s1 /\
      started (CmdBuildNew "farm" 10 10) village s1 /\
      upgradeBuilding 0 20 20 s1 = Ok s1) /\
  raid coin 10 10 (DEFAULT_STATE 0) = DEFAULT_STATE 0.
Proof.
  destruct (disabled_iff_noop village 10 10) as [Hb [_ [_ [_ [_ Hstale]]]]].
  destruct (disabled_iff_noop (DEFAULT_STATE 0) 10 10)
    as [_ [_ [_ [_ [Hraid _]]]]].
  split; [vm_compute; reflexivity |].
  split; [vm_compute; reflexivity |].
  split.
  - destruct (Hb farm) as [d [Hd [_ Hstart]]].
    assert (E : d = false).
    { vm_compute in Hd. now inversion Hd. }
    destruct (Hstart E) as [s1 [H1 Hst]].
    exists s1. split; [exact H1 |]. split; [exact Hst |].
    assert (Hne : s1 <> village).
    { destruct Hst as [Hq [job Hj]]. intro Es. rewrite Es in Hj.
      rewrite Hq in Hj. discriminate Hj. }
    exact (proj2 (Hstale (CmdBuildNew "farm" 10 10) s1
                    (or_introl (ex_intro _ "farm"%string eq_refl))
                    H1 Hne "farm"%string 0 20 20)).
  - apply (proj1 (Hraid coin)). reflexivity.
Defined.

End Starting.

(** ** The life of a job *)

Section JobCycles.

Lemma checkQueue_pending (now : Z) (s : GameState) :
  constructionPending now s -> checkQueue now s = Ok s.
Proof.
  unfold constructionPending, checkQueue.
  destruct (queue s) as [job |]; [| reflexivity].
  intro H. destruct (Construction.endTime job <=? now) eqn:E; [| reflexivity].
  apply Z.leb_le in E. lia.
Qed.

Lemma checkTrainingQueue_pending (now : Z) (s : GameState) :
  trainingPending now s -> checkTrainingQueue now s = s.
Proof.
  unfold trainingPending, checkTrainingQueue.
  destruct (trainingQueue s) as [job |]; [| reflexivity].
  intro H. apply (proj2 (leb_false_iff _ _)) in H. now rewrite H.
Qed.

Lemma checkRaidQueue_still (now : Z) (s : GameState) :
  raidPending now s -> checkRaidQueue now s = s.
Proof.
  unfold raidPending. destruct (raidQueue s) as [job |] eqn:E.
  - intro H. exact (checkRaidQueue_pending now s job E H).
  - intros _. now apply checkRaidQueue_idle.
Qed.

(** X5.  On an idle construction queue, [buildNew] of one of the four
    types whose base cost is covered takes exactly the base cost from the
    resources and stores a job ending [baseTime * 1000] ms after the second
    clock reading.  Checks before that reading leave the state as it is;
    the first check from that reading on appends a building of that type at
    level 1 to the end of the list, keeps the buildings already there and
    clears the slot. *)
Theorem buildNew_cycle (k : BuildingKey) (now1 now2 : Z) (s : GameState) :
  queue s = None ->
  hasResources (baseCost (definition k)) s = true ->
  exists s1,
    buildNew (keyString k) now1 now2 s = Ok s1 /\
    queue s1 = Some (Construction.mkJob k None 1 now1
                       (now2 + baseTime (definition k) * 1000)) /\
    (forall res,
        getRes (resources s1) res =
        (getRes (resources s) res -
         num (amountOf res (baseCost (definition k))))%Qc) /\
    (forall earlier,
        earlier < now2 + baseTime (definition k) * 1000 ->
        checkQueue earlier s1 = Ok s1) /\
    (forall later,
        now2 + baseTime (definition k) * 1000 <= later ->
        exists s2,
          checkQueue later s1 = Ok s2 /\
          buildings s2 = buildings s ++ [mkBuilding k 1] /\
          queue s2 = None /\ resources s2 = resources s1).
Proof.
  intros Hq Hh. eexists. split; [exact (buildNew_start k now1 now2 s Hq Hh) |].
  split; [reflexivity |]. split; [| split].
  - intro res. cbn [withQueue deductResources withResources resources].
    apply deductFrom_getRes.
  - intros earlier He. apply checkQueue_pending.
    unfold constructionPending. cbn [withQueue queue Construction.endTime].
    exact He.
  - intros later Hl. apply Z.leb_le in Hl. eexists. split.
    + unfold checkQueue.
      cbn [withQueue queue Construction.endTime Construction.targetIndex].
      rewrite Hl. reflexivity.
    + repeat split.
Qed.

(** X5 for a quarry built from the default state at reading 100. *)
Lemma buildNew_cycle_witness :
  exists s1 s2,
    buildNew "quarry" 100 100 (DEFAULT_STATE 0) = Ok s1 /\
    checkQueue 5099 s1 = Ok s1 /\
    checkQueue 5100 s1 = Ok s2 /\
    buildings s2 = [mkBuilding quarry 1].
Proof.
  destruct (buildNew_cycle quarry 100 100 (DEFAULT_STATE 0))
    as [s1 [Hb [_ [_ [He Hl]]]]].
  - reflexivity.
  - vm_compute. reflexivity.
  - destruct (Hl 5100) as [s2 [Hc [Hbs _]]]; [simpl; lia |].
    exists s1, s2. repeat split; try assumption.
    apply He. simpl. lia.
Defined.



End JobCycles.

(** ** Training speed *)

Section TrainingSpeed.

Lemma num_mult (a b : Z) : num (a * b) = (num a * num b)%Qc.
Proof.
  apply Qc_is_canon. unfold Qcmult, num, Q2Qc, this.
  rewrite !Qred_correct. now rewrite inject_Z_mult.
Qed.

Lemma Qc_div_mult (x m : Qc) : m <> 0%Qc -> (x / m * m)%Qc = x.
Proof. intro H. now field. Qed.

Lemma Qc_pos_neq (m : Qc) : (0 < m)%Qc -> m <> 0%Qc.
Proof. intros H E. rewrite E in H. exact (Qclt_not_eq _ _ H eq_refl). Qed.

Lemma Qc_le_div_l (x y m : Qc) :
  (0 < m)%Qc -> (x <= y * m)%Qc -> (x / m <= y)%Qc.
Proof.
  intros Hm H. apply (Qcmult_lt_0_le_reg_r _ _ m Hm).
  now rewrite (Qc_div_mult x m (Qc_pos_neq m Hm)).
Qed.

Lemma Qc_le_div_r (x y m : Qc) :
  (0 < m)%Qc -> (y * m <= x)%Qc -> (y <= x / m)%Qc.
Proof.
  intros Hm H. apply (Qcmult_lt_0_le_reg_r _ _ m Hm).
  now rewrite (Qc_div_mult x m (Qc_pos_neq m Hm)).
Qed.

Lemma Qc_div_le_mult (x y m : Qc) :
  (0 < m)%Qc -> (x / m <= y)%Qc -> (x <= y * m)%Qc.
Proof.
  intros Hm H. rewrite <- (Qc_div_mult x m (Qc_pos_neq m Hm)).
  apply Qcmult_le_compat_r; [exact H | now apply Qclt_le_weak].
Qed.

Lemma totalBarracksLevel_nonneg (bs : list Building) :
  0 <= totalBarracksLevel bs.
Proof.
  induction bs as [| b bs IH]; simpl; [lia |]. destruct (type b); lia.
Qed.

(** [1000 * (1 + 0.5 * total)] is the integer [1000 + 500 * total]. *)
Lemma thousand_multiplier (total : Z) :
  (num 1000 * (1 + Q2Qc (1 # 2) * num total))%Qc = num (1000 + 500 * total).
Proof.
  rewrite num_plus, num_mult.
  replace (num 500) with (num 1000 * Q2Qc (1 # 2))%Qc by qc_eval.
  ring.
Qed.

Lemma multiplier_pos (total : Z) :
  0 <= total -> (0 < 1 + Q2Qc (1 # 2) * num total)%Qc.
Proof.
  intro H.
  assert (Hk : (0 < num 1000 * (1 + Q2Qc (1 # 2) * num total))%Qc).
  { rewrite thousand_multiplier, <- num_0. apply (proj2 (num_lt _ _)). lia. }
  destruct (Qclt_le_dec 0 (1 + Q2Qc (1 # 2) * num total)) as [Hp | Hn];
    [exact Hp | exfalso].
  apply (Qcle_not_lt _ _ (Qcmult_le_compat_r _ _ (num 1000) Hn
                            (Qclt_le_weak _ _ num_1000_pos))).
  rewrite Qcmult_0_l, Qcmult_comm. exact Hk.
Qed.

(** [5000 / (1 + 0.5 * total) <= bound] as an inequality of integers. *)
Lemma scaledTrainTime_le (total bound : Z) :
  0 <= total ->
  ((scaledTrainTime total <= num bound)%Qc <->
   5000000 <= bound * (1000 + 500 * total)).
Proof.
  intro Ht. pose proof (multiplier_pos total Ht) as Hm.
  unfold scaledTrainTime.
  assert (E : forall x : Qc,
             (x * (1 + Q2Qc (1 # 2) * num total) * num 1000)%Qc =
             (x * num (1000 + 500 * total))%Qc).
  { intro x. rewrite <- thousand_multiplier. ring. }
  split; intro H.
  - apply (Qc_div_le_mult _ _ _ Hm) in H.
    apply (Qcmult_le_compat_r _ _ (num 1000)) in H;
      [| apply Qclt_le_weak; exact num_1000_pos].
    rewrite E, <- !num_mult in H. apply (proj1 (num_le _ _)) in H. lia.
  - apply (Qc_le_div_l _ _ _ Hm).
    apply (Qcmult_lt_0_le_reg_r _ _ (num 1000) num_1000_pos).
    rewrite E, <- !num_mult. apply (proj2 (num_le _ _)). lia.
Qed.

Lemma scaledTrainTime_nonneg (total : Z) :
  0 <= total -> (0 <= scaledTrainTime total)%Qc.
Proof.
  intro Ht. unfold scaledTrainTime.
  apply (Qc_le_div_r _ _ _ (multiplier_pos total Ht)).
  rewrite Qcmult_0_l. apply num_nonneg. lia.
Qed.

Lemma scaledTrainTime_antitone (total total' : Z) :
  0 <= total -> total <= total' ->
  (scaledTrainTime total' <= scaledTrainTime total)%Qc.
Proof.
  intros Ht Hle.
  pose proof (multiplier_pos total Ht) as Hm.
  assert (Ht' : 0 <= total') by lia.
  pose proof (multiplier_pos total' Ht') as Hm'.
  unfold scaledTrainTime at 1. apply (Qc_le_div_l _ _ _ Hm').
  apply (Qcle_trans _ (scaledTrainTime total *
                         (1 + Q2Qc (1 # 2) * num total))%Qc).
  - unfold scaledTrainTime.
    rewrite (Qc_div_mult _ _ (Qc_pos_neq _ Hm)). apply Qcle_refl.
  - rewrite !(Qcmult_comm (scaledTrainTime total)).
    apply Qcmult_le_compat_r; [| now apply scaledTrainTime_nonneg].
    apply Qcplus_le_compat; [apply Qcle_refl |].
    rewrite !(Qcmult_comm (Q2Qc (1 # 2))).
    apply Qcmult_le_compat_r; [now apply (proj2 (num_le _ _)) |].
    apply (proj1 (leb_iff _ _)). reflexivity.
Qed.

Lemma Math_max_le (c x y : Qc) :
  (x <= y)%Qc -> (Math_max c x <= Math_max c y)%Qc.
Proof.
  intro H. destruct (Math_max_spec c y) as [Hc [Hy _]].
  destruct (Math_max_spec c x) as [_ [_ [-> | ->]]]; [exact Hc |].
  exact (Qcle_trans _ _ _ H Hy).
Qed.

Lemma Math_max_eq_left (c x : Qc) : Math_max c x = c <-> (x <= c)%Qc.
Proof.
  unfold Math_max. destruct (leb c x) eqn:E.
  - apply (proj1 (leb_iff _ _)) in E. split.
    + intros ->. apply Qcle_refl.
    + intro H. now apply Qcle_antisym.
  - apply (proj1 (leb_false_iff _ _)) in E. split; [| reflexivity].
    intros _. now apply Qclt_le_weak.
Qed.

(** X7.  Whatever the buildings, training one troop takes between 1000
    and 5000 ms; a state whose barracks levels add up to more never trains
    slower; and the floor of 1000 ms is reached exactly when the barracks
    levels add up to 8 or more. *)
Theorem calculateTrainingDuration_bounds (s s' : GameState) :
  (num 1000 <= calculateTrainingDuration s)%Qc /\
  (calculateTrainingDuration s <= num 5000)%Qc /\
  (totalBarracksLevel (buildings s) <= totalBarracksLevel (buildings s') ->
   (calculateTrainingDuration s' <= calculateTrainingDuration s)%Qc) /\
  (calculateTrainingDuration s = num 1000 <->
   8 <= totalBarracksLevel (buildings s)).
Proof.
  rewrite !calculateTrainingDuration_max.
  pose proof (totalBarracksLevel_nonneg (buildings s)) as Ht.
  set (total := totalBarracksLevel (buildings s)) in *.
  destruct (Math_max_spec (num 1000) (scaledTrainTime total)) as [H1 [_ H3]].
  split; [exact H1 |]. split; [| split].
  - destruct H3 as [-> | ->].
    + apply (proj2 (num_le _ _)). lia.
    + apply (scaledTrainTime_le total 5000 Ht). lia.
  - intro Hle. apply Math_max_le. now apply scaledTrainTime_antitone.
  - rewrite Math_max_eq_left, (scaledTrainTime_le total 1000 Ht). lia.
Qed.

(** X7 for a village without and one with two barracks of level 4. *)
Lemma calculateTrainingDuration_bounds_witness :
  (calculateTrainingDuration
     (mkState (resources village)
              [mkBuilding barracks 4; mkBuilding barracks 4]
              None 0 None None 0) <=
   calculateTrainingDuration (DEFAULT_STATE 0))%Qc.
Proof.
  apply (calculateTrainingDuration_bounds (DEFAULT_STATE 0)
           (mkState (resources village)
                    [mkBuilding barracks 4; mkBuilding barracks 4]
                    None 0 None None 0)).
  simpl. lia.
Defined.

End TrainingSpeed.

Section TrainingCycle.

Lemma duration_bounds (s : GameState) :
  (num 1000 <= calculateTrainingDuration s)%Qc /\
  (calculateTrainingDuration s <= num 5000)%Qc.
Proof.
  rewrite calculateTrainingDuration_max.
  pose proof (totalBarracksLevel_nonneg (buildings s)) as Ht.
  destruct (Math_max_spec (num 1000)
              (scaledTrainTime (totalBarracksLevel (buildings s))))
    as [H1 [_ H3]].
  split; [exact H1 |]. destruct H3 as [-> | ->].
  - apply (proj2 (num_le _ _)). lia.
  - apply (scaledTrainTime_le _ 5000 Ht). lia.
Qed.

Lemma Qc_plus_le_l (a x y : Qc) : (x <= y)%Qc -> (a + x <= a + y)%Qc.
Proof. intro H. apply Qcplus_le_compat; [apply Qcle_refl | exact H]. Qed.

(** X8.  On an idle training queue with 15 wood, 15 stone and 10 food in
    stock, [trainTroop] takes exactly these amounts, leaves the troop count
    as it is and stores a job that ends [calculateTrainingDuration] after
    the second clock reading.  Checks before the end leave the state as it
    is, so no check earlier than 1000 ms after the start yields the troop;
    the first check from the end on, hence any check 5000 ms after the
    start or later, adds exactly one troop, clears the slot and leaves the
    resources alone. *)
Theorem trainTroop_cycle (now1 now2 : Z) (s : GameState) :
  trainingQueue s = None ->
  hasResources TRAIN_COST s = true ->
  let s1 := trainTroop now1 now2 s in
  trainingQueue s1 =
    Some (Training.mkJob now1 (num now2 + calculateTrainingDuration s)%Qc) /\
  resources s1 =
    mkResources (woodQty (resources s) - num 15)%Qc
                (stoneQty (resources s) - num 15)%Qc
                (foodQty (resources s) - num 10)%Qc /\
  troops s1 = troops s /\
  (forall now,
      (num now < num now2 + calculateTrainingDuration s)%Qc ->
      checkTrainingQueue now s1 = s1) /\
  (forall now, now < now2 + 1000 -> checkTrainingQueue now s1 = s1) /\
  (forall now,
      (num now2 + calculateTrainingDuration s <= num now)%Qc ->
      troops (checkTrainingQueue now s1) = troops s + 1 /\
      trainingQueue (checkTrainingQueue now s1) = None /\
      resources (checkTrainingQueue now s1) = resources s1) /\
  (forall now,
      now2 + 5000 <= now ->
      troops (checkTrainingQueue now s1) = troops s + 1).
Proof.
  intros Hq Hh s1. subst s1. rewrite (trainTroop_start now1 now2 s Hq Hh).
  destruct (duration_bounds s) as [Hlo Hhi].
  assert (Hpend : forall now,
             (num now < num now2 + calculateTrainingDuration s)%Qc ->
             checkTrainingQueue now
               (mkState (deductFrom (resources s) TRAIN_COST) (buildings s)
                  (queue s) (troops s)
                  (Some (Training.mkJob now1
                           (num now2 + calculateTrainingDuration s)%Qc))
                  (raidQueue s) (lastUpdate s)) =
             mkState (deductFrom (resources s) TRAIN_COST) (buildings s)
               (queue s) (troops s)
               (Some (Training.mkJob now1
                        (num now2 + calculateTrainingDuration s)%Qc))
               (raidQueue s) (lastUpdate s)).
  { intros now H. now apply checkTrainingQueue_pending. }
  assert (Hdue : forall now,
             (num now2 + calculateTrainingDuration s <= num now)%Qc ->
             checkTrainingQueue now
               (mkState (deductFrom (resources s) TRAIN_COST) (buildings s)
                  (queue s) (troops s)
                  (Some (Training.mkJob now1
                           (num now2 + calculateTrainingDuration s)%Qc))
                  (raidQueue s) (lastUpdate s)) =
             mkState (deductFrom (resources s) TRAIN_COST) (buildings s)
               (queue s) (troops s + 1) None (raidQueue s) (lastUpdate s)).
  { intros now H. unfold checkTrainingQueue.
    cbn [trainingQueue Training.endTime].
    apply (proj2 (leb_iff _ _)) in H. now rewrite H. }
  split; [reflexivity |]. split; [| split; [reflexivity |]].
  - cbn [resources]. apply Resources_ext. intro res.
    rewrite deductFrom_getRes.
    destruct res; cbn [getRes amountOf TRAIN_COST Resource_eqb];
      apply Qc_is_canon; simpl; ring.
  - split; [exact Hpend |]. split; [| split].
    + intros now H. apply Hpend.
      apply (Qclt_le_trans _ (num now2 + num 1000)%Qc).
      * rewrite <- num_plus. now apply (proj2 (num_lt _ _)).
      * now apply Qc_plus_le_l.
    + intros now H. rewrite (Hdue now H). repeat split.
    + intros now H. rewrite Hdue; [reflexivity |].
      apply (Qcle_trans _ (num now2 + num 5000)%Qc).
      * now apply Qc_plus_le_l.
      * rewrite <- num_plus. now apply (proj2 (num_le _ _)).
Qed.

(** X8 from the default state at reading 0: the troop is there at 5000. *)
Lemma trainTroop_cycle_witness :
  troops (checkTrainingQueue 5000 (trainTroop 0 0 (DEFAULT_STATE 0))) = 1 /\
  checkTrainingQueue 999 (trainTroop 0 0 (DEFAULT_STATE 0)) =
    trainTroop 0 0 (DEFAULT_STATE 0).
Proof.
  destruct (trainTroop_cycle 0 0 (DEFAULT_STATE 0))
    as [_ [_ [_ [_ [Hearly [_ Hlate]]]]]].
  - reflexivity.
  - vm_compute. reflexivity.
  - split.
    + apply Hlate. lia.
    + apply Hearly. lia.
Defined.

End TrainingCycle.

(** ** One job per slot *)

Section Slots.

Lemma updateResources_frame (now : Z) (s : GameState) :
  buildings (updateResources now s) = buildings s /\
  queue (updateResources now s) = queue s /\
  troops (updateResources now s) = troops s /\
  trainingQueue (updateResources now s) = trainingQueue s.
Proof.
  unfold updateResources.
  destruct (leb (num (now - lastUpdate s) / num 1000)%Qc (num 0)); auto.
Qed.

Lemma raid_frame (random : nat -> Qc) (now1 now2 : Z) (s : GameState) :
  resources (raid random now1 now2 s) = resources s /\
  buildings (raid random now1 now2 s) = buildings s /\
  queue (raid random now1 now2 s) = queue s /\
  trainingQueue (raid random now1 now2 s) = trainingQueue s /\
  lastUpdate (raid random now1 now2 s) = lastUpdate s.
Proof.
  unfold raid. destruct (raidQueue s); auto.
  destruct (troops s <? RAID_COST_TROOPS); auto.
Qed.

Lemma buildNew_busy (type : string) (now1 now2 : Z) (s : GameState)
  (job : Construction.Job) :
  queue s = Some job -> buildNew type now1 now2 s = Ok s.
Proof. intro H. unfold buildNew. now rewrite H. Qed.

Lemma upgradeBuilding_busy (index now1 now2 : Z) (s : GameState)
  (job : Construction.Job) :
  queue s = Some job -> upgradeBuilding index now1 now2 s = Ok s.
Proof. intro H. unfold upgradeBuilding. now rewrite H. Qed.

Lemma trainTroop_busy (now1 now2 : Z) (s : GameState) (job : Training.Job) :
  trainingQueue s = Some job -> trainTroop now1 now2 s = s.
Proof. intro H. unfold trainTroop. now rewrite H. Qed.

Lemma perform_keeps_construction (o : Operation) (s s' : GameState)
  (job : Construction.Job) :
  queue s = Some job -> ~ completesConstruction job o ->
  perform o s = Ok s' -> queue s' = Some job.
Proof.
  intros Hq Hn. destruct o as [now | now | now | now | c]; simpl.
  - intro H; inversion H.
    destruct (updateResources_frame now s) as [_ [H' _]]. congruence.
  - simpl in Hn. rewrite checkQueue_pending.
    + intro H; inversion H; subst. exact Hq.
    + unfold constructionPending. rewrite Hq. lia.
  - intro H; inversion H.
    destruct (checkTrainingQueue_frame now s) as [_ [_ [H' _]]]. congruence.
  - intro H; inversion H.
    destruct (checkRaidQueue_frame now s) as [_ [H' _]]. congruence.
  - destruct c as [type n1 n2 | index n1 n2 | n1 n2 | random n1 n2]; simpl.
    + rewrite (buildNew_busy type n1 n2 s job Hq).
      intro H; inversion H; subst. exact Hq.
    + rewrite (upgradeBuilding_busy index n1 n2 s job Hq).
      intro H; inversion H; subst. exact Hq.
    + intro H; inversion H.
      destruct (trainTroop_frame n1 n2 s) as [_ [H' _]]. congruence.
    + intro H; inversion H.
      destruct (raid_frame random n1 n2 s) as [_ [_ [H' _]]]. congruence.
Qed.

Lemma perform_keeps_training (o : Operation) (s s' : GameState)
  (job : Training.Job) :
  trainingQueue s = Some job -> ~ completesTraining job o ->
  perform o s = Ok s' -> trainingQueue s' = Some job.
Proof.
  intros Hq Hn. destruct o as [now | now | now | now | c]; simpl.
  - intro H; inversion H.
    destruct (updateResources_frame now s) as [_ [_ [_ H']]]. congruence.
  - intro H. destruct (checkQueue_frame now s s' H) as [_ [_ [H' _]]].
    congruence.
  - simpl in Hn. intro H; inversion H.
    rewrite checkTrainingQueue_pending; [exact Hq |].
    unfold trainingPending. rewrite Hq. now apply Qcnot_le_lt.
  - intro H; inversion H.
    destruct (checkRaidQueue_frame now s) as [_ [_ [_ [H' _]]]]. congruence.
  - destruct c as [type n1 n2 | index n1 n2 | n1 n2 | random n1 n2]; simpl.
    + intro H. destruct (buildNew_frame _ _ _ _ _ H) as [_ [_ [H' _]]].
      congruence.
    + intro H. destruct (upgradeBuilding_frame _ _ _ _ _ H) as [_ [_ [H' _]]].
      congruence.
    + intro H; inversion H.
      now rewrite (trainTroop_busy n1 n2 s job Hq).
    + intro H; inversion H.
      destruct (raid_frame random n1 n2 s) as [_ [_ [_ [H' _]]]]. congruence.
Qed.

(** X9.  A stored construction job is neither replaced, changed nor
    dropped by any sequence of operations that contains no construction
    check from its [endTime] on; in particular [buildNew] and
    [upgradeBuilding] on a busy queue do nothing.  The same holds for a
    stored training job and training checks. *)
Theorem stored_job_kept (ops : list Operation) (s s' : GameState) :
  performAll ops s = Ok s' ->
  (forall job,
      queue s = Some job ->
      Forall (fun o => ~ completesConstruction job o) ops ->
      queue s' = Some job) /\
  (forall job,
      trainingQueue s = Some job ->
      Forall (fun o => ~ completesTraining job o) ops ->
      trainingQueue s' = Some job).
Proof.
  revert s. induction ops as [| o ops IH]; intros s H; simpl in H.
  - inversion H; subst. split; intros; assumption.
  - destruct (perform o s) as [s1 |] eqn:E; cbn [bind] in H;
      [| discriminate].
    destruct (IH s1 H) as [IHc IHt]. split; intros job Hq Hops;
      inversion Hops as [| ? ? Ho Hrest]; subst.
    + apply IHc; [| exact Hrest].
      exact (perform_keeps_construction o s s1 job Hq Ho E).
    + apply IHt; [| exact Hrest].
      exact (perform_keeps_training o s s1 job Hq Ho E).
Qed.

(** X9 at [busyVillage] before reading 5000: further commands and early
    checks leave its construction job in place. *)
Lemma stored_job_kept_witness :
  exists s',
    performAll [OpCommand (CmdBuildNew "farm" 10 10);
                OpCommand (CmdUpgradeBuilding 1 20 20);
                OpCheckQueue 4999; OpUpdateResources 4999;
                OpCommand (CmdBuildNew "castle" 30 30)]
               busyVillage = Ok s' /\
    queue s' = Some (Construction.mkJob woodcutter None 1 0 5000).
Proof.
  destruct (performAll [OpCommand (CmdBuildNew "farm" 10 10);
                        OpCommand (CmdUpgradeBuilding 1 20 20);
                        OpCheckQueue 4999; OpUpdateResources 4999;
                        OpCommand (CmdBuildNew "castle" 30 30)]
                       busyVillage) as [s' |] eqn:E.
  - exists s'. split; [reflexivity |].
    apply (stored_job_kept _ busyVillage s' E).
    + reflexivity.
    + repeat (apply Forall_cons; [simpl; try tauto; lia |]). apply Forall_nil.
  - vm_compute in E. discriminate E.
Defined.

End Slots.

(** ** Jobs the commands store, and the building list *)

Section WellFormed.

Lemma queueWellFormed_ext (s s' : GameState) :
  buildings s' = buildings s -> queue s' = queue s ->
  queueWellFormed s -> queueWellFormed s'.
Proof. unfold queueWellFormed. now intros -> ->. Qed.

Lemma queueWellFormed_idle (s : GameState) :
  queue s = None -> queueWellFormed s.
Proof. unfold queueWellFormed. now intros ->. Qed.

Lemma checkQueue_cases (now : Z) (s s' : GameState) :
  checkQueue now s = Ok s' -> s' = s \/ queue s' = None.
Proof.
  unfold checkQueue. destruct (queue s) as [job |]; [| intro H; inversion H; auto].
  destruct (Construction.endTime job <=? now); [| intro H; inversion H; auto].
  destruct (Construction.targetIndex job) as [i |].
  - destruct (buildingAt (buildings s) i); intro H; inversion H. now right.
  - intro H; inversion H. now right.
Qed.

Lemma checkQueue_returns (now : Z) (s : GameState) :
  queueWellFormed s -> exists s', checkQueue now s = Ok s'.
Proof.
  unfold queueWellFormed, checkQueue.
  destruct (queue s) as [job |]; [| eauto].
  destruct (Construction.endTime job <=? now); [| eauto].
  destruct (Construction.targetIndex job) as [i |]; [| eauto].
  intros [b [Hb _]]. rewrite Hb. eauto.
Qed.

Lemma perform_wellFormed (o : Operation) (s s' : GameState) :
  queueWellFormed s -> perform o s = Ok s' -> queueWellFormed s'.
Proof.
  intro Hwf. destruct o as [now | now | now | now | c]; simpl.
  - intro H; inversion H.
    destruct (updateResources_frame now s) as [Hb [Hq _]].
    exact (queueWellFormed_ext s _ Hb Hq Hwf).
  - intro H. destruct (checkQueue_cases now s s' H) as [-> | Hq];
      [exact Hwf | now apply queueWellFormed_idle].
  - intro H; inversion H.
    destruct (checkTrainingQueue_frame now s) as [_ [Hb [Hq _]]].
    exact (queueWellFormed_ext s _ Hb Hq Hwf).
  - intro H; inversion H.
    destruct (checkRaidQueue_frame now s) as [Hb [Hq _]].
    exact (queueWellFormed_ext s _ Hb Hq Hwf).
  - destruct c as [type n1 n2 | index n1 n2 | n1 n2 | random n1 n2]; simpl.
    + intro H. destruct (buildNew_cases _ _ _ _ _ H)
        as [-> | [k [_ [_ [_ ->]]]]]; [exact Hwf |].
      unfold queueWellFormed. reflexivity.
    + intro H. destruct (upgradeBuilding_cases _ _ _ _ _ H)
        as [-> | [b [Hb [_ [_ ->]]]]]; [exact Hwf |].
      unfold queueWellFormed.
      cbn [withQueue deductResources withResources queue buildings
           Construction.targetIndex Construction.type Construction.level].
      exists b. auto.
    + intro H; inversion H.
      destruct (trainTroop_frame n1 n2 s) as [Hb [Hq _]].
      exact (queueWellFormed_ext s _ Hb Hq Hwf).
    + intro H; inversion H.
      destruct (raid_frame random n1 n2 s) as [_ [Hb [Hq _]]].
      exact (queueWellFormed_ext s _ Hb Hq Hwf).
Qed.

Lemma performAll_wellFormed (ops : list Operation) (s s' : GameState) :
  queueWellFormed s -> performAll ops s = Ok s' -> queueWellFormed s'.
Proof.
  revert s. induction ops as [| o ops IH]; intros s Hwf H; simpl in H.
  - now inversion H; subst.
  - destruct (perform o s) as [s1 |] eqn:E; cbn [bind] in H; [| discriminate].
    exact (IH s1 (perform_wellFormed o s s1 Hwf E) H).
Qed.

Lemma runCommand_raised (c : Command) (s : GameState) :
  runCommand c s = TypeError -> ~ addressesExisting c s.
Proof.
  intros H Ha.
  destruct c as [type n1 n2 | index n1 n2 | n1 n2 | random n1 n2];
    simpl in *; try discriminate.
  - destruct (buildNew_returns type n1 n2 s Ha) as [s' E]. congruence.
  - destruct (upgradeBuilding_returns index n1 n2 s Ha) as [s' E]. congruence.
Qed.

Lemma nth_error_app_left {A : Type} (l l' : list A) (n : nat) (x : A) :
  nth_error l n = Some x -> nth_error (l ++ l') n = Some x.
Proof.
  revert n. induction l as [| a l IH]; intros [| n]; simpl;
    try discriminate; auto.
Qed.

Lemma checkQueue_keeps_buildings (now : Z) (s s' : GameState) :
  queueWellFormed s -> checkQueue now s = Ok s' ->
  forall index b,
    buildingAt (buildings s) index = Some b ->
    exists b',
      buildingAt (buildings s') index = Some b' /\
      type b' = type b /\ (level b <= level b')%positive.
Proof.
  intros Hwf H index b Hb.
  assert (Hsame : exists b', buildingAt (buildings s) index = Some b' /\
                             type b' = type b /\ (level b <= level b')%positive).
  { exists b. split; [exact Hb | split; [reflexivity | lia]]. }
  revert H. unfold checkQueue, queueWellFormed in *.
  destruct (queue s) as [job |]; [| intro H; inversion H; subst; exact Hsame].
  destruct (Construction.endTime job <=? now);
    [| intro H; inversion H; subst; exact Hsame].
  destruct (buildingAt_Some_nonneg _ _ _ Hb) as [Hnn Hnth].
  destruct (Construction.targetIndex job) as [i |].
  - destruct Hwf as [b0 [Hb0 [_ Hlvl]]]. rewrite Hb0.
    intro H; inversion H. cbn [buildings].
    destruct (buildingAt_Some_nonneg _ _ _ Hb0) as [Hnn0 Hnth0].
    destruct (Z.eq_dec i index) as [-> | Hne].
    + exists (mkBuilding (type b0) (Construction.level job)).
      assert (b0 = b) by congruence. subst b0.
      split; [| split; [reflexivity | rewrite Hlvl; simpl; lia]].
      unfold buildingAt. destruct (index <? 0) eqn:E;
        [apply Z.ltb_lt in E; lia |].
      now apply setLevelNat_same.
    + exists b. split; [| split; [reflexivity | lia]].
      unfold buildingAt. destruct (index <? 0) eqn:E;
        [apply Z.ltb_lt in E; lia |].
      rewrite setLevelNat_other by lia. exact Hnth.
  - intro H; inversion H. cbn [buildings]. exists b.
    split; [| split; [reflexivity | lia]].
    unfold buildingAt. destruct (index <? 0) eqn:E;
      [apply Z.ltb_lt in E; lia |].
    now apply nth_error_app_left.
Qed.

(** X11.  No operation removes, moves or retypes a building, and none
    lowers a level: in a state whose stored job fits the building list,
    whatever building stands at an index before an operation, a building of
    the same type and of at least the same level stands at that index
    after it. *)
Theorem buildings_persist (o : Operation) (s s' : GameState) :
  queueWellFormed s -> perform o s = Ok s' ->
  forall index b,
    buildingAt (buildings s) index = Some b ->
    exists b',
      buildingAt (buildings s') index = Some b' /\
      type b' = type b /\ (level b <= level b')%positive.
Proof.
  intros Hwf H index b Hb.
  assert (Hsame : buildings s' = buildings s ->
            exists b', buildingAt (buildings s') index = Some b' /\
                       type b' = type b /\ (level b <= level b')%positive).
  { intros ->. exists b. split; [exact Hb | split; [reflexivity | lia]]. }
  destruct o as [now | now | now | now | c]; simpl in H.
  - injection H as <-. apply Hsame.
    now destruct (updateResources_frame now s) as [Hbs _].
  - exact (checkQueue_keeps_buildings now s s' Hwf H index b Hb).
  - injection H as <-. apply Hsame.
    now destruct (checkTrainingQueue_frame now s) as [_ [Hbs _]].
  - injection H as <-. apply Hsame.
    now destruct (checkRaidQueue_frame now s) as [Hbs _].
  - destruct c as [type n1 n2 | i n1 n2 | n1 n2 | random n1 n2]; simpl in H.
    + apply Hsame. now destruct (buildNew_frame _ _ _ _ _ H) as [Hbs _].
    + apply Hsame. now destruct (upgradeBuilding_frame _ _ _ _ _ H) as [Hbs _].
    + injection H as <-. apply Hsame.
      now destruct (trainTroop_frame n1 n2 s) as [Hbs _].
    + injection H as <-. apply Hsame.
      now destruct (raid_frame random n1 n2 s) as [_ [Hbs _]].
Qed.

(** X11 at [upgradingVillage], checked when its upgrade is due: the
    quarry at index 1 is still a quarry. *)
Lemma buildings_persist_witness :
  exists s' b',
    checkQueue 8000 upgradingVillage = Ok s' /\
    buildingAt (buildings s') 1 = Some b' /\ type b' = quarry.
Proof.
  destruct (checkQueue 8000 upgradingVillage) as [s' |] eqn:E.
  - destruct (buildings_persist (OpCheckQueue 8000) upgradingVillage s')
      with (index := 1) (b := mkBuilding quarry 1) as [b' [Hb [Ht _]]].
    + exists (mkBuilding woodcutter 2). repeat split.
    + exact E.
    + reflexivity.
    + exists s', b'. auto.
  - vm_compute in E. discriminate E.
Defined.

End WellFormed.

(** ** The clock of the accrual *)

Section Clock.

Lemma runTicks_cons (t : Z) (ticks : list Z) (s : GameState) :
  runTicks (t :: ticks) s = runTicks ticks (updateResources t s).
Proof. reflexivity. Qed.

Lemma updateResources_lastUpdate (now : Z) (s : GameState) :
  lastUpdate (updateResources now s) = Z.max (lastUpdate s) now.
Proof.
  destruct (Z_le_gt_dec now (lastUpdate s)) as [H | H].
  - rewrite (updateResources_noop now s H). lia.
  - rewrite (updateResources_step now s) by lia. simpl. lia.
Qed.

Lemma updateResources_grows (now : Z) (s : GameState) (res : Resource) :
  (getRes (resources s) res <= getRes (resources (updateResources now s)) res)%Qc.
Proof.
  destruct (Z_le_gt_dec now (lastUpdate s)) as [H | H].
  - rewrite (updateResources_noop now s H). apply Qcle_refl.
  - rewrite (updateResources_step now s) by lia. cbn [resources].
    rewrite accrue_all_getRes.
    rewrite <- (Qcplus_0_r (getRes (resources s) res)) at 1.
    apply Qc_plus_le_l. apply Qc_nonneg_mult; [apply productionRate_nonneg |].
    apply Qclt_le_weak. rewrite <- num_0.
    apply (proj2 (deltaSeconds_pos _ _)). lia.
Qed.

(** X12.  [updateResources] never moves [lastUpdate] backwards: after a
    call it is the later of the old value and the reading, and after a
    series of calls the latest of the old value and all readings.  A
    reading in the past is therefore ignored, and no call lowers a
    resource. *)
Theorem updateResources_clock (ticks : list Z) (now : Z) (s : GameState) :
  lastUpdate (updateResources now s) = Z.max (lastUpdate s) now /\
  lastUpdate (runTicks ticks s) = fold_left Z.max ticks (lastUpdate s) /\
  (forall res,
      (getRes (resources s) res <=
       getRes (resources (runTicks ticks s)) res)%Qc).
Proof.
  split; [apply updateResources_lastUpdate |].
  revert s. induction ticks as [| t ticks IH]; intro s.
  - split; [reflexivity | intro res; apply Qcle_refl].
  - rewrite runTicks_cons. destruct (IH (updateResources t s)) as [IH1 IH2].
    split.
    + rewrite IH1, updateResources_lastUpdate. reflexivity.
    + intro res. eapply Qcle_trans; [apply updateResources_grows | apply IH2].
Qed.

End Clock.

(** ** A whole tick *)

Section Tick.

Lemma checkQueue_settles (now : Z) (s s' : GameState) :
  checkQueue now s = Ok s' -> constructionPending now s'.
Proof.
  unfold checkQueue, constructionPending.
  destruct (queue s) as [job |] eqn:Eq.
  - destruct (Construction.endTime job <=? now) eqn:E.
    + destruct (Construction.targetIndex job) as [i |].
      * destruct (buildingAt (buildings s) i); intro H; inversion H.
        exact I.
      * intro H; inversion H. exact I.
    + intro H; inversion H; subst. rewrite Eq.
      apply Z.leb_gt in E. exact E.
  - intro H; inversion H; subst. now rewrite Eq.
Qed.

Lemma checkTrainingQueue_settles (now : Z) (s : GameState) :
  trainingPending now (checkTrainingQueue now s).
Proof.
  unfold checkTrainingQueue, trainingPending.
  destruct (trainingQueue s) as [job |] eqn:Eq; [| now rewrite Eq].
  destruct (leb (Training.endTime job) (num now)) eqn:E; [exact I |].
  rewrite Eq. now apply (proj1 (leb_false_iff _ _)).
Qed.

Lemma checkRaidQueue_settles (now : Z) (s : GameState) :
  raidPending now (checkRaidQueue now s).
Proof.
  unfold checkRaidQueue, raidPending.
  destruct (raidQueue s) as [job |] eqn:Eq; [| now rewrite Eq].
  destruct (Raid.endTime job <=? now) eqn:E; [exact I |].
  rewrite Eq. now apply Z.leb_gt in E.
Qed.

Lemma constructionPending_earlier (m n : Z) (s : GameState) :
  m <= n -> constructionPending n s -> constructionPending m s.
Proof.
  unfold constructionPending. destruct (queue s); [lia | auto].
Qed.

Lemma trainingPending_earlier (m n : Z) (s : GameState) :
  m <= n -> trainingPending n s -> trainingPending m s.
Proof.
  unfold trainingPending. destruct (trainingQueue s); [| auto].
  intros Hle H. apply (Qcle_lt_trans _ (num n)); [| exact H].
  now apply (proj2 (num_le _ _)).
Qed.

Lemma raidPending_earlier (m n : Z) (s : GameState) :
  m <= n -> raidPending n s -> raidPending m s.
Proof.
  unfold raidPending. destruct (raidQueue s); [lia | auto].
Qed.

(** The steps of a tick, named. *)
Lemma tick_steps (now1 now2 now3 now4 : Z) (s s' : GameState) :
  tick now1 now2 now3 now4 s = Ok s' ->
  exists s2,
    checkQueue now2 (updateResources now1 s) = Ok s2 /\
    s' = checkRaidQueue now4 (checkTrainingQueue now3 s2).
Proof.
  unfold tick.
  destruct (checkQueue now2 (updateResources now1 s)) as [s2 |];
    cbn [bind]; [| discriminate].
  intro H; inversion H. now exists s2.
Qed.

(** X13.  After a tick no slot holds a job that was due at the reading of
    its check, and [lastUpdate] is not before the reading of the accrual.
    A further tick whose four readings are not later than those of the
    first changes nothing. *)
Theorem tick_settles (now1 now2 now3 now4 : Z) (s s' : GameState) :
  tick now1 now2 now3 now4 s = Ok s' ->
  constructionPending now2 s' /\ trainingPending now3 s' /\
  raidPending now4 s' /\ now1 <= lastUpdate s' /\
  (forall m1 m2 m3 m4,
      m1 <= now1 -> m2 <= now2 -> m3 <= now3 -> m4 <= now4 ->
      tick m1 m2 m3 m4 s' = Ok s').
Proof.
  intro H. destruct (tick_steps _ _ _ _ _ _ H) as [s2 [Hc ->]].
  set (s3 := checkTrainingQueue now3 s2).
  set (s4 := checkRaidQueue now4 s3).
  destruct (checkRaidQueue_frame now4 s3) as [Hb4 [Hq4 [_ [Ht4 Hl4]]]].
  destruct (checkTrainingQueue_frame now3 s2) as [_ [Hb3 [Hq3 [_ Hl3]]]].
  destruct (checkQueue_frame _ _ _ Hc) as [_ [_ [_ [_ Hl2]]]].
  fold s3 in Hb3, Hq3, Hl3. fold s4 in Hb4, Hq4, Ht4, Hl4.
  assert (Pc : constructionPending now2 s4).
  { pose proof (checkQueue_settles _ _ _ Hc) as P.
    unfold constructionPending in *. now rewrite Hq4, Hq3. }
  assert (Pt : trainingPending now3 s4).
  { pose proof (checkTrainingQueue_settles now3 s2) as P. fold s3 in P.
    unfold trainingPending in *. now rewrite Ht4. }
  assert (Pr : raidPending now4 s4) by apply checkRaidQueue_settles.
  assert (Hl : now1 <= lastUpdate s4).
  { rewrite Hl4, Hl3, Hl2, updateResources_lastUpdate. lia. }
  repeat (split; [assumption |]).
  intros m1 m2 m3 m4 H1 H2 H3 H4. unfold tick.
  rewrite (updateResources_noop m1 s4) by lia.
  rewrite (checkQueue_pending m2 s4)
    by exact (constructionPending_earlier m2 now2 s4 H2 Pc).
  cbn [bind].
  rewrite (checkTrainingQueue_pending m3 s4)
    by exact (trainingPending_earlier m3 now3 s4 H3 Pt).
  rewrite (checkRaidQueue_still m4 s4)
    by exact (raidPending_earlier m4 now4 s4 H4 Pr).
  reflexivity.
Qed.

(** X13 at [busyVillage] with a tick at reading 30000: all three jobs
    complete, and the same tick again changes nothing. *)
Lemma tick_settles_witness :
  exists s',
    tick 30000 30000 30000 30000 busyVillage = Ok s' /\
    queue s' = None /\ troops s' = 1 /\
    tick 30000 30000 30000 30000 s' = Ok s'.
Proof.
  destruct (tick 30000 30000 30000 30000 busyVillage) as [s' |] eqn:E.
  - destruct (tick_settles _ _ _ _ _ _ E) as [_ [_ [_ [_ Hagain]]]].
    exists s'. split; [reflexivity |].
    split; [vm_compute in E; inversion E; reflexivity |].
    split; [vm_compute in E; inversion E; reflexivity |].
    apply Hagain; lia.
  - vm_compute in E. discriminate E.
Defined.

Lemma checkQueue_ext (now : Z) (s t s2 : GameState) :
  buildings t = buildings s -> queue t = queue s ->
  checkQueue now s = Ok s2 ->
  exists t2, checkQueue now t = Ok t2 /\
             buildings t2 = buildings s2 /\ queue t2 = queue s2.
Proof.
  intros Hb Hq. unfold checkQueue. rewrite Hb, Hq.
  destruct (queue s) as [job |] eqn:Eqs.
  - destruct (Construction.endTime job <=? now).
    + destruct (Construction.targetIndex job) as [i |].
      * destruct (buildingAt (buildings s) i); [| discriminate].
        intro H; injection H as <-.
        eexists. split; [reflexivity |]. now simpl.
      * intro H; injection H as <-.
        eexists. split; [reflexivity |]. now simpl.
    + intro H; injection H as <-. eexists. split; [reflexivity |].
      split; congruence.
  - intro H; injection H as <-. eexists. split; [reflexivity |].
    split; congruence.
Qed.

Lemma checkRaidQueue_slot_ext (now : Z) (s t : GameState) :
  raidQueue t = raidQueue s ->
  raidQueue (checkRaidQueue now t) = raidQueue (checkRaidQueue now s).
Proof.
  intro Hq. unfold checkRaidQueue. rewrite Hq.
  destruct (raidQueue s) as [job |] eqn:E; [| congruence].
  destruct (Raid.endTime job <=? now); simpl; congruence.
Qed.

Lemma checkTrainingQueue_ext (now : Z) (s t : GameState) :
  troops t = troops s -> trainingQueue t = trainingQueue s ->
  troops (checkTrainingQueue now t) = troops (checkTrainingQueue now s) /\
  trainingQueue (checkTrainingQueue now t) =
    trainingQueue (checkTrainingQueue now s).
Proof.
  intros Ht Hq. unfold checkTrainingQueue. rewrite Hq.
  destruct (trainingQueue s) as [job |] eqn:E; [| split; congruence].
  destruct (leb (Training.endTime job) (num now)); simpl; split; congruence.
Qed.

Lemma checkRaidQueue_ext (now : Z) (s t : GameState) :
  resources t = resources s -> raidQueue t = raidQueue s ->
  resources (checkRaidQueue now t) = resources (checkRaidQueue now s) /\
  raidQueue (checkRaidQueue now t) = raidQueue (checkRaidQueue now s).
Proof.
  intros Hr Hq. unfold checkRaidQueue. rewrite Hq.
  destruct (raidQueue s) as [job |] eqn:E; [| split; congruence].
  destruct (Raid.endTime job <=? now); simpl; split; congruence.
Qed.

(** X14.  The four steps of a tick do not interfere: each field after the
    tick is what the one step that writes it makes of the state before the
    tick.  In particular the accrual of a tick is computed from the
    building list of before the tick, so a building whose construction the
    same tick completes, or an upgrade it applies, earns nothing for the
    time elapsed up to that tick. *)
Theorem tick_decomposes (now1 now2 now3 now4 : Z) (s s' : GameState) :
  tick now1 now2 now3 now4 s = Ok s' ->
  lastUpdate s' = Z.max (lastUpdate s) now1 /\
  resources s' = resources (checkRaidQueue now4 (updateResources now1 s)) /\
  (raidPending now4 s ->
   forall res,
     getRes (resources s') res =
     getRes (resources (updateResources now1 s)) res) /\
  (exists s2,
      checkQueue now2 s = Ok s2 /\
      buildings s' = buildings s2 /\ queue s' = queue s2) /\
  troops s' = troops (checkTrainingQueue now3 s) /\
  trainingQueue s' = trainingQueue (checkTrainingQueue now3 s) /\
  raidQueue s' = raidQueue (checkRaidQueue now4 s).
Proof.
  intro H. destruct (tick_steps _ _ _ _ _ _ H) as [s2 [Hc ->]].
  set (s1 := updateResources now1 s) in *.
  set (s3 := checkTrainingQueue now3 s2).
  destruct (updateResources_frame now1 s) as [Hb1 [Hq1 [Ht1 Htq1]]].
  pose proof (updateResources_raidQueue now1 s) as Hr1.
  fold s1 in Hb1, Hq1, Ht1, Htq1, Hr1.
  destruct (checkQueue_frame _ _ _ Hc) as [Hres2 [Ht2 [Htq2 [Hr2 Hl2]]]].
  destruct (checkTrainingQueue_frame now3 s2) as [Hres3 [Hb3 [Hq3 [Hr3 Hl3]]]].
  fold s3 in Hres3, Hb3, Hq3, Hr3, Hl3.
  destruct (checkRaidQueue_frame now4 s3) as [Hb4 [Hq4 [Ht4 [Htq4 Hl4]]]].
  assert (Eres : resources (checkRaidQueue now4 s3) =
                 resources (checkRaidQueue now4 s1)).
  { apply checkRaidQueue_ext; congruence. }
  split; [| split; [| split; [| split; [| split; [| split]]]]].
  - rewrite Hl4, Hl3, Hl2. apply updateResources_lastUpdate.
  - exact Eres.
  - intros Hp res. rewrite Eres.
    rewrite (checkRaidQueue_still now4 s1); [reflexivity |].
    unfold raidPending in *. now rewrite Hr1.
  - destruct (checkQueue_ext now2 s1 s s2) as [t2 [Hc' [Hb' Hq']]];
      [congruence | congruence | exact Hc |].
    exists t2. split; [exact Hc' |]. split; congruence.
  - rewrite Ht4.
    apply (checkTrainingQueue_ext now3 s s2); congruence.
  - rewrite Htq4.
    apply (checkTrainingQueue_ext now3 s s2); congruence.
  - apply (checkRaidQueue_slot_ext now4 s s3). congruence.
Qed.

End Tick.

(** X14 at [awayVillage] with a tick at reading 100000: the woodcutter is
    built by that tick and has produced nothing yet. *)
Lemma tick_decomposes_witness :
  exists s',
    tick 100000 100000 100000 100000 awayVillage = Ok s' /\
    lastUpdate s' = 100000 /\
    getRes (resources s') wood = num 50.
Proof.
  destruct (tick 100000 100000 100000 100000 awayVillage) as [s' |] eqn:E.
  - destruct (tick_decomposes _ _ _ _ _ _ E) as [Hl [_ [Hres _]]].
    exists s'. split; [reflexivity |]. split; [exact Hl |].
    rewrite Hres; [qc_eval | exact I].
  - vm_compute in E. discriminate E.
Defined.

(** ** Progress bars *)

Section Progress.

Lemma Qc_le_div_mult (x y m : Qc) :
  (0 < m)%Qc -> (y <= x / m)%Qc -> (y * m <= x)%Qc.
Proof.
  intros Hm H.
  apply (Qcle_trans _ (x / m * m)%Qc).
  - apply Qcmult_le_compat_r; [exact H | now apply Qclt_le_weak].
  - rewrite (Qc_div_mult x m (Qc_pos_neq m Hm)). apply Qcle_refl.
Qed.

Lemma Qc_div_self (t : Qc) : (0 < t)%Qc -> (t / t)%Qc = 1%Qc.
Proof. intro H. field. now apply Qc_pos_neq. Qed.

Lemma Math_min_left (x y : Qc) : (x <= y)%Qc -> Math_min x y = x.
Proof.
  intro H. unfold Math_min. now rewrite (proj2 (leb_iff _ _) H).
Qed.

Lemma Math_min_right (x y : Qc) : (y <= x)%Qc -> Math_min x y = y.
Proof.
  intro H. unfold Math_min. destruct (leb x y) eqn:E; [| reflexivity].
  apply (proj1 (leb_iff _ _)) in E. now apply Qcle_antisym.
Qed.

Lemma Math_max_right (x y : Qc) : (x <= y)%Qc -> Math_max x y = y.
Proof.
  intro H. unfold Math_max. now rewrite (proj2 (leb_iff _ _) H).
Qed.

Lemma Math_max_left (x y : Qc) : (y <= x)%Qc -> Math_max x y = x.
Proof. intro H. now apply Math_max_eq_left. Qed.

Lemma zero_le_one : (0 <= 1)%Qc.
Proof. apply (proj1 (leb_iff _ _)). reflexivity. Qed.

(** The three regimes of the bar. *)
Lemma progressRatio_cases (startTime endTime : Qc) (now : Z) :
  (startTime < endTime)%Qc ->
  ((endTime <= num now)%Qc -> progressRatio startTime endTime now = 1%Qc) /\
  ((startTime <= num now)%Qc -> (num now < endTime)%Qc ->
   progressRatio startTime endTime now =
   ((num now - startTime) / (endTime - startTime))%Qc /\
   (0 <= progressRatio startTime endTime now)%Qc /\
   (progressRatio startTime endTime now < 1)%Qc) /\
  ((num now < startTime)%Qc -> progressRatio startTime endTime now = 0%Qc).
Proof.
  intro Hlt. unfold progressRatio.
  set (t := (endTime - startTime)%Qc). set (x := (num now - startTime)%Qc).
  assert (Ht : (0 < t)%Qc).
  { subst t. now apply (proj1 (Qclt_minus_iff _ _)). }
  assert (Hxt : forall a b : Qc, (a <= b)%Qc ->
                                 (a - startTime <= b - startTime)%Qc).
  { intros a b H. apply Qcplus_le_compat; [exact H | apply Qcle_refl]. }
  assert (Hsmall : (x < t)%Qc -> (x / t < 1)%Qc).
  { intro H. apply Qcnot_le_lt. intro H1.
    apply (Qc_le_div_mult _ _ _ Ht) in H1. rewrite Qcmult_1_l in H1.
    exact (Qcle_not_lt _ _ H1 H). }
  split; [| split].
  - intro Hdue. assert (Hx : (t <= x)%Qc) by (subst t x; now apply Hxt).
    rewrite (Math_min_right x t Hx), (Qc_div_self t Ht).
    rewrite (Math_min_left 1 1) by apply Qcle_refl.
    apply Math_max_right. exact zero_le_one.
  - intros Hs He.
    assert (Hx0 : (0 <= x)%Qc).
    { subst x. replace 0%Qc with (startTime - startTime)%Qc by ring.
      now apply Hxt. }
    assert (Hx : (x < t)%Qc).
    { subst t x. apply Qcnot_le_lt. intro H.
      apply (Qcle_not_lt _ _ (Qcplus_le_compat _ _ _ _ H
                                (Qcle_refl startTime))).
      replace (endTime - startTime + startTime)%Qc with endTime by ring.
      replace (num now - startTime + startTime)%Qc with (num now) by ring.
      exact He. }
    rewrite (Math_min_left x t) by now apply Qclt_le_weak.
    pose proof (Hsmall Hx) as Hq.
    rewrite (Math_min_right 1 (x / t)) by now apply Qclt_le_weak.
    assert (Hq0 : (0 <= x / t)%Qc).
    { apply (Qc_le_div_r _ _ _ Ht). now rewrite Qcmult_0_l. }
    rewrite (Math_max_right 0 (x / t) Hq0). auto.
  - intro Hs.
    assert (Hx : (x < 0)%Qc).
    { subst x. apply Qcnot_le_lt. intro H.
      apply (Qcle_not_lt _ _ (Qcplus_le_compat _ _ _ _ H
                                (Qcle_refl startTime))).
      replace (0 + startTime)%Qc with startTime by ring.
      replace (num now - startTime + startTime)%Qc with (num now) by ring.
      exact Hs. }
    rewrite (Math_min_left x t)
      by exact (Qclt_le_weak _ _ (Qclt_trans _ _ _ Hx Ht)).
    rewrite (Math_min_right 1 (x / t))
      by exact (Qclt_le_weak _ _ (Hsmall (Qclt_trans _ _ _ Hx Ht))).
    apply Math_max_left. apply (Qc_le_div_l _ _ _ Ht).
    rewrite Qcmult_0_l. now apply Qclt_le_weak.
Qed.

(** X15.  For a job with [startTime < endTime] the ratio of the progress
    bar lies between 0 and 1, is 0 up to [startTime], is the elapsed
    fraction [(now - startTime) / (endTime - startTime)] in between, and is
    1 exactly at the readings at which the check of the queue completes
    the job ([now >= endTime]). *)
Theorem progressRatio_clamped (startTime endTime : Qc) (now : Z) :
  (startTime < endTime)%Qc ->
  (0 <= progressRatio startTime endTime now)%Qc /\
  (progressRatio startTime endTime now <= 1)%Qc /\
  (progressRatio startTime endTime now = 1%Qc <-> (endTime <= num now)%Qc) /\
  ((num now <= startTime)%Qc -> progressRatio startTime endTime now = 0%Qc) /\
  ((startTime <= num now)%Qc -> (num now <= endTime)%Qc ->
   progressRatio startTime endTime now =
   ((num now - startTime) / (endTime - startTime))%Qc).
Proof.
  intro Hlt.
  destruct (progressRatio_cases startTime endTime now Hlt) as [Hdue [Hmid Hpre]].
  assert (Ht : (0 < endTime - startTime)%Qc)
    by now apply (proj1 (Qclt_minus_iff _ _)).
  destruct (Qclt_le_dec (num now) endTime) as [He | He].
  - destruct (Qclt_le_dec (num now) startTime) as [Hs | Hs].
    + rewrite (Hpre Hs).
      split; [apply Qcle_refl |]. split; [exact zero_le_one |].
      split; [| split].
      * split; [intro H; discriminate H |].
        intro H. exfalso. exact (Qcle_not_lt _ _ H He).
      * reflexivity.
      * intros H _. exfalso. exact (Qcle_not_lt _ _ H Hs).
    + destruct (Hmid Hs He) as [Heq [H0 H1]].
      split; [exact H0 |]. split; [now apply Qclt_le_weak |].
      split; [| split].
      * split.
        -- intro H. rewrite H in H1. exfalso.
           exact (Qclt_not_eq _ _ H1 eq_refl).
        -- intro H. exfalso. exact (Qcle_not_lt _ _ H He).
      * intro H. assert (E : num now = startTime) by now apply Qcle_antisym.
        rewrite Heq, E. unfold Qcminus, Qcdiv.
        rewrite Qcplus_opp_r. apply Qcmult_0_l.
      * intros _ _. exact Heq.
  - rewrite (Hdue He).
    split; [exact zero_le_one |]. split; [apply Qcle_refl |].
    split; [| split].
    + split; [intros _; exact He | reflexivity].
    + intro H. exfalso.
      exact (Qcle_not_lt _ _ (Qcle_trans _ _ _ He H) Hlt).
    + intros _ H. assert (E : num now = endTime) by now apply Qcle_antisym.
      rewrite E. symmetry. now apply Qc_div_self.
Qed.

(** X15 for a construction job from 0 to 5000 at reading 1250: the bar
    is a quarter full. *)
Lemma progressRatio_clamped_witness :
  progressRatio (num 0) (num 5000) 1250 = Q2Qc (1 # 4).
Proof.
  destruct (progressRatio_clamped (num 0) (num 5000) 1250)
    as [_ [_ [_ [_ Hmid]]]].
  - apply (proj2 (num_lt _ _)). lia.
  - rewrite Hmid.
    + qc_eval.
    + apply (proj2 (num_le _ _)). lia.
    + apply (proj2 (num_le _ _)). lia.
Defined.

End Progress.

(** ** A whole call of [tick] *)

Section TickCall.

Lemma Math_min_le_r (x y : Qc) : (Math_min x y <= y)%Qc.
Proof.
  unfold Math_min. destruct (leb x y) eqn:E.
  - now apply (proj1 (leb_iff _ _)).
  - apply Qcle_refl.
Qed.

(** The first [updateProgress] throws exactly when the bar is full. *)
Lemma reachesEnd_iff (startTime endTime : Qc) (now : Z) :
  reachesEnd startTime endTime now = true <-> barFull startTime endTime now.
Proof.
  unfold reachesEnd, barFull.
  destruct (Qclt_le_dec startTime endTime) as [Hlt | Hge].
  - destruct (progressRatio_cases startTime endTime now Hlt)
      as [Hdue [Hmid Hpre]].
    destruct (Qclt_le_dec (num now) endTime) as [He | He].
    + assert (Hr : (progressRatio startTime endTime now < 1)%Qc).
      { destruct (Qclt_le_dec (num now) startTime) as [Hs | Hs].
        - rewrite (Hpre Hs). reflexivity.
        - now destruct (Hmid Hs He) as [_ [_ H1]]. }
      rewrite (proj2 (leb_false_iff _ _) Hr). split; [discriminate |].
      intros [[_ H] | H]; exfalso.
      * exact (Qcle_not_lt _ _ H He).
      * exact (Qclt_not_le _ _ H (Qclt_le_weak _ _ Hlt)).
    + rewrite (Hdue He). split; [| reflexivity]. intros _. now left.
  - destruct (Qc_eq_dec startTime endTime) as [E | N].
    + subst endTime. unfold progressRatio.
      replace (startTime - startTime)%Qc with 0%Qc by ring.
      unfold Qcdiv. change (/ 0)%Qc with 0%Qc. rewrite Qcmult_0_r.
      split; [discriminate |].
      intros [[H _] | H]; exfalso; exact (Qclt_not_eq _ _ H eq_refl).
    + assert (Hlt : (endTime < startTime)%Qc).
      { apply Qcnot_le_lt. intro H. apply N. now apply Qcle_antisym. }
      split; [intros _; now right | intros _].
      unfold progressRatio.
      set (t := (endTime - startTime)%Qc).
      set (e := Math_min (num now - startTime)%Qc t).
      assert (Ht : (0 < - t)%Qc).
      { subst t. replace (- (endTime - startTime))%Qc
          with (startTime - endTime)%Qc by ring.
        now apply (proj1 (Qclt_minus_iff _ _)). }
      assert (He : (e <= t)%Qc) by apply Math_min_le_r.
      assert (Hq : (1 <= e / t)%Qc).
      { replace (e / t)%Qc with ((- e) / (- t))%Qc.
        - apply (Qc_le_div_r _ _ _ Ht). rewrite Qcmult_1_l.
          now apply Qcopp_le_compat.
        - field. split; intro Z0.
          + rewrite Z0 in Ht. discriminate Ht.
          + rewrite Z0 in Ht. discriminate Ht. }
      rewrite (Math_min_left 1 (e / t) Hq).
      rewrite (Math_max_right 0 1 zero_le_one). reflexivity.
Qed.

Ltac no_bar_full :=
  let j := fresh "j" in
  let Ej := fresh "Ej" in
  let B := fresh "B" in
  intros [[j [Ej B]] | [[j [Ej B]] | [j [Ej B]]]];
  try discriminate Ej; injection Ej as <-;
  apply (proj2 (reachesEnd_iff _ _ _)) in B; congruence.

(** What [tickCall] does once the four steps have returned. *)
Lemma tickCall_cases (now1 now2 now3 now4 now5 now6 now7 : Z)
  (s s' : GameState) :
  tick now1 now2 now3 now4 s = Ok s' ->
  (tickCall now1 now2 now3 now4 now5 now6 now7 s = ThrowsReferenceError s' /\
   someBarFull now5 now6 now7 s') \/
  (tickCall now1 now2 now3 now4 now5 now6 now7 s = Returns s' /\
   ~ someBarFull now5 now6 now7 s').
Proof.
  intro H. unfold tickCall, someBarFull. rewrite H.
  unfold renderQueue, renderTraining, renderRaid.
  destruct (queue s') as [cj |];
    [destruct (reachesEnd _ _ now5) eqn:Ec;
     [left; split; [reflexivity |]; left; exists cj;
      split; [reflexivity | now apply (proj1 (reachesEnd_iff _ _ _))] |] |];
    (destruct (trainingQueue s') as [tj |];
     [destruct (reachesEnd _ _ now6) eqn:Et;
      [left; split; [reflexivity |]; right; left; exists tj;
       split; [reflexivity | now apply (proj1 (reachesEnd_iff _ _ _))] |] |]);
    (destruct (raidQueue s') as [rj |];
     [destruct (reachesEnd _ _ now7) eqn:Er;
      [left; split; [reflexivity |]; right; right; exists rj;
       split; [reflexivity | now apply (proj1 (reachesEnd_iff _ _ _))] |] |]);
    right; (split; [reflexivity |]); no_bar_full.
Qed.

(** Jobs that are pending at the readings of the bars and do not end before
    they start have no full bar. *)
Lemma pending_not_full (now5 now6 now7 : Z) (s : GameState) :
  jobsTimed s ->
  constructionPending now5 s -> trainingPending now6 s -> raidPending now7 s ->
  ~ someBarFull now5 now6 now7 s.
Proof.
  unfold jobsTimed, constructionPending, trainingPending, raidPending,
    someBarFull.
  intros [Tc [Tt Tr]] Pc Pt Pr [[j [Ej B]] | [[j [Ej B]] | [j [Ej B]]]];
    rewrite Ej in *; destruct B as [[_ B] | B].
  - apply (proj1 (num_le _ _)) in B. lia.
  - apply (proj1 (num_lt _ _)) in B. lia.
  - exact (Qcle_not_lt _ _ B Pt).
  - exact (Qclt_not_le _ _ B Tt).
  - apply (proj1 (num_le _ _)) in B. lia.
  - apply (proj1 (num_lt _ _)) in B. lia.
Qed.

Lemma tick_pending (now1 now2 now3 now4 : Z) (s s' : GameState) :
  tick now1 now2 now3 now4 s = Ok s' ->
  constructionPending now2 s' /\ trainingPending now3 s' /\
  raidPending now4 s'.
Proof.
  intro H. destruct (tick_steps _ _ _ _ _ _ H) as [s2 [Hc ->]].
  set (s3 := checkTrainingQueue now3 s2).
  set (s4 := checkRaidQueue now4 s3).
  destruct (checkRaidQueue_frame now4 s3) as [_ [Hq4 [_ [Ht4 _]]]].
  destruct (checkTrainingQueue_frame now3 s2) as [_ [_ [Hq3 _]]].
  fold s3 in Hq3. fold s4 in Hq4, Ht4.
  split; [| split].
  - pose proof (checkQueue_settles _ _ _ Hc) as P.
    unfold constructionPending in *. now rewrite Hq4, Hq3.
  - pose proof (checkTrainingQueue_settles now3 s2) as P. fold s3 in P.
    unfold trainingPending in *. now rewrite Ht4.
  - apply checkRaidQueue_settles.
Qed.

(** X10.  The jobs the commands store always fit the building list: a job
    for a new building has level 1, and an upgrade job targets a building
    of the list, with its type and the level above its own.  This holds in
    the default state and is kept by every operation.  In such a state no
    check throws, so the only operation that can throw a [TypeError] is a
    [buildNew] or [upgradeBuilding] that names no existing type or
    building, and the four steps of a tick that change the state always
    return.  The call of [tick] as a whole then either returns or throws a
    [ReferenceError] from a render function, leaving the same state: it
    throws exactly when a job still stored after the checks has a full
    progress bar at the reading of its render function (it has reached its
    end since its check, or it ends before it starts), and it returns when
    no stored job ends before it starts and no bar is read later than its
    check. *)
Theorem jobs_fit_buildings :
  (forall scriptStart, queueWellFormed (DEFAULT_STATE scriptStart)) /\
  (forall ops s s',
      queueWellFormed s -> performAll ops s = Ok s' -> queueWellFormed s') /\
  (forall o s,
      queueWellFormed s -> perform o s = TypeError ->
      exists c, o = OpCommand c /\ ~ addressesExisting c s) /\
  (forall now1 now2 now3 now4 now5 now6 now7 s,
      queueWellFormed s ->
      exists s',
        tick now1 now2 now3 now4 s = Ok s' /\ queueWellFormed s' /\
        (tickCall now1 now2 now3 now4 now5 now6 now7 s = Returns s' \/
         tickCall now1 now2 now3 now4 now5 now6 now7 s =
           ThrowsReferenceError s') /\
        (tickCall now1 now2 now3 now4 now5 now6 now7 s =
           ThrowsReferenceError s' <-> someBarFull now5 now6 now7 s') /\
        (jobsTimed s' -> now5 <= now2 -> now6 <= now3 -> now7 <= now4 ->
         tickCall now1 now2 now3 now4 now5 now6 now7 s = Returns s')).
Proof.
  split; [| split; [| split]].
  - intro t. exact I.
  - exact performAll_wellFormed.
  - intros o s Hwf H. destruct o as [now | now | now | now | c];
      simpl in H; try discriminate.
    + destruct (checkQueue_returns now s Hwf) as [s' E]. congruence.
    + exists c. split; [reflexivity | now apply runCommand_raised].
  - intros now1 now2 now3 now4 now5 now6 now7 s Hwf.
    assert (Hwf1 : queueWellFormed (updateResources now1 s))
      by exact (perform_wellFormed (OpUpdateResources now1) s _ Hwf eq_refl).
    destruct (checkQueue_returns now2 _ Hwf1) as [s2 E].
    assert (Hwf2 : queueWellFormed s2)
      by exact (perform_wellFormed (OpCheckQueue now2) _ s2 Hwf1 E).
    assert (Hwf3 : queueWellFormed (checkTrainingQueue now3 s2))
      by exact (perform_wellFormed (OpCheckTrainingQueue now3) s2 _ Hwf2
                  eq_refl).
    assert (Hwf4 : queueWellFormed
                     (checkRaidQueue now4 (checkTrainingQueue now3 s2)))
      by exact (perform_wellFormed (OpCheckRaidQueue now4) _ _ Hwf3 eq_refl).
    assert (Ht : tick now1 now2 now3 now4 s =
                 Ok (checkRaidQueue now4 (checkTrainingQueue now3 s2)))
      by (unfold tick; rewrite E; reflexivity).
    eexists. split; [exact Ht |]. split; [exact Hwf4 |].
    destruct (tickCall_cases now1 now2 now3 now4 now5 now6 now7 s _ Ht)
      as [[Hc Hfull] | [Hc Hnone]].
    + split; [now right |]. split; [tauto |].
      intros Htimed H5 H6 H7. exfalso. revert Hfull.
      destruct (tick_pending _ _ _ _ _ _ Ht) as [Pc [Pt Pr]].
      apply pending_not_full; [exact Htimed | | |].
      * exact (constructionPending_earlier now5 now2 _ H5 Pc).
      * exact (trainingPending_earlier now6 now3 _ H6 Pt).
      * exact (raidPending_earlier now7 now4 _ H7 Pr).
    + split; [now left |]. split; [| intros _ _ _ _; exact Hc].
      split; [intro H; rewrite Hc in H; discriminate H | tauto].
Qed.

(** X10 at [busyVillage], whose construction and training end at 5000.
    With every reading of the tick at 4999 the tick returns; with the
    checks at 4999 and the bars read at 5000 the construction job is still
    stored, its bar is full and the call throws a [ReferenceError].  And
    after [openingMoves] the state reached fits and the steps of its next
    tick return. *)
Lemma jobs_fit_buildings_witness :
  (exists s',
      tick 4999 4999 4999 4999 busyVillage = Ok s' /\
      queue s' = queue busyVillage /\
      tickCall 4999 4999 4999 4999 4999 4999 4999 busyVillage = Returns s' /\
      tickCall 4999 4999 4999 4999 5000 5000 5000 busyVillage =
        ThrowsReferenceError s') /\
  (exists s' s'',
      performAll openingMoves (DEFAULT_STATE 0) = Ok s' /\
      tick 96000 96000 96000 96000 s' = Ok s'').
Proof.
  destruct jobs_fit_buildings as [Hdef [Hall [_ Htick]]].
  split.
  - assert (Hwf : queueWellFormed busyVillage) by reflexivity.
    destruct (Htick 4999 4999 4999 4999 4999 4999 4999 busyVillage Hwf)
      as [s1 [Ht1 [_ [_ [_ Hret]]]]].
    destruct (Htick 4999 4999 4999 4999 5000 5000 5000 busyVillage Hwf)
      as [s2 [Ht2 [_ [_ [Hthrow _]]]]].
    assert (E : s2 = s1) by congruence. subst s2.
    assert (Es : s1 = updateResources 4999 busyVillage).
    { vm_compute in Ht1. injection Ht1 as <-. vm_compute. reflexivity. }
    exists s1. split; [exact Ht1 |]. split; [now rewrite Es |]. split.
    + apply Hret; try lia. rewrite Es. vm_compute.
      repeat split; discriminate.
    + apply (proj2 Hthrow). left.
      exists (Construction.mkJob woodcutter None 1 0 5000).
      split; [now rewrite Es |].
      left. split; [reflexivity | discriminate].
  - destruct (performAll openingMoves (DEFAULT_STATE 0)) as [s' |] eqn:E.
    + destruct (Htick 96000 96000 96000 96000 96000 96000 96000 s')
        as [s'' [Ht _]].
      * exact (Hall openingMoves (DEFAULT_STATE 0) s' (Hdef 0) E).
      * exists s', s''. split; [reflexivity | exact Ht].
    + vm_compute in E. discriminate E.
Defined.

End TickCall.

(** ** Loading a saved state *)

Section Loading.

(** X16.  [loadState] gives back the state that was saved, whenever its
    [lastUpdate] is not 0; a saved [lastUpdate] of 0 counts as absent and
    is replaced by the reading of the load.  Without a stored item, or with
    one that does not parse, the result is the default state.  Of an
    object lacking the newer fields, [troops] becomes 0 and the training
    and raid slots empty, while resources, buildings and the construction
    slot are taken as stored.  The accrual that follows the load at
    startup therefore credits the whole time since the saved
    [lastUpdate]. *)
Theorem loadState_restores (s : GameState) (scriptStart now now' : Z) :
  (lastUpdate s <> 0 ->
   loadState (Parsed (toPersisted s)) scriptStart now = s /\
   updateResources now' (loadState (Parsed (toPersisted s)) scriptStart now) =
     updateResources now' s) /\
  (lastUpdate s = 0 ->
   loadState (Parsed (toPersisted s)) scriptStart now =
   mkState (resources s) (buildings s) (queue s) (troops s)
           (trainingQueue s) (raidQueue s) now) /\
  (scriptStart <> 0 ->
   loadState NoItem scriptStart now = DEFAULT_STATE scriptStart /\
   loadState Malformed scriptStart now = DEFAULT_STATE scriptStart) /\
  loadState (Parsed (mkPersisted (resources s) (buildings s) (queue s)
                                 None None None None))
            scriptStart now =
    mkState (resources s) (buildings s) (queue s) 0 None None now.
Proof.
  split; [| split; [| split]].
  - intro H.
    assert (E : loadState (Parsed (toPersisted s)) scriptStart now = s).
    { unfold loadState, toPersisted. simpl.
      destruct (lastUpdate s =? 0) eqn:E0;
        [apply Z.eqb_eq in E0; contradiction |].
      now destruct s. }
    split; [exact E | now rewrite E].
  - intro H. unfold loadState, toPersisted. simpl. now rewrite H.
  - intro H. unfold loadState, toPersisted, DEFAULT_STATE. simpl.
    destruct (scriptStart =? 0) eqn:E0;
      [apply Z.eqb_eq in E0; contradiction |].
    split; reflexivity.
  - reflexivity.
Qed.

(** X16 for [garrison] saved with its [lastUpdate] moved to 1000. *)
Lemma loadState_restores_witness :
  loadState
    (Parsed (toPersisted
               (mkState (resources garrison) (buildings garrison) None 7
                        None None 1000)))
    0 5000 =
  mkState (resources garrison) (buildings garrison) None 7 None None 1000.
Proof.
  apply (loadState_restores
           (mkState (resources garrison) (buildings garrison) None 7
                    None None 1000) 0 5000 5000).
  simpl. discriminate.
Defined.

End Loading.
